(** * secure-chat-anywhere: channel key management and content encryption

    A shallow embedding of [src/lib/crypto.ts] (the primitive layer),
    [src/contexts/EncryptionContext.tsx] (key cache, channel key manager,
    content cipher), the parts of [src/contexts/AuthContext.tsx] and
    [src/contexts/StorageContext.tsx] they call, and the message
    operations of [src/contexts/MessageContext.tsx] that use them.

    Layout:
    - values of the JavaScript run time (bytes, strings, exceptions);
    - the browser functions the code calls: [btoa]/[atob] and
      [TextEncoder]/[TextDecoder] are written out after the WHATWG
      standards; the Web Crypto ciphers and JSON for keys are an interface
      ([WebCrypto]) with the laws the development relies on;
    - the repository's functions, in a state-and-exception monad over the
      process state ([World]);
    - lemmas, a reference instance of the interface, and the properties. *)

From Stdlib Require Import ZArith Lia String Ascii.
From Stdlib Require Import Sorted.
From Stdlib.Strings Require Import Byte.
From stdpp Require Import gmap list.

Open Scope Z_scope.

(** Linear arithmetic with division and remainder by constants. *)
Ltac zdm := Z.div_mod_to_equations; lia.

(** ** Bytes and strings of the run time *)

(** An element of a [Uint8Array]. *)
Definition byte_to_Z (b : byte) : Z := Z.of_N (Byte.to_N b).

(** Storing a number into a [Uint8Array] keeps it modulo 256. *)
Definition byte_of_Z (z : Z) : byte :=
  match Byte.of_N (Z.to_N (z mod 256)) with
  | Some b => b
  | None => x00
  end.

(** A JavaScript string is a sequence of UTF-16 code units. *)
Definition jsstring : Type := list Z.

(** A string literal of the source (ASCII only). *)
Definition js (s : string) : jsstring :=
  map (fun a => Z.of_nat (nat_of_ascii a)) (list_ascii_of_string s).

(** [s.length], [s.charCodeAt(i)] for [i] in range, [String.fromCharCode]. *)
Definition String_fromCharCode (c : Z) : Z := c mod 65536.

(** Exceptions the modelled code can raise or meet. *)
Inductive Exn : Type :=
  | JsError (message : string)        (* [new Error(message)] *)
  | StorageError (message : string)   (* thrown by a storage adapter *)
  | DOMException (name : string)      (* raised by [atob], [btoa], [crypto.subtle] *)
  | SyntaxError                       (* raised by [JSON.parse] *)
  | TypeError.                        (* property access on [null]/[undefined] *)

(** Result of a computation that may throw and has no other effect. *)
Inductive result (A : Type) : Type :=
  | Ok (a : A)
  | Throw (e : Exn).
Arguments Ok {A} a.
Arguments Throw {A} e.

Definition result_bind {A B} (r : result A) (k : A -> result B) : result B :=
  match r with
  | Ok a => k a
  | Throw e => Throw e
  end.

Definition result_of_option {A} (e : Exn) (o : option A) : result A :=
  match o with
  | Some a => Ok a
  | None => Throw e
  end.

Definition is_ok {A} (r : result A) : bool :=
  match r with Ok _ => true | Throw _ => false end.

(** ** [btoa] and [atob] (WHATWG forgiving-base64) *)

Module Base64.

(** Character of a six-bit value, [A-Z a-z 0-9 + /]. *)
Definition b64_char (v : Z) : Z :=
  if v <? 26 then 65 + v
  else if v <? 52 then 97 + (v - 26)
  else if v <? 62 then 48 + (v - 52)
  else if v =? 62 then 43
  else 47.

(** Six-bit value of a character of the alphabet. *)
Definition b64_val (c : Z) : option Z :=
  if (65 <=? c) && (c <=? 90) then Some (c - 65)
  else if (97 <=? c) && (c <=? 122) then Some (c - 71)
  else if (48 <=? c) && (c <=? 57) then Some (c + 4)
  else if c =? 43 then Some 62
  else if c =? 47 then Some 63
  else None.

Definition pad : Z := 61. (* '=' *)

(** The six-bit groups of a byte sequence; a last group of one or two
    bytes is filled with zero bits. *)
Fixpoint sextets (l : list Z) : list Z :=
  match l with
  | a :: b :: c :: r =>
      a / 4 :: (a mod 4) * 16 + b / 16 :: (b mod 16) * 4 + c / 64 :: c mod 64
        :: sextets r
  | [a; b] => [a / 4; (a mod 4) * 16 + b / 16; (b mod 16) * 4]
  | [a] => [a / 4; (a mod 4) * 16]
  | [] => []
  end.

Definition padding (n : nat) : list Z :=
  match (n mod 3)%nat with
  | 1%nat => [pad; pad]
  | 2%nat => [pad]
  | _ => []
  end.

Definition encode (l : list Z) : jsstring :=
  map b64_char (sextets l) ++ padding (length l).

(** [btoa(data)]: throws [InvalidCharacterError] when a code unit is
    above U+00FF. *)
Definition btoa (data : jsstring) : result jsstring :=
  if forallb (fun c => (0 <=? c) && (c <=? 255)) data
  then Ok (encode data)
  else Throw (DOMException "InvalidCharacterError").

Definition is_ascii_whitespace (c : Z) : bool :=
  (c =? 9) || (c =? 10) || (c =? 12) || (c =? 13) || (c =? 32).

(** Step 2 of forgiving-base64 decode: when the length is a multiple of
    four, one or two trailing ['='] are removed. *)
Definition strip_padding (d : jsstring) : jsstring :=
  if (Z.of_nat (length d) mod 4 =? 0) then
    match rev d with
    | p1 :: p2 :: r =>
        if p1 =? pad then (if p2 =? pad then rev r else rev (p2 :: r)) else d
    | [p1] => if p1 =? pad then [] else d
    | [] => d
    end
  else d.

(** The bytes of a sequence of six-bit values; left-over bits of a last
    group of two or three values are dropped. *)
Fixpoint unsextets (v : list Z) : list Z :=
  match v with
  | a :: b :: c :: d :: r =>
      a * 4 + b / 16 :: (b mod 16) * 16 + c / 4 :: (c mod 4) * 64 + d
        :: unsextets r
  | [a; b; c] => [a * 4 + b / 16; (b mod 16) * 16 + c / 4]
  | [a; b] => [a * 4 + b / 16]
  | _ => []
  end.

(** [atob(data)]: throws [InvalidCharacterError] on failure. *)
Definition atob (data : jsstring) : result jsstring :=
  let d := strip_padding (List.filter (fun c => negb (is_ascii_whitespace c)) data) in
  if Z.of_nat (length d) mod 4 =? 1 then Throw (DOMException "InvalidCharacterError")
  else
    match mapM b64_val d with
    | Some vs => Ok (unsextets vs)
    | None => Throw (DOMException "InvalidCharacterError")
    end.

End Base64.

Example btoa_Man : Base64.btoa (js "Man") = Ok (js "TWFu").
Proof. reflexivity. Qed.

Example btoa_Ma : Base64.btoa (js "Ma") = Ok (js "TWE=").
Proof. reflexivity. Qed.

Example atob_TWE : Base64.atob (js "TWE=") = Ok (js "Ma").
Proof. reflexivity. Qed.

Example atob_forgiving : Base64.atob (js " TW E") = Ok (js "Ma").
Proof. reflexivity. Qed.

Example atob_hello : Base64.atob (js "hello") = Throw (DOMException "InvalidCharacterError").
Proof. reflexivity. Qed.

(** ** [TextEncoder] and [TextDecoder] (WHATWG Encoding, UTF-8) *)

Module Utf8.

Definition is_lead (c : Z) : bool := (0xD800 <=? c) && (c <=? 0xDBFF).
Definition is_trail (c : Z) : bool := (0xDC00 <=? c) && (c <=? 0xDFFF).

Definition replacement : Z := 0xFFFD.

(** Conversion of a string to scalar values: a surrogate pair is one
    scalar value, a surrogate that is not part of a pair becomes U+FFFD. *)
Fixpoint scalars (s : jsstring) : list Z :=
  match s with
  | [] => []
  | c :: r =>
      if is_lead c then
        match r with
        | d :: r' =>
            if is_trail d
            then 0x10000 + (c - 0xD800) * 0x400 + (d - 0xDC00) :: scalars r'
            else replacement :: scalars r
        | [] => [replacement]
        end
      else if is_trail c then replacement :: scalars r
      else c :: scalars r
  end.

(** UTF-8 bytes of one scalar value. *)
Definition encode_scalar (c : Z) : list Z :=
  if c <? 0x80 then [c]
  else if c <? 0x800 then [0xC0 + c / 64; 0x80 + c mod 64]
  else if c <? 0x10000 then
    [0xE0 + c / 4096; 0x80 + (c / 64) mod 64; 0x80 + c mod 64]
  else
    [0xF0 + c / 262144; 0x80 + (c / 4096) mod 64; 0x80 + (c / 64) mod 64;
     0x80 + c mod 64].

Definition encode (s : jsstring) : list Z := flat_map encode_scalar (scalars s).

(** State of the UTF-8 decoder: the code point being assembled, the
    number of continuation bytes still needed, and the bounds on the next
    byte. *)
Record dstate : Type := {
  d_cp : Z;
  d_need : nat;
  d_lower : Z;
  d_upper : Z;
}.

Definition d_init : dstate :=
  {| d_cp := 0; d_need := 0; d_lower := 0x80; d_upper := 0xBF |}.

(** A byte read when no continuation byte is needed. *)
Definition start (b : Z) : list Z * dstate :=
  if b <=? 0x7F then ([b], d_init)
  else if (0xC2 <=? b) && (b <=? 0xDF) then
    ([], {| d_cp := b mod 32; d_need := 1; d_lower := 0x80; d_upper := 0xBF |})
  else if (0xE0 <=? b) && (b <=? 0xEF) then
    ([], {| d_cp := b mod 16; d_need := 2;
            d_lower := if b =? 0xE0 then 0xA0 else 0x80;
            d_upper := if b =? 0xED then 0x9F else 0xBF |})
  else if (0xF0 <=? b) && (b <=? 0xF4) then
    ([], {| d_cp := b mod 8; d_need := 3;
            d_lower := if b =? 0xF0 then 0x90 else 0x80;
            d_upper := if b =? 0xF4 then 0x8F else 0xBF |})
  else ([replacement], d_init).

(** One byte of input: the code points emitted and the next state. A byte
    outside the bounds ends the sequence with U+FFFD and is read again as
    the start of a new one. *)
Definition step (st : dstate) (b : Z) : list Z * dstate :=
  match d_need st with
  | O => start b
  | S n =>
      if (d_lower st <=? b) && (b <=? d_upper st) then
        let cp := d_cp st * 64 + b mod 64 in
        match n with
        | O => ([cp], d_init)
        | S _ => ([], {| d_cp := cp; d_need := n; d_lower := 0x80; d_upper := 0xBF |})
        end
      else
        let '(out, st') := start b in (replacement :: out, st')
  end.

Fixpoint run (st : dstate) (bs : list Z) : list Z :=
  match bs with
  | [] => match d_need st with O => [] | S _ => [replacement] end
  | b :: r => let '(out, st') := step st b in out ++ run st' r
  end.

(** The decoder of [new TextDecoder()] removes a leading byte order mark
    (the [ignoreBOM] option is false). *)
Definition strip_bom (bs : list Z) : list Z :=
  match bs with
  | b1 :: b2 :: b3 :: r =>
      if (b1 =? 0xEF) && (b2 =? 0xBB) && (b3 =? 0xBF) then r else bs
  | _ => bs
  end.

(** Code units of a code point. *)
Definition units (cp : Z) : list Z :=
  if cp <? 0x10000 then [cp]
  else [0xD800 + (cp - 0x10000) / 0x400; 0xDC00 + (cp - 0x10000) mod 0x400].

Definition decode (bs : list Z) : jsstring :=
  flat_map units (run d_init (strip_bom bs)).

(** A string whose code units are in range and whose surrogates are all
    paired. *)
Fixpoint well_formed (s : jsstring) : bool :=
  match s with
  | [] => true
  | c :: r =>
      if is_lead c then
        match r with
        | d :: r' => is_trail d && well_formed r'
        | [] => false
        end
      else negb (is_trail c) && (0 <=? c) && (c <? 0x10000) && well_formed r
  end.

(** A scalar value: a code point that is not a surrogate. *)
Definition scalar_value (c : Z) : Prop :=
  0 <= c < 0x110000 /\ ~ (0xD800 <= c <= 0xDFFF).

Definition bom : Z := 0xFEFF.

Definition starts_with_bom (s : jsstring) : bool :=
  match s with
  | c :: _ => c =? bom
  | [] => false
  end.

End Utf8.

(** [new TextEncoder().encode(s)] and [new TextDecoder().decode(bytes)]. *)
Definition TextEncoder_encode (s : jsstring) : list byte :=
  map byte_of_Z (Utf8.encode s).

Definition TextDecoder_decode (bs : list byte) : jsstring :=
  Utf8.decode (map byte_to_Z bs).

Example encode_euro : Utf8.encode [0x20AC] = [0xE2; 0x82; 0xAC].
Proof. reflexivity. Qed.

Example encode_pair : Utf8.encode [0xD83D; 0xDE00] = [0xF0; 0x9F; 0x98; 0x80].
Proof. reflexivity. Qed.

Example decode_pair : Utf8.decode [0xF0; 0x9F; 0x98; 0x80] = [0xD83D; 0xDE00].
Proof. reflexivity. Qed.

Example decode_truncated : Utf8.decode [0xE2; 0x82; 0x41] = [0xFFFD; 0x41].
Proof. reflexivity. Qed.

Example encode_lone_surrogate : Utf8.encode [0xD800] = [0xEF; 0xBF; 0xBD].
Proof. reflexivity. Qed.

Example decode_bom : Utf8.decode [0xEF; 0xBB; 0xBF; 0x68; 0x69] = js "hi".
Proof. reflexivity. Qed.

(** ** Data of the application ([src/types/index.ts]) *)

Module User.
Record t : Type := {
  id : jsstring;
  name : jsstring;
  email : jsstring;
  publicKey : option jsstring;   (* JWK text of the public key *)
}.
End User.

Module Reaction.
Record t : Type := {
  emoji : jsstring;
  userId : jsstring;
  userName : jsstring;
}.
End Reaction.

(** The attachments and mentions of a message are not read by the modelled
    code and are left out. *)
Module Message.
Record t : Type := {
  id : jsstring;
  content : jsstring;
  iv : option jsstring;
  senderId : jsstring;
  senderName : jsstring;
  timestamp : Z;
  channelId : jsstring;
  parentId : option jsstring;
  edited : option bool;
  reactions : option (list Reaction.t);
  replyCount : option Z;
}.

(** [{ ...message, content: c }] *)
Definition with_content (m : t) (c : jsstring) : t :=
  {| id := id m; content := c; iv := iv m; senderId := senderId m;
     senderName := senderName m; timestamp := timestamp m;
     channelId := channelId m; parentId := parentId m; edited := edited m;
     reactions := reactions m; replyCount := replyCount m |}.

(** [updated.reactions = rs] on a copy of the message. *)
Definition with_reactions (m : t) (rs : list Reaction.t) : t :=
  {| id := id m; content := content m; iv := iv m; senderId := senderId m;
     senderName := senderName m; timestamp := timestamp m;
     channelId := channelId m; parentId := parentId m; edited := edited m;
     reactions := Some rs; replyCount := replyCount m |}.
End Message.

Module EncryptionKeyReference.
Inductive KeyType : Type := channel | user.

Record t : Type := {
  id : jsstring;
  ownerUserId : jsstring;
  encryptedKey : jsstring;       (* encrypted with the owner's public key *)
  keyType : KeyType;
  associatedId : jsstring;
  createdAt : Z;
}.
End EncryptionKeyReference.

(** What a storage adapter holds: the JSON text written by the application.
    [JSON.parse] inverts [JSON.stringify] on these records, so the text of a
    record is represented by the record. *)
Inductive Json : Type :=
  | JsonKeyReference (r : EncryptionKeyReference.t)
  | JsonMessage (m : Message.t)
  | JsonText (s : jsstring).          (* any other content *)

(** [StoragePaths] of [src/lib/storage/storage-adapter.ts]. *)
Module StoragePaths.
Definition MESSAGES : jsstring := js "messages".
Definition CHANNELS : jsstring := js "channels".
Definition ENCRYPTION : jsstring := js "encryption".
End StoragePaths.

(** A string used as a condition: [undefined] and [''] are falsy. *)
Definition truthy (o : option jsstring) : option jsstring :=
  match o with
  | Some (c :: s) => Some (c :: s)
  | _ => None
  end.

(** ** The random source and the Web Crypto interface *)

(** The bytes the platform's random generator is going to produce. *)
Definition Rng : Type := nat -> byte.

Definition rng_take (n : nat) (g : Rng) : list byte := map g (seq 0 n).
Definition rng_drop (n : nat) (g : Rng) : Rng := fun i => g (n + i)%nat.

(** The largest message RSA-OAEP encrypts with a 2048-bit modulus and
    SHA-256: 256 - 2 * 32 - 2 bytes. *)
Definition rsa_oaep_max_payload : nat := 190.

(** [crypto.subtle] for the two algorithms the code uses, and JSON for
    keys. The ciphers are not computed here; the interface states what the
    development relies on. [None] stands for the exception the call raises. *)
Class WebCrypto : Type := {
  RsaPublic : Type;
  RsaPrivate : Type;
  AesKey : Type;
  JsonWebKey : Type;

  (** [generateKey] for RSA-OAEP (by modulus length) and AES-GCM (by key
      length). *)
  rsa_generateKey : Z -> Rng -> (RsaPublic * RsaPrivate) * Rng;
  aes_generateKey : Z -> Rng -> AesKey * Rng;

  (** RSA-OAEP with SHA-256. *)
  rsa_oaep_encrypt : RsaPublic -> list byte -> Rng -> option (list byte) * Rng;
  rsa_oaep_decrypt : RsaPrivate -> list byte -> option (list byte);

  (** AES-GCM with a 128-bit tag and no additional data: key, nonce, text. *)
  aes_gcm_encrypt : AesKey -> list byte -> list byte -> option (list byte);
  aes_gcm_decrypt : AesKey -> list byte -> list byte -> option (list byte);

  (** [exportKey("jwk", key)]; [importKey("jwk", jwk, algorithm, true,
      usages)] with usages [encrypt], [decrypt], and both for AES-GCM. *)
  export_rsa_public : RsaPublic -> JsonWebKey;
  export_rsa_private : RsaPrivate -> JsonWebKey;
  export_aes : AesKey -> JsonWebKey;
  import_rsa_public : JsonWebKey -> option RsaPublic;
  import_rsa_private : JsonWebKey -> option RsaPrivate;
  import_aes : JsonWebKey -> option AesKey;

  (** [JSON.stringify] and [JSON.parse] on keys. *)
  JSON_stringify : JsonWebKey -> jsstring;
  JSON_parse : jsstring -> option JsonWebKey;

  (** Decryption with the private key of a generated pair inverts
      encryption with its public key, which succeeds on a message within the
      payload limit. *)
  rsa_oaep_correct :
    forall g pk sk g' pt g1,
      rsa_generateKey 2048 g = ((pk, sk), g') ->
      (length pt <= rsa_oaep_max_payload)%nat ->
      exists c, (rsa_oaep_encrypt pk pt g1).1 = Some c
                /\ rsa_oaep_decrypt sk c = Some pt;

  (** Decryption inverts encryption with a 96-bit nonce. *)
  aes_gcm_correct :
    forall k nonce pt,
      length nonce = 12%nat ->
      exists c, aes_gcm_encrypt k nonce pt = Some c
                /\ aes_gcm_decrypt k nonce c = Some pt;

  (** The tag binds the nonce: the tags of one text under two 96-bit nonces
      differ by the cipher's images of two different counter blocks. *)
  aes_gcm_nonce :
    forall k nonce nonce' pt c,
      length nonce = 12%nat -> length nonce' = 12%nat -> nonce <> nonce' ->
      aes_gcm_encrypt k nonce pt = Some c ->
      aes_gcm_decrypt k nonce' c = None;

  import_export_rsa_public : forall k, import_rsa_public (export_rsa_public k) = Some k;
  import_export_rsa_private : forall k, import_rsa_private (export_rsa_private k) = Some k;
  import_export_aes : forall k, import_aes (export_aes k) = Some k;
  JSON_parse_stringify : forall j, JSON_parse (JSON_stringify j) = Some j;

  (** The JWK text of a generated 256-bit key is ASCII and fits the RSA-OAEP
      payload. *)
  exported_aes_ascii :
    forall g, Forall (fun c => 0 <= c < 128)
                (JSON_stringify (export_aes (aes_generateKey 256 g).1));
  exported_aes_short :
    forall g, (length (JSON_stringify (export_aes (aes_generateKey 256 g).1))
               <= rsa_oaep_max_payload)%nat;

  (** The JSON text of a key is the text of an object: it starts with a
      brace. *)
  exported_aes_object :
    forall k, exists rest, JSON_stringify (export_aes k) = 123 :: rest;
}.

(** ** The process state and the monad of the program *)

Section Program.

Context `{W : WebCrypto}.

(** A [CryptoKey]: the algorithm and kind of the key decide which
    operations accept it. *)
Inductive CryptoKey : Type :=
  | RsaPublicKey (k : RsaPublic)
  | RsaPrivateKey (k : RsaPrivate)
  | AesGcmKey (k : AesKey).

Record CryptoKeyPair : Type := {
  publicKey : CryptoKey;
  privateKey : CryptoKey;
}.

(** [AuthState]: the fields the key manager reads. *)
Record AuthState : Type := {
  user : option User.t;
  privateKeyJwk : option JsonWebKey;
}.

(** The state of one browser process.
    - [rng]: the bytes the random generator is going to produce;
    - [now]: the clock read by [new Date()];
    - [authState], [localStorage]: the identity provider;
    - [storageAdapter], [isInitialized]: the state of [StorageProvider]; an
      adapter is represented by the data it holds, by path and key;
    - [channelKeysCache]: the module-level object of
      [EncryptionContext.tsx], shared by every user of the process;
    - [messages], [currentChannelId]: the state of [MessageProvider] (the
      loading flag and the error text are left out). *)
Record World : Type := {
  rng : Rng;
  now : Z;
  authState : AuthState;
  localStorage : gmap jsstring jsstring;
  storageAdapter : option (gmap (jsstring * jsstring) Json);
  isInitialized : bool;
  channelKeysCache : gmap jsstring CryptoKey;
  messages : list Message.t;
  currentChannelId : option jsstring;
}.

Definition set_rng (g : Rng) (w : World) : World :=
  {| rng := g; now := now w; authState := authState w;
     localStorage := localStorage w; storageAdapter := storageAdapter w;
     isInitialized := isInitialized w; channelKeysCache := channelKeysCache w;
     messages := messages w; currentChannelId := currentChannelId w |}.

Definition set_storageAdapter (a : option (gmap (jsstring * jsstring) Json))
    (w : World) : World :=
  {| rng := rng w; now := now w; authState := authState w;
     localStorage := localStorage w; storageAdapter := a;
     isInitialized := isInitialized w; channelKeysCache := channelKeysCache w;
     messages := messages w; currentChannelId := currentChannelId w |}.

Definition set_channelKeysCache (c : gmap jsstring CryptoKey) (w : World) : World :=
  {| rng := rng w; now := now w; authState := authState w;
     localStorage := localStorage w; storageAdapter := storageAdapter w;
     isInitialized := isInitialized w; channelKeysCache := c;
     messages := messages w; currentChannelId := currentChannelId w |}.

Definition set_messages (ms : list Message.t) (w : World) : World :=
  {| rng := rng w; now := now w; authState := authState w;
     localStorage := localStorage w; storageAdapter := storageAdapter w;
     isInitialized := isInitialized w; channelKeysCache := channelKeysCache w;
     messages := ms; currentChannelId := currentChannelId w |}.

Definition set_authState (a : AuthState) (w : World) : World :=
  {| rng := rng w; now := now w; authState := a;
     localStorage := localStorage w; storageAdapter := storageAdapter w;
     isInitialized := isInitialized w; channelKeysCache := channelKeysCache w;
     messages := messages w; currentChannelId := currentChannelId w |}.

(** An [async] function: it reads and changes the process state and either
    returns or throws. A change made before a [throw] stays. *)
Definition M (A : Type) : Type := World -> result A * World.

Definition ret {A} (a : A) : M A := fun w => (Ok a, w).

Definition throw {A} (e : Exn) : M A := fun w => (Throw e, w).

Definition bind {A B} (m : M A) (k : A -> M B) : M B :=
  fun w =>
    match m w with
    | (Ok a, w') => k a w'
    | (Throw e, w') => (Throw e, w')
    end.

(** [try { m } catch (error) { h error }] *)
Definition try_catch {A} (m : M A) (h : Exn -> M A) : M A :=
  fun w =>
    match m w with
    | (Ok a, w') => (Ok a, w')
    | (Throw e, w') => h e w'
    end.

Definition liftR {A} (r : result A) : M A := fun w => (r, w).

Definition gets {A} (f : World -> A) : M A := fun w => (Ok (f w), w).

Definition modify (f : World -> World) : M unit := fun w => (Ok tt, f w).

(** [console.error(...)]: the console is not part of the state. *)
Definition console_error : M unit := ret tt.

End Program.

Notation "x <- m ;; k" := (bind m (fun x => k))
  (at level 100, m at next level, right associativity).
Notation "m ;;; k" := (bind m (fun _ => k))
  (at level 100, right associativity).

(** [for (let i = 0; i < n; i++) body] on a loop state. *)
Definition for_upto {S : Type} (n : nat) (body : nat -> S -> S) (s : S) : S :=
  fold_left (fun s i => body i s) (seq 0 n) s.

(** [s.charCodeAt(i)]; out of range it is [NaN], which a [Uint8Array] stores
    as 0. *)
Definition charCodeAt (s : jsstring) (i : nat) : Z := nth i s 0.

(** ** The primitive layer ([src/lib/crypto.ts]) *)

Section Crypto.

Context `{W : WebCrypto}.

(** [window.crypto.getRandomValues(new Uint8Array(n))] *)
Definition getRandomValues (n : nat) : M (list byte) :=
  fun w => (Ok (rng_take n (rng w)), set_rng (rng_drop n (rng w)) w).

Definition generateKeyPair : M CryptoKeyPair :=
  fun w =>
    let '((pk, sk), g) := rsa_generateKey 2048 (rng w) in
    (Ok {| publicKey := RsaPublicKey pk; privateKey := RsaPrivateKey sk |},
     set_rng g w).

Definition generateSymmetricKey : M CryptoKey :=
  fun w =>
    let '(k, g) := aes_generateKey 256 (rng w) in
    (Ok (AesGcmKey k), set_rng g w).

(** The functions below that use neither the random source nor any other
    state are given as functions to [result]. *)

(** Every key of the program is extractable. *)
Definition exportKey (key : CryptoKey) : result JsonWebKey :=
  Ok match key with
     | RsaPublicKey k => export_rsa_public k
     | RsaPrivateKey k => export_rsa_private k
     | AesGcmKey k => export_aes k
     end.

Definition importKey (jwk : JsonWebKey) (isPrivate : bool) : result CryptoKey :=
  result_of_option (DOMException "DataError")
    (if isPrivate
     then RsaPrivateKey <$> import_rsa_private jwk
     else RsaPublicKey <$> import_rsa_public jwk).

Definition importSymmetricKey (jwk : JsonWebKey) : result CryptoKey :=
  result_of_option (DOMException "DataError") (AesGcmKey <$> import_aes jwk).

Definition arrayBufferToBase64 (buffer : list byte) : result jsstring :=
  let bytes := buffer in
  let binary :=
    for_upto (length bytes)
      (fun i binary => binary ++ [String_fromCharCode (byte_to_Z (nth i bytes x00))])
      [] in
  Base64.btoa binary.

Definition base64ToArrayBuffer (base64 : jsstring) : result (list byte) :=
  result_bind (Base64.atob base64) (fun binaryString =>
  let bytes := replicate (length binaryString) x00 in
  Ok (for_upto (length binaryString)
        (fun i bytes => <[i := byte_of_Z (charCodeAt binaryString i)]> bytes)
        bytes)).

(** [crypto.subtle.encrypt({ name: "RSA-OAEP" }, key, data)] *)
Definition subtle_encrypt_RSA_OAEP (key : CryptoKey) (data : list byte)
    : M (list byte) :=
  fun w =>
    match key with
    | RsaPublicKey pk =>
        let '(c, g) := rsa_oaep_encrypt pk data (rng w) in
        (result_of_option (DOMException "OperationError") c, set_rng g w)
    | _ => (Throw (DOMException "InvalidAccessError"), w)
    end.

(** [crypto.subtle.decrypt({ name: "RSA-OAEP" }, key, data)] *)
Definition subtle_decrypt_RSA_OAEP (key : CryptoKey) (data : list byte)
    : result (list byte) :=
  match key with
  | RsaPrivateKey sk =>
      result_of_option (DOMException "OperationError") (rsa_oaep_decrypt sk data)
  | _ => Throw (DOMException "InvalidAccessError")
  end.

(** [crypto.subtle.encrypt({ name: "AES-GCM", iv }, key, data)] *)
Definition subtle_encrypt_AES_GCM (iv : list byte) (key : CryptoKey)
    (data : list byte) : result (list byte) :=
  match key with
  | AesGcmKey k =>
      result_of_option (DOMException "OperationError") (aes_gcm_encrypt k iv data)
  | _ => Throw (DOMException "InvalidAccessError")
  end.

(** [crypto.subtle.decrypt({ name: "AES-GCM", iv }, key, data)] *)
Definition subtle_decrypt_AES_GCM (iv : list byte) (key : CryptoKey)
    (data : list byte) : result (list byte) :=
  match key with
  | AesGcmKey k =>
      result_of_option (DOMException "OperationError") (aes_gcm_decrypt k iv data)
  | _ => Throw (DOMException "InvalidAccessError")
  end.

Definition encryptWithPublicKey (data : jsstring) (publicKey : CryptoKey)
    : M jsstring :=
  let dataBuffer := TextEncoder_encode data in
  encryptedBuffer <- subtle_encrypt_RSA_OAEP publicKey dataBuffer ;;
  liftR (arrayBufferToBase64 encryptedBuffer).

Definition decryptWithPrivateKey (encryptedData : jsstring) (privateKey : CryptoKey)
    : result jsstring :=
  result_bind (base64ToArrayBuffer encryptedData) (fun encryptedBuffer =>
  result_bind (subtle_decrypt_RSA_OAEP privateKey encryptedBuffer) (fun decryptedBuffer =>
  Ok (TextDecoder_decode decryptedBuffer))).

(** The [{ ciphertext, iv }] object. *)
Record Encrypted : Type := {
  ciphertext : jsstring;
  iv : jsstring;
}.

Definition encryptWithSymmetricKey (data : jsstring) (symmetricKey : CryptoKey)
    : M Encrypted :=
  iv <- getRandomValues 12 ;;
  let dataBuffer := TextEncoder_encode data in
  encryptedBuffer <- liftR (subtle_encrypt_AES_GCM iv symmetricKey dataBuffer) ;;
  ciphertext_b64 <- liftR (arrayBufferToBase64 encryptedBuffer) ;;
  iv_b64 <- liftR (arrayBufferToBase64 iv) ;;
  ret {| ciphertext := ciphertext_b64; iv := iv_b64 |}.

Definition decryptWithSymmetricKey (encryptedData : jsstring) (iv : jsstring)
    (symmetricKey : CryptoKey) : result jsstring :=
  result_bind (base64ToArrayBuffer encryptedData) (fun encryptedBuffer =>
  result_bind (base64ToArrayBuffer iv) (fun ivBuffer =>
  result_bind (subtle_decrypt_AES_GCM ivBuffer symmetricKey encryptedBuffer)
    (fun decryptedBuffer =>
  Ok (TextDecoder_decode decryptedBuffer)))).

End Crypto.

(** ** The identity provider and the storage provider *)

Section Providers.

Context `{W : WebCrypto}.

(** [`${authState.user?.id}`] *)
Definition user_id_text (u : option User.t) : jsstring :=
  match u with
  | Some u => User.id u
  | None => js "undefined"
  end.

(** [getPrivateKey] of [AuthContext.tsx]. An item of [localStorage] that
    is not the JSON text of a key makes [JSON.parse] (or the caller's
    [importKey]) throw; both are represented by [SyntaxError], every caller
    catches them alike. *)
Definition getPrivateKey : M (option JsonWebKey) :=
  a <- gets authState ;;
  match user a with
  | None => ret None
  | Some u =>
      match privateKeyJwk a with
      | Some jwk => ret (Some jwk)
      | None =>
          ls <- gets localStorage ;;
          match truthy (ls !! (js "privateKey-" ++ User.id u)) with
          | None => ret None                      (* [JSON.parse('null')] *)
          | Some text =>
              jwk <- liftR (result_of_option SyntaxError (JSON_parse text)) ;;
              ret (Some jwk)
          end
      end
  end.

(** A storage adapter, by the contract of the [StorageAdapter] interface:
    [store] writes the data at path and key, [retrieve] reads it back and
    throws when there is none, [list] gives the keys under a path.

    The adapters of [src/lib/storage] keep [store]; they do not keep the
    rest of the contract: [list] of the Amazon S3 and of the Azure adapter
    returns no key, and [retrieve] of the Google Drive adapter takes the path
    for its second parameter, the data. The properties of this development
    that are about reading back are therefore stated on what [listData] and
    [retrieveData] return, not on what was stored. *)
Definition adapter_store (key : jsstring) (data : Json) (path : jsstring)
    (blobs : gmap (jsstring * jsstring) Json)
    : jsstring * gmap (jsstring * jsstring) Json :=
  (path ++ js "/" ++ key, <[(path, key) := data]> blobs).

Definition adapter_retrieve (key : jsstring) (path : jsstring)
    (blobs : gmap (jsstring * jsstring) Json) : result Json :=
  result_of_option (StorageError "Failed to retrieve file") (blobs !! (path, key)).

Definition adapter_list (path : jsstring)
    (blobs : gmap (jsstring * jsstring) Json) : list jsstring :=
  (List.filter (fun pk => bool_decide (pk.1 = path)) (map_to_list blobs).*1).*2.

(** [storeData], [retrieveData], [listData] of [StorageContext.tsx]. *)
Definition storeData (key : jsstring) (data : Json) (path : jsstring) : M jsstring :=
  fun w =>
    match storageAdapter w, isInitialized w with
    | Some blobs, true =>
        try_catch
          (fun w =>
             let '(location, blobs') := adapter_store key data path blobs in
             (Ok location, set_storageAdapter (Some blobs') w))
          (fun error => console_error ;;; throw error) w
    | _, _ => (Throw (JsError "Storage adapter not initialized"), w)
    end.

Definition retrieveData (key : jsstring) (path : jsstring) : M Json :=
  fun w =>
    match storageAdapter w, isInitialized w with
    | Some blobs, true =>
        try_catch
          (liftR (adapter_retrieve key path blobs))
          (fun error => console_error ;;; throw error) w
    | _, _ => (Throw (JsError "Storage adapter not initialized"), w)
    end.

Definition listData (path : jsstring) : M (list jsstring) :=
  fun w =>
    match storageAdapter w, isInitialized w with
    | Some blobs, true =>
        try_catch
          (ret (adapter_list path blobs))
          (fun error => console_error ;;; throw error) w
    | _, _ => (Throw (JsError "Storage adapter not initialized"), w)
    end.

(** [JSON.parse(data) as EncryptionKeyReference]: text of another shape
    either does not parse or has no [encryptedKey], and the steps that
    follow throw; [SyntaxError] stands for both. *)
Definition JSON_parse_EncryptionKeyReference (data : Json)
    : result EncryptionKeyReference.t :=
  match data with
  | JsonKeyReference r => Ok r
  | _ => Throw SyntaxError
  end.

(** [JSON.parse(messageData) as Message] on the records that the
    application writes under [messages]. [JSON.parse] also accepts JSON text
    of another shape, which a [Message.t] cannot hold; the result here for a
    datum that is not a message record stands for text that is not JSON, and
    no property is stated for a store with such data under [messages]. *)
Definition JSON_parse_Message (data : Json) : result Message.t :=
  match data with
  | JsonMessage m => Ok m
  | _ => Throw SyntaxError
  end.

End Providers.

(** ** Key cache, channel key manager and content cipher
       ([src/contexts/EncryptionContext.tsx])

    The key cache is the object literal [channelKeysCache]; the state holds
    the keys that were assigned to it. For a channel id that is not the name
    of a member the object inherits, [channelKeysCache[channelId]] is the
    lookup of the id among the assigned keys, and this is how
    [getChannelKey] and [hasChannelKey] read the cache here. For the name of
    an inherited member the read gives that member when no key was assigned:
    the members of [Object.prototype], and, once a key was assigned to
    [__proto__] and became the prototype of the cache, those of
    [CryptoKey.prototype]. [plain_id] says that an id is no such name; for
    the other ids the lookup stands for the read of an own member only. *)

Definition Object_prototype_names : list jsstring :=
  [js "constructor"; js "__defineGetter__"; js "__defineSetter__";
   js "hasOwnProperty"; js "__lookupGetter__"; js "__lookupSetter__";
   js "isPrototypeOf"; js "propertyIsEnumerable"; js "toString"; js "valueOf";
   js "__proto__"; js "toLocaleString"].

Definition CryptoKey_prototype_names : list jsstring :=
  [js "type"; js "extractable"; js "algorithm"; js "usages"].

(** A channel id that names no member the key cache can inherit. *)
Definition plain_id (channelId : jsstring) : Prop :=
  channelId ∉ Object_prototype_names ++ CryptoKey_prototype_names.

Section EncryptionContext.

Context `{W : WebCrypto}.

(** Get the symmetric key for a channel. *)
Definition getChannelKey (channelId : jsstring) : M (option CryptoKey) :=
  try_catch
    (cache <- gets channelKeysCache ;;
     match cache !! channelId with
     | Some key => ret (Some key)
     | None =>
         privateKeyJwk <- getPrivateKey ;;
         match privateKeyJwk with
         | None => throw (JsError "Private key not available")
         | Some privateKeyJwk =>
             privateKey <- liftR (importKey privateKeyJwk true) ;;
             a <- gets authState ;;
             let encryptedKeyReferencePath :=
               StoragePaths.ENCRYPTION ++ js "/" ++ channelId in
             encryptedKeyReferenceData <-
               retrieveData (js "key-" ++ user_id_text (user a) ++ js ".json")
                 encryptedKeyReferencePath ;;
             encryptedKeyReference <-
               liftR (JSON_parse_EncryptionKeyReference encryptedKeyReferenceData) ;;
             decryptedKeyJwk <-
               liftR (decryptWithPrivateKey
                        (EncryptionKeyReference.encryptedKey encryptedKeyReference)
                        privateKey) ;;
             jwk <- liftR (result_of_option SyntaxError (JSON_parse decryptedKeyJwk)) ;;
             symmetricKey <- liftR (importSymmetricKey jwk) ;;
             modify (fun w =>
               set_channelKeysCache (<[channelId := symmetricKey]> (channelKeysCache w)) w) ;;;
             ret (Some symmetricKey)
         end
     end)
    (fun error => console_error ;;; ret None).

(** Generate a new symmetric key for a channel. *)
Definition generateChannelKey (channelId : jsstring) : M bool :=
  try_catch
    (a <- gets authState ;;
     match user a with
     | None => throw (JsError "User not authenticated")
     | Some u =>
         symmetricKey <- generateSymmetricKey ;;
         symmetricKeyJwk <- liftR (exportKey symmetricKey) ;;
         privateKeyJwk <- getPrivateKey ;;
         match privateKeyJwk with
         | None => throw (JsError "Private key not available")
         | Some _ =>
             match truthy (User.publicKey u) with
             | None => throw (JsError "Public key not available")
             | Some publicKeyData =>
                 publicKeyJwk <-
                   liftR (result_of_option SyntaxError (JSON_parse publicKeyData)) ;;
                 publicKey <- liftR (importKey publicKeyJwk false) ;;
                 encryptedKey <-
                   encryptWithPublicKey (JSON_stringify symmetricKeyJwk) publicKey ;;
                 createdAt <- gets now ;;
                 let keyReference :=
                   {| EncryptionKeyReference.id :=
                        js "key-" ++ channelId ++ js "-" ++ User.id u;
                      EncryptionKeyReference.ownerUserId := User.id u;
                      EncryptionKeyReference.encryptedKey := encryptedKey;
                      EncryptionKeyReference.keyType := EncryptionKeyReference.channel;
                      EncryptionKeyReference.associatedId := channelId;
                      EncryptionKeyReference.createdAt := createdAt |} in
                 storeData (js "key-" ++ User.id u ++ js ".json")
                   (JsonKeyReference keyReference)
                   (StoragePaths.ENCRYPTION ++ js "/" ++ channelId) ;;;
                 modify (fun w =>
                   set_channelKeysCache
                     (<[channelId := symmetricKey]> (channelKeysCache w)) w) ;;;
                 ret true
             end
         end
     end)
    (fun error => console_error ;;; ret false).

(** Check if the user has the key for a channel. *)
Definition hasChannelKey (channelId : jsstring) : M bool :=
  try_catch
    (cache <- gets channelKeysCache ;;
     match cache !! channelId with
     | Some _ => ret true
     | None =>
         key <- getChannelKey channelId ;;
         ret (match key with Some _ => true | None => false end)
     end)
    (fun error => ret false).

(** Share a channel's key with another user. *)
Definition shareChannelKey (channelId : jsstring)
    (recipientPublicKeyJwk : JsonWebKey) : M jsstring :=
  try_catch
    (a <- gets authState ;;
     match user a with
     | None => throw (JsError "User not authenticated")
     | Some _ =>
         channelKey <- getChannelKey channelId ;;
         match channelKey with
         | None => throw (JsError "Channel key not available")
         | Some channelKey =>
             symmetricKeyJwk <- liftR (exportKey channelKey) ;;
             recipientPublicKey <- liftR (importKey recipientPublicKeyJwk false) ;;
             encryptedKey <-
               encryptWithPublicKey (JSON_stringify symmetricKeyJwk)
                 recipientPublicKey ;;
             ret encryptedKey
         end
     end)
    (fun error => console_error ;;; throw error).

(** Import a shared channel key. *)
Definition importSharedChannelKey (encryptedKey : jsstring) (channelId : jsstring)
    : M bool :=
  try_catch
    (a <- gets authState ;;
     match user a with
     | None => throw (JsError "User not authenticated")
     | Some u =>
         privateKeyJwk <- getPrivateKey ;;
         match privateKeyJwk with
         | None => throw (JsError "Private key not available")
         | Some privateKeyJwk =>
             privateKey <- liftR (importKey privateKeyJwk true) ;;
             decryptedKeyJwk <- liftR (decryptWithPrivateKey encryptedKey privateKey) ;;
             createdAt <- gets now ;;
             let keyReference :=
               {| EncryptionKeyReference.id :=
                    js "key-" ++ channelId ++ js "-" ++ User.id u;
                  EncryptionKeyReference.ownerUserId := User.id u;
                  EncryptionKeyReference.encryptedKey := encryptedKey;
                  EncryptionKeyReference.keyType := EncryptionKeyReference.channel;
                  EncryptionKeyReference.associatedId := channelId;
                  EncryptionKeyReference.createdAt := createdAt |} in
             storeData (js "key-" ++ User.id u ++ js ".json")
               (JsonKeyReference keyReference)
               (StoragePaths.ENCRYPTION ++ js "/" ++ channelId) ;;;
             jwk <- liftR (result_of_option SyntaxError (JSON_parse decryptedKeyJwk)) ;;
             symmetricKey <- liftR (importSymmetricKey jwk) ;;
             modify (fun w =>
               set_channelKeysCache
                 (<[channelId := symmetricKey]> (channelKeysCache w)) w) ;;;
             ret true
         end
     end)
    (fun error => console_error ;;; ret false).

(** Encrypt a message for a channel. *)
Definition encryptMessage (message : jsstring) (channelId : jsstring) : M Encrypted :=
  try_catch
    (channelKey <- getChannelKey channelId ;;
     match channelKey with
     | None => throw (JsError "Channel key not available")
     | Some channelKey => encryptWithSymmetricKey message channelKey
     end)
    (fun error => console_error ;;; throw error).

(** Decrypt a message from a channel. *)
Definition decryptMessage (ciphertext : jsstring) (iv : jsstring)
    (channelId : jsstring) : M jsstring :=
  try_catch
    (channelKey <- getChannelKey channelId ;;
     match channelKey with
     | None => throw (JsError "Channel key not available")
     | Some channelKey => liftR (decryptWithSymmetricKey ciphertext iv channelKey)
     end)
    (fun error => console_error ;;; throw error).

End EncryptionContext.

(** ** Message operations ([src/contexts/MessageContext.tsx]) *)

Section MessageContext.

Context `{W : WebCrypto}.

(** [await Promise.all(items.map(async (item) => f item))] *)
Fixpoint Promise_all_map {A B} (f : A -> M B) (items : list A) : M (list B) :=
  match items with
  | [] => ret []
  | item :: rest =>
      b <- f item ;;
      bs <- Promise_all_map f rest ;;
      ret (b :: bs)
  end.

(** [list.sort((a, b) => time a - time b)]: the sort is stable. *)
Fixpoint insert_by_timestamp (m : Message.t) (sorted : list Message.t)
    : list Message.t :=
  match sorted with
  | [] => [m]
  | x :: rest =>
      if Message.timestamp m <=? Message.timestamp x
      then m :: sorted
      else x :: insert_by_timestamp m rest
  end.

Definition sort_by_timestamp (l : list Message.t) : list Message.t :=
  foldr insert_by_timestamp [] l.

Definition cannot_decrypt : jsstring := js "[ENCRYPTED - Cannot decrypt]".

(** The first callback of [fetchMessages]: retrieve and parse a message. *)
Definition retrieveMessage (channelId : jsstring) (key : jsstring) : M Message.t :=
  messageData <- retrieveData key (StoragePaths.MESSAGES ++ js "/" ++ channelId) ;;
  liftR (JSON_parse_Message messageData).

(** The second callback of [fetchMessages]: decrypt the content of one
    message. *)
Definition decryptLoaded (channelId : jsstring) (message : Message.t) : M Message.t :=
  try_catch
    (match truthy (Message.iv message) with
     | Some iv =>
         decryptedContent <- decryptMessage (Message.content message) iv channelId ;;
         ret (Message.with_content message decryptedContent)
     | None => ret message
     end)
    (fun err => console_error ;;; ret (Message.with_content message cannot_decrypt)).

(** Fetch messages for a channel. *)
Definition fetchMessages (channelId : jsstring) : M (list Message.t) :=
  try_catch
    (messageKeys <- listData (StoragePaths.MESSAGES ++ js "/" ++ channelId) ;;
     channelMessages <- Promise_all_map (retrieveMessage channelId) messageKeys ;;
     let channelMessages := sort_by_timestamp channelMessages in
     decryptedMessages <- Promise_all_map (decryptLoaded channelId) channelMessages ;;
     modify (set_messages decryptedMessages) ;;;
     ret decryptedMessages)
    (fun error => console_error ;;; ret []).

(** [(r) => r.userId === authState.user?.id && r.emoji === emoji] *)
Definition is_reaction_of (u : User.t) (emoji : jsstring) (r : Reaction.t) : bool :=
  bool_decide (Reaction.userId r = User.id u) && bool_decide (Reaction.emoji r = emoji).

(** The stored version of an updated message: the content of a message
    that has an [iv] is encrypted again. *)
Definition storeUpdatedMessage (messageId : jsstring) (message updatedMessage : Message.t)
    (currentChannelId : jsstring) : M jsstring :=
  encryptedMessage <-
    match truthy (Message.iv message) with
    | Some _ =>
        e <- encryptMessage (Message.content message) currentChannelId ;;
        ret (Message.with_content updatedMessage (ciphertext e))
    | None => ret updatedMessage
    end ;;
  storeData (messageId ++ js ".json") (JsonMessage encryptedMessage)
    (StoragePaths.MESSAGES ++ js "/" ++ currentChannelId).

(** Add a reaction to a message. *)
Definition addReaction (messageId : jsstring) (emoji : jsstring) : M bool :=
  try_catch
    (a <- gets authState ;;
     current <- gets currentChannelId ;;
     match user a, truthy current with
     | Some u, Some currentChannelId =>
         messages <- gets messages ;;
         match list_find (fun m => Message.id m = messageId) messages with
         | None => throw (JsError "Message not found")
         | Some (messageIndex, message) =>
             let existingReaction :=
               find (is_reaction_of u emoji) (default [] (Message.reactions message)) in
             match existingReaction with
             | Some _ => ret true
             | None =>
                 let updatedMessage :=
                   Message.with_reactions message
                     (default [] (Message.reactions message)
                      ++ [ {| Reaction.emoji := emoji;
                              Reaction.userId := User.id u;
                              Reaction.userName := User.name u |} ]) in
                 storeUpdatedMessage messageId message updatedMessage currentChannelId ;;;
                 modify (set_messages (<[messageIndex := updatedMessage]> messages)) ;;;
                 ret true
             end
         end
     | _, _ => throw (JsError "User not authenticated or no channel selected")
     end)
    (fun error => console_error ;;; ret false).

(** Remove a reaction from a message. *)
Definition removeReaction (messageId : jsstring) (emoji : jsstring) : M bool :=
  try_catch
    (a <- gets authState ;;
     current <- gets currentChannelId ;;
     match user a, truthy current with
     | Some u, Some currentChannelId =>
         messages <- gets messages ;;
         match list_find (fun m => Message.id m = messageId) messages with
         | None => throw (JsError "Message not found")
         | Some (messageIndex, message) =>
             let updatedMessage :=
               Message.with_reactions message
                 (List.filter (fun r => negb (is_reaction_of u emoji r))
                    (default [] (Message.reactions message))) in
             storeUpdatedMessage messageId message updatedMessage currentChannelId ;;;
             modify (set_messages (<[messageIndex := updatedMessage]> messages)) ;;;
             ret true
         end
     | _, _ => throw (JsError "User not authenticated or no channel selected")
     end)
    (fun error => console_error ;;; ret false).

End MessageContext.

(** ** Editing and deleting messages ([src/contexts/MessageContext.tsx]) *)

Section MessageEditing.

Context `{W : WebCrypto}.

(** [{ ...message, content: ciphertext, iv, edited: true }] *)
Definition edited_message (message : Message.t) (content iv : jsstring) : Message.t :=
  {| Message.id := Message.id message;
     Message.content := content;
     Message.iv := Some iv;
     Message.senderId := Message.senderId message;
     Message.senderName := Message.senderName message;
     Message.timestamp := Message.timestamp message;
     Message.channelId := Message.channelId message;
     Message.parentId := Message.parentId message;
     Message.edited := Some true;
     Message.reactions := Message.reactions message;
     Message.replyCount := Message.replyCount message |}.

(** Edit a message. *)
Definition editMessage (messageId : jsstring) (newContent : jsstring) : M bool :=
  try_catch
    (a <- gets authState ;;
     current <- gets currentChannelId ;;
     match user a, truthy current with
     | Some u, Some currentChannelId =>
         messages <- gets messages ;;
         match list_find (fun m => Message.id m = messageId) messages with
         | None => throw (JsError "Message not found")
         | Some (messageIndex, message) =>
             if negb (bool_decide (Message.senderId message = User.id u))
             then throw (JsError "Cannot edit another user's message")
             else
               e <- encryptMessage newContent currentChannelId ;;
               let updatedMessage := edited_message message (ciphertext e) (iv e) in
               storeData (messageId ++ js ".json") (JsonMessage updatedMessage)
                 (StoragePaths.MESSAGES ++ js "/" ++ currentChannelId) ;;;
               modify (set_messages
                         (<[messageIndex := Message.with_content updatedMessage newContent]>
                            messages)) ;;;
               ret true
         end
     | _, _ => throw (JsError "User not authenticated or no channel selected")
     end)
    (fun error => console_error ;;; ret false).

Definition message_deleted : jsstring := js "[This message was deleted]".

(** [setMessages((prev) => prev.filter(keep))] *)
Definition filterMessages (keep : Message.t -> bool) : M unit :=
  modify (fun w => set_messages (List.filter keep (messages w)) w).

(** Delete a message. The stored object also gets [deleted: true], a field
    that no code reads: [fetchMessages] parses the record as a [Message]. *)
Definition deleteMessage (messageId : jsstring) : M bool :=
  try_catch
    (a <- gets authState ;;
     current <- gets currentChannelId ;;
     match user a, truthy current with
     | Some u, Some currentChannelId =>
         messages <- gets messages ;;
         match find (fun m => bool_decide (Message.id m = messageId)) messages with
         | None => throw (JsError "Message not found")
         | Some message =>
             if negb (bool_decide (Message.senderId message = User.id u))
             then throw (JsError "Cannot delete another user's message")
             else
               storeData (messageId ++ js ".json")
                 (JsonMessage (Message.with_content message message_deleted))
                 (StoragePaths.MESSAGES ++ js "/" ++ currentChannelId) ;;;
               filterMessages (fun m => negb (bool_decide (Message.id m = messageId))) ;;;
               ret true
         end
     | _, _ => throw (JsError "User not authenticated or no channel selected")
     end)
    (fun error => console_error ;;; ret false).

End MessageEditing.


(** ** Grouping of the message list ([src/components/chat/MessageList.tsx]) *)

(** [list.forEach((item, index) => body)] on a loop state. *)
Definition forEach {A S : Type} (body : S -> A -> nat -> S) (l : list A) (s : S) : S :=
  fold_left (fun s '(index, item) => body s item index) (imap pair l) s.

(** The test of [groupMessages]: the message starts a new group when it is
    the first one, has another sender than the message before it, or comes
    more than five minutes after it. At an index above 0 the message before
    exists. *)
Definition starts_new_group (messages : list Message.t) (message : Message.t)
    (index : nat) : bool :=
  match index with
  | O => true
  | S i =>
      match messages !! i with
      | Some prevMessage =>
          negb (bool_decide (Message.senderId message = Message.senderId prevMessage))
          || (5 * 60 * 1000 <? Message.timestamp message - Message.timestamp prevMessage)
      | None => true
      end
  end.

(** Group messages by sender and date. *)
Definition groupMessages (messages : list Message.t) : list (list Message.t) :=
  let '(groups, currentGroup) :=
    forEach
      (fun '(groups, currentGroup) message index =>
         if starts_new_group messages message index
         then ((if bool_decide (0 < length currentGroup)%nat
                then groups ++ [currentGroup] else groups),
               [message])
         else (groups, currentGroup ++ [message]))
      messages ([], []) in
  if bool_decide (0 < length currentGroup)%nat then groups ++ [currentGroup] else groups.

(** Two neighbours of the list that [groupMessages] keeps in one group. *)
Definition same_group (a b : Message.t) : Prop :=
  Message.senderId b = Message.senderId a
  /\ Message.timestamp b - Message.timestamp a <= 300000.


(** ** Channels ([src/types/index.ts]) *)

(** [encryptionKeyId] is never written or read and is left out. *)
Module Channel.
Record t : Type := {
  id : jsstring;
  name : jsstring;
  description : option jsstring;
  isPrivate : bool;
  members : list jsstring;
  createdBy : jsstring;
  createdAt : Z;
  lastMessage : option Message.t;
  pinnedMessages : option (list jsstring);
}.

(** [{ ...channel, lastMessage }] *)
Definition with_lastMessage (c : t) (m : Message.t) : t :=
  {| id := id c; name := name c; description := description c;
     isPrivate := isPrivate c; members := members c; createdBy := createdBy c;
     createdAt := createdAt c; lastMessage := Some m;
     pinnedMessages := pinnedMessages c |}.

(** [updated.pinnedMessages = ids] on a copy of the channel. *)
Definition with_pinnedMessages (c : t) (ids : list jsstring) : t :=
  {| id := id c; name := name c; description := description c;
     isPrivate := isPrivate c; members := members c; createdBy := createdBy c;
     createdAt := createdAt c; lastMessage := lastMessage c;
     pinnedMessages := Some ids |}.
End Channel.

(** ** The rest of the platform

    [JSON.stringify] and [JSON.parse] on channels, users and the metadata of
    files: the text is not computed here; the interface states what the
    development relies on. The text of a user also has [online] and
    [lastSeen], the time of the call. [JSON_parse_User] and
    [JSON_parse_Channel] give nothing for text that does not parse; text of
    another shape is not told apart from it. [JSON_parse_type] is [const { type } = JSON.parse(metadata)]: it
    throws on text that is not JSON, and gives no type when the value has
    none. [apply_arguments_limit] is the largest number of arguments that
    [Function.prototype.apply] passes in this engine. The JSON text of a key
    or of a user is not empty. *)
Class Platform `{W : WebCrypto} : Type := {
  JSON_stringify_Channel : Channel.t -> jsstring;
  JSON_parse_Channel : jsstring -> option Channel.t;
  JSON_stringify_User : User.t -> Z -> jsstring;
  JSON_parse_User : jsstring -> option User.t;
  JSON_stringify_metadata : jsstring -> jsstring -> Z -> jsstring;
  JSON_parse_type : jsstring -> result (option jsstring);
  apply_arguments_limit : nat;

  JSON_parse_stringify_Channel :
    forall c, JSON_parse_Channel (JSON_stringify_Channel c) = Some c;
  JSON_parse_stringify_User :
    forall u lastSeen, JSON_parse_User (JSON_stringify_User u lastSeen) = Some u;
  JSON_parse_type_metadata :
    forall name type size,
      JSON_parse_type (JSON_stringify_metadata name type size) = Ok (Some type);
  JSON_stringify_nonempty : forall j : JsonWebKey, JSON_stringify j <> [];
  JSON_stringify_User_nonempty : forall u lastSeen, JSON_stringify_User u lastSeen <> [];
}.

(** ** Sending messages and creating channels
       ([src/contexts/MessageContext.tsx])

    The list of channels is a state of [MessageProvider] for which the
    process state has no field: the functions that use it take the list and
    return the new one. Every function sets [channels] as its last step, so
    the list is unchanged when the function throws or fails. The text that
    [Math.random().toString(36).substring(2, 9)] evaluates to is an argument
    of the call. *)

Section MessageSending.

Context `{W : WebCrypto} `{P : @Platform W}.

Definition set_currentChannelId (c : option jsstring) (w : World) : World :=
  {| rng := rng w; now := now w; authState := authState w;
     localStorage := localStorage w; storageAdapter := storageAdapter w;
     isInitialized := isInitialized w; channelKeysCache := channelKeysCache w;
     messages := messages w; currentChannelId := c |}.

(** [{ ...parent }] with [replyCount = count]. *)
Definition with_replyCount (m : Message.t) (count : Z) : Message.t :=
  {| Message.id := Message.id m;
     Message.content := Message.content m;
     Message.iv := Message.iv m;
     Message.senderId := Message.senderId m;
     Message.senderName := Message.senderName m;
     Message.timestamp := Message.timestamp m;
     Message.channelId := Message.channelId m;
     Message.parentId := Message.parentId m;
     Message.edited := Message.edited m;
     Message.reactions := Message.reactions m;
     Message.replyCount := Some count |}.

(** [setMessages((prev) => [...prev, message])] *)
Definition appendMessage (message : Message.t) : M unit :=
  modify (fun w => set_messages (messages w ++ [message]) w).

(** [JSON.parse(channelData) as Channel] on the records that the
    application writes under [channels]. [JSON.parse] also accepts JSON text
    of another shape, which a [Channel.t] cannot hold; the result here for a
    datum that is not the text of a channel stands for text that is not JSON,
    and no property is stated for a store with such data under [channels]. *)
Definition JSON_parse_Channel_data (data : Json) : result Channel.t :=
  match data with
  | JsonText text => result_of_option SyntaxError (JSON_parse_Channel text)
  | _ => Throw SyntaxError
  end.

(** [list.sort((a, b) => createdAt b - createdAt a)]: the sort is stable. *)
Fixpoint insert_by_createdAt (c : Channel.t) (sorted : list Channel.t)
    : list Channel.t :=
  match sorted with
  | [] => [c]
  | x :: rest =>
      if Channel.createdAt x <=? Channel.createdAt c
      then c :: sorted
      else x :: insert_by_createdAt c rest
  end.

Definition sort_by_createdAt (l : list Channel.t) : list Channel.t :=
  foldr insert_by_createdAt [] l.

(** The callback of [loadChannels]: retrieve and parse a channel. *)
Definition retrieveChannel (key : jsstring) : M Channel.t :=
  channelData <- retrieveData key StoragePaths.CHANNELS ;;
  liftR (JSON_parse_Channel_data channelData).

(** Load all channels. *)
Definition loadChannels (channels : list Channel.t) : M (list Channel.t) :=
  try_catch
    (channelKeys <- listData StoragePaths.CHANNELS ;;
     loadedChannels <- Promise_all_map retrieveChannel channelKeys ;;
     let loadedChannels := sort_by_createdAt loadedChannels in
     current <- gets currentChannelId ;;
     match loadedChannels, truthy current with
     | first :: _, None => modify (set_currentChannelId (Some (Channel.id first)))
     | _, _ => ret tt
     end ;;;
     ret loadedChannels)
    (fun error => console_error ;;; ret channels).

(** Send a new message. *)
Definition sendMessage (random : jsstring) (channels : list Channel.t)
    (content : jsstring) (channelId : jsstring) (parentId : option jsstring)
    : M (option Message.t * list Channel.t) :=
  try_catch
    (a <- gets authState ;;
     match user a with
     | None => throw (JsError "User not authenticated")
     | Some u =>
         e <- encryptMessage content channelId ;;
         timestamp <- gets now ;;
         let newMessage :=
           {| Message.id := js "msg-" ++ random;
              Message.content := ciphertext e;
              Message.iv := Some (iv e);
              Message.senderId := User.id u;
              Message.senderName := User.name u;
              Message.timestamp := timestamp;
              Message.channelId := channelId;
              Message.parentId := parentId;
              Message.edited := None;
              Message.reactions := Some [];
              Message.replyCount := None |} in
         storeData (Message.id newMessage ++ js ".json") (JsonMessage newMessage)
           (StoragePaths.MESSAGES ++ js "/" ++ channelId) ;;;
         match truthy parentId with
         | Some parentId =>
             messages <- gets messages ;;
             match list_find (fun m => Message.id m = parentId) messages with
             | Some (parentMessageIndex, parent) =>
                 let parentMessage :=
                   with_replyCount parent (default 0 (Message.replyCount parent) + 1) in
                 storeData (Message.id parentMessage ++ js ".json")
                   (JsonMessage parentMessage)
                   (StoragePaths.MESSAGES ++ js "/" ++ channelId) ;;;
                 modify (set_messages (<[parentMessageIndex := parentMessage]> messages))
             | None => ret tt
             end
         | None => ret tt
         end ;;;
         current <- gets currentChannelId ;;
         (if bool_decide (Some channelId = current)
          then
            decryptedContent <- decryptMessage (ciphertext e) (iv e) channelId ;;
            appendMessage (Message.with_content newMessage decryptedContent)
          else ret tt) ;;;
         match list_find (fun c => Channel.id c = channelId) channels with
         | Some (channelIndex, channel) =>
             let updatedChannel := Channel.with_lastMessage channel newMessage in
             storeData (Channel.id updatedChannel ++ js ".json")
               (JsonText (JSON_stringify_Channel updatedChannel))
               StoragePaths.CHANNELS ;;;
             ret (Some newMessage, <[channelIndex := updatedChannel]> channels)
         | None => ret (Some newMessage, channels)
         end
     end)
    (fun error => console_error ;;; ret (None, channels)).

(** Create a new channel. The result of [generateChannelKey] is not
    looked at. The function sets [currentChannelId]; the messages of the new
    channel are loaded after it has returned, by [currentChannelEffect]. *)
Definition createChannel (random : jsstring) (channels : list Channel.t)
    (name : jsstring) (description : jsstring) (isPrivate : bool)
    : M (jsstring * list Channel.t) :=
  try_catch
    (a <- gets authState ;;
     match user a with
     | None => throw (JsError "User not authenticated")
     | Some u =>
         createdAt <- gets now ;;
         let newChannel :=
           {| Channel.id := js "channel-" ++ random;
              Channel.name := name;
              Channel.description := Some description;
              Channel.isPrivate := isPrivate;
              Channel.members := [User.id u];
              Channel.createdBy := User.id u;
              Channel.createdAt := createdAt;
              Channel.lastMessage := None;
              Channel.pinnedMessages := Some [] |} in
         storeData (Channel.id newChannel ++ js ".json")
           (JsonText (JSON_stringify_Channel newChannel)) StoragePaths.CHANNELS ;;;
         generateChannelKey (Channel.id newChannel) ;;;
         modify (set_currentChannelId (Some (Channel.id newChannel))) ;;;
         ret (Channel.id newChannel, newChannel :: channels)
     end)
    (fun error => console_error ;;; throw error).

(** Set current channel. *)
Definition setCurrentChannel (channelId : jsstring) : M unit :=
  modify (set_currentChannelId (Some channelId)).

(** Load messages when channel changes: the effect of [MessageProvider] on
    [currentChannelId]. It runs after a render in which [currentChannelId]
    has changed, so after [createChannel], after [setCurrentChannel], and
    after a [loadChannels] that selected a channel; it is no step of these
    functions. *)
Definition currentChannelEffect : M unit :=
  currentChannelId <- gets currentChannelId ;;
  match truthy currentChannelId with
  | Some currentChannelId => fetchMessages currentChannelId ;;; ret tt
  | None => modify (set_messages [])
  end.

(** Pin a message in a channel. *)
Definition pinMessage (channels : list Channel.t) (messageId : jsstring)
    (channelId : jsstring) : M (bool * list Channel.t) :=
  try_catch
    (a <- gets authState ;;
     match user a with
     | None => throw (JsError "User not authenticated")
     | Some _ =>
         match list_find (fun c => Channel.id c = channelId) channels with
         | None => throw (JsError "Channel not found")
         | Some (channelIndex, channel) =>
             if bool_decide (messageId ∈ default [] (Channel.pinnedMessages channel))
             then ret (true, channels)
             else
               let updatedChannel :=
                 Channel.with_pinnedMessages channel
                   (default [] (Channel.pinnedMessages channel) ++ [messageId]) in
               storeData (channelId ++ js ".json")
                 (JsonText (JSON_stringify_Channel updatedChannel))
                 StoragePaths.CHANNELS ;;;
               ret (true, <[channelIndex := updatedChannel]> channels)
         end
     end)
    (fun error => console_error ;;; ret (false, channels)).

(** Unpin a message from a channel. *)
Definition unpinMessage (channels : list Channel.t) (messageId : jsstring)
    (channelId : jsstring) : M (bool * list Channel.t) :=
  try_catch
    (a <- gets authState ;;
     match user a with
     | None => throw (JsError "User not authenticated")
     | Some _ =>
         match list_find (fun c => Channel.id c = channelId) channels with
         | None => throw (JsError "Channel not found")
         | Some (channelIndex, channel) =>
             let updatedChannel :=
               Channel.with_pinnedMessages channel
                 (List.filter (fun id => negb (bool_decide (id = messageId)))
                    (default [] (Channel.pinnedMessages channel))) in
             storeData (channelId ++ js ".json")
               (JsonText (JSON_stringify_Channel updatedChannel))
               StoragePaths.CHANNELS ;;;
             ret (true, <[channelIndex := updatedChannel]> channels)
         end
     end)
    (fun error => console_error ;;; ret (false, channels)).

End MessageSending.

(** ** Files ([src/contexts/EncryptionContext.tsx]) *)

(** A [File]: [size] is the number of its bytes. *)
Module File.
Record t : Type := {
  name : jsstring;
  type : jsstring;
  bytes : list byte;     (* [await file.arrayBuffer()] *)
}.
Definition size (f : t) : Z := Z.of_nat (length (bytes f)).
End File.

Module Blob.
Record t : Type := {
  bytes : list byte;
  type : jsstring;
}.
End Blob.

Module EncryptedFile.
Record t : Type := {
  encryptedData : jsstring;
  iv : jsstring;
  metadata : jsstring;
}.
End EncryptedFile.

Definition ascii_lowercase (c : Z) : Z :=
  if (65 <=? c) && (c <=? 90) then c + 32 else c.

(** The [type] of [new Blob(parts, { type })]: a type with a character
    outside U+0020 to U+007E becomes the empty text, another one is put in
    lower case; no type is the empty text. *)
Definition Blob_type (type : option jsstring) : jsstring :=
  match type with
  | None => []
  | Some t =>
      if forallb (fun c => (0x20 <=? c) && (c <=? 0x7E)) t
      then map ascii_lowercase t
      else []
  end.

Section Files.

Context `{W : WebCrypto} `{P : @Platform W}.

(** [String.fromCharCode.apply(null, codes)]: above the limit of the
    engine it throws a [RangeError], an [Error] given by its message here. *)
Definition String_fromCharCode_apply (codes : list Z) : result jsstring :=
  if decide (length codes <= apply_arguments_limit)%nat
  then Ok (map String_fromCharCode codes)
  else Throw (JsError "Maximum call stack size exceeded").

(** Encrypt a file for a channel. *)
Definition encryptFile (file : File.t) (channelId : jsstring) : M EncryptedFile.t :=
  try_catch
    (channelKey <- getChannelKey channelId ;;
     match channelKey with
     | None => throw (JsError "Channel key not available")
     | Some channelKey =>
         let fileData := File.bytes file in
         let metadata :=
           JSON_stringify_metadata (File.name file) (File.type file) (File.size file) in
         text <- liftR (String_fromCharCode_apply (map byte_to_Z fileData)) ;;
         e <- encryptWithSymmetricKey text channelKey ;;
         ret {| EncryptedFile.encryptedData := ciphertext e;
                EncryptedFile.iv := iv e;
                EncryptedFile.metadata := metadata |}
     end)
    (fun error => console_error ;;; throw error).

(** Decrypt a file from a channel. *)
Definition decryptFile (encryptedData : jsstring) (iv : jsstring) (metadata : jsstring)
    (channelId : jsstring) : M Blob.t :=
  try_catch
    (channelKey <- getChannelKey channelId ;;
     match channelKey with
     | None => throw (JsError "Channel key not available")
     | Some channelKey =>
         decryptedData <- liftR (decryptWithSymmetricKey encryptedData iv channelKey) ;;
         type <- liftR (JSON_parse_type metadata) ;;
         let binaryData :=
           for_upto (length decryptedData)
             (fun i binaryData => <[i := byte_of_Z (charCodeAt decryptedData i)]> binaryData)
             (replicate (length decryptedData) x00) in
         ret {| Blob.bytes := binaryData; Blob.type := Blob_type type |}
     end)
    (fun error => console_error ;;; throw error).

End Files.

(** ** The identity provider ([src/contexts/AuthContext.tsx])

    [setItem] is taken not to exceed the quota of [localStorage]. The text
    that [Math.random().toString(36).substring(2, 9)] evaluates to is an
    argument of [login] and [signUp]. *)

Section AuthContext.

Context `{W : WebCrypto} `{P : @Platform W}.

Definition set_localStorage (items : gmap jsstring jsstring) (w : World) : World :=
  {| rng := rng w; now := now w; authState := authState w;
     localStorage := items; storageAdapter := storageAdapter w;
     isInitialized := isInitialized w; channelKeysCache := channelKeysCache w;
     messages := messages w; currentChannelId := currentChannelId w |}.

Definition localStorage_getItem (key : jsstring) : M (option jsstring) :=
  gets (fun w => localStorage w !! key).

Definition localStorage_setItem (key value : jsstring) : M unit :=
  modify (fun w => set_localStorage (<[key := value]> (localStorage w)) w).

Definition localStorage_removeItem (key : jsstring) : M unit :=
  modify (fun w => set_localStorage (delete key (localStorage w)) w).

Definition setAuthState (a : AuthState) : M unit := modify (set_authState a).

(** [{ user: null, isAuthenticated: false, isLoading: false }], with or
    without an [error]. *)
Definition signedOut : AuthState := {| user := None; privateKeyJwk := None |}.

(** [email.split('@')[0]] *)
Fixpoint before_at (email : jsstring) : jsstring :=
  match email with
  | [] => []
  | c :: rest => if c =? 64 then [] else c :: before_at rest
  end.

(** The effect run when the provider is mounted. *)
Definition checkAuthState : M unit :=
  try_catch
    (savedUser <- localStorage_getItem (js "user") ;;
     savedPrivateKey <- localStorage_getItem (js "privateKey") ;;
     match truthy savedUser with
     | Some savedUser =>
         u <- liftR (result_of_option SyntaxError (JSON_parse_User savedUser)) ;;
         privateKeyJwk <-
           match truthy savedPrivateKey with
           | Some savedPrivateKey =>
               jwk <- liftR (result_of_option SyntaxError (JSON_parse savedPrivateKey)) ;;
               ret (Some jwk)
           | None => ret None
           end ;;
         setAuthState {| user := Some u; privateKeyJwk := privateKeyJwk |}
     | None => setAuthState signedOut
     end)
    (fun error => console_error ;;; setAuthState signedOut).

(** Login function. *)
Definition login (random : jsstring) (email password : jsstring) : M bool :=
  try_catch
    (let mockUser :=
       {| User.id := js "user-" ++ random;
          User.name := before_at email;
          User.email := email;
          User.publicKey := None |} in
     lastSeen <- gets now ;;
     storedPrivateKey <- localStorage_getItem (js "privateKey-" ++ User.id mockUser) ;;
     keyed <-
       match truthy storedPrivateKey with
       | Some storedPrivateKey => ret (storedPrivateKey, mockUser)
       | None =>
           keys <- generateKeyPair ;;
           privateKeyJwk <- liftR (exportKey (privateKey keys)) ;;
           publicKeyJwk <- liftR (exportKey (publicKey keys)) ;;
           localStorage_setItem (js "privateKey-" ++ User.id mockUser)
             (JSON_stringify privateKeyJwk) ;;;
           ret (JSON_stringify privateKeyJwk,
                {| User.id := User.id mockUser;
                   User.name := User.name mockUser;
                   User.email := User.email mockUser;
                   User.publicKey := Some (JSON_stringify publicKeyJwk) |})
       end ;;
     let '(privateKeyText, mockUser) := keyed in
     localStorage_setItem (js "user") (JSON_stringify_User mockUser lastSeen) ;;;
     localStorage_setItem (js "privateKey") privateKeyText ;;;
     privateKeyJwk <- liftR (result_of_option SyntaxError (JSON_parse privateKeyText)) ;;
     setAuthState {| user := Some mockUser; privateKeyJwk := Some privateKeyJwk |} ;;;
     ret true)
    (fun error => console_error ;;; setAuthState signedOut ;;; ret false).

(** Sign-up function. *)
Definition signUp (random : jsstring) (name email password : jsstring) : M bool :=
  try_catch
    (keys <- generateKeyPair ;;
     privateKeyJwk <- liftR (exportKey (privateKey keys)) ;;
     publicKeyJwk <- liftR (exportKey (publicKey keys)) ;;
     lastSeen <- gets now ;;
     let newUser :=
       {| User.id := js "user-" ++ random;
          User.name := name;
          User.email := email;
          User.publicKey := Some (JSON_stringify publicKeyJwk) |} in
     localStorage_setItem (js "user") (JSON_stringify_User newUser lastSeen) ;;;
     localStorage_setItem (js "privateKey") (JSON_stringify privateKeyJwk) ;;;
     localStorage_setItem (js "privateKey-" ++ User.id newUser)
       (JSON_stringify privateKeyJwk) ;;;
     setAuthState {| user := Some newUser; privateKeyJwk := Some privateKeyJwk |} ;;;
     ret true)
    (fun error => console_error ;;; setAuthState signedOut ;;; ret false).

(** Logout function. The private keys stay in [localStorage]. *)
Definition logout : M unit :=
  localStorage_removeItem (js "user") ;;;
  setAuthState signedOut.

(** Protected route component ([src/App.tsx]): [true] when it renders its
    children, [false] when it redirects to the login page. *)
Definition ProtectedRoute (w : World) : bool :=
  match localStorage w !! js "user" with
  | Some _ => true
  | None => false
  end.

End AuthContext.

(** ** Object names of the Amazon S3 adapter
       ([src/lib/storage/amazon-s3-adapter.ts]) *)

(** [path.endsWith('/')] *)
Definition endsWith_slash (path : jsstring) : bool :=
  match last path with
  | Some c => c =? 47
  | None => false
  end.

(** [path.endsWith('/') ? path : `${path}/`] *)
Definition with_slash (path : jsstring) : jsstring :=
  if endsWith_slash path then path else path ++ js "/".

(** Helper method to construct full S3 key path: no separator follows the
    root prefix. *)
Definition getFullPath (rootPrefix : option jsstring) (key : jsstring)
    (path : option jsstring) : jsstring :=
  let fullPath := default [] (truthy rootPrefix) in
  let fullPath :=
    match truthy path with
    | Some path => fullPath ++ with_slash path
    | None => fullPath
    end in
  fullPath ++ key.

(** ** Sequences of calls to the channel key manager *)

Section Calls.

Context `{W : WebCrypto}.

Inductive KeyManagerCall : Type :=
  | CallGenerateChannelKey (channelId : jsstring)
  | CallGetChannelKey (channelId : jsstring)
  | CallHasChannelKey (channelId : jsstring)
  | CallShareChannelKey (channelId : jsstring) (recipientPublicKeyJwk : JsonWebKey)
  | CallImportSharedChannelKey (encryptedKey : jsstring) (channelId : jsstring).

(** The state after a call, whatever it returned or threw. *)
Definition call (c : KeyManagerCall) (w : World) : World :=
  match c with
  | CallGenerateChannelKey channelId => (generateChannelKey channelId w).2
  | CallGetChannelKey channelId => (getChannelKey channelId w).2
  | CallHasChannelKey channelId => (hasChannelKey channelId w).2
  | CallShareChannelKey channelId jwk => (shareChannelKey channelId jwk w).2
  | CallImportSharedChannelKey encryptedKey channelId =>
      (importSharedChannelKey encryptedKey channelId w).2
  end.

Definition run_calls (cs : list KeyManagerCall) (w : World) : World :=
  fold_left (fun w c => call c w) cs w.

(** What the storage adapter of a process holds at a path and key. *)
Definition stored (w : World) (path key : jsstring) : option Json :=
  match storageAdapter w with
  | Some blobs => blobs !! (path, key)
  | None => None
  end.

End Calls.

(** ** Vocabulary of the properties *)

Section Vocabulary.
Context `{W : WebCrypto}.

(** The path and key of a Key Record. *)
Definition key_record_path (channelId : jsstring) : jsstring :=
  StoragePaths.ENCRYPTION ++ js "/" ++ channelId.

Definition key_record_key (userId : jsstring) : jsstring :=
  js "key-" ++ userId ++ js ".json".

(** The cache-miss path of [getChannelKey] as a function of the state it
    reads: the key it would put into the cache, or the exception it
    catches. *)
Definition loadChannelKey (channelId : jsstring) (w : World) : result CryptoKey :=
  result_bind (getPrivateKey w).1 (fun privateKeyJwk =>
  match privateKeyJwk with
  | None => Throw (JsError "Private key not available")
  | Some privateKeyJwk =>
      result_bind (importKey privateKeyJwk true) (fun privateKey =>
      result_bind
        (retrieveData (key_record_key (user_id_text (user (authState w))))
           (key_record_path channelId) w).1 (fun data =>
      result_bind (JSON_parse_EncryptionKeyReference data) (fun reference =>
      result_bind
        (decryptWithPrivateKey (EncryptionKeyReference.encryptedKey reference)
           privateKey) (fun decryptedKeyJwk =>
      result_bind (result_of_option SyntaxError (JSON_parse decryptedKeyJwk))
        (fun jwk => importSymmetricKey jwk)))))
  end).

(** The states of a process that differ at most in the random source, the
    key cache and the message list. *)
Definition same_store (w w' : World) : Prop :=
  authState w' = authState w
  /\ localStorage w' = localStorage w
  /\ storageAdapter w' = storageAdapter w
  /\ isInitialized w' = isInitialized w
  /\ now w' = now w
  /\ messages w' = messages w
  /\ currentChannelId w' = currentChannelId w.

(** The Key Record that [generateChannelKey] and [importSharedChannelKey]
    build for a user and a channel. *)
Definition keyReference_for (u : User.t) (channelId encryptedKey : jsstring)
    (createdAt : Z) : EncryptionKeyReference.t :=
  {| EncryptionKeyReference.id := js "key-" ++ channelId ++ js "-" ++ User.id u;
     EncryptionKeyReference.ownerUserId := User.id u;
     EncryptionKeyReference.encryptedKey := encryptedKey;
     EncryptionKeyReference.keyType := EncryptionKeyReference.channel;
     EncryptionKeyReference.associatedId := channelId;
     EncryptionKeyReference.createdAt := createdAt |}.

(** The public key of a user, as [generateChannelKey] resolves it. *)
Definition user_public_key (u : User.t) : option RsaPublic :=
  match truthy (User.publicKey u) with
  | Some text =>
      match JSON_parse text with
      | Some jwk => import_rsa_public jwk
      | None => None
      end
  | None => None
  end.

(** The private key of the current user, as the key manager resolves it. *)
Definition local_private_key (w : World) : option RsaPrivate :=
  match (getPrivateKey w).1 with
  | Ok (Some jwk) => import_rsa_private jwk
  | _ => None
  end.

(** [w'] is [w] after one write to the storage adapter. *)
Definition store_written (w w' : World) (path key : jsstring) (d : Json) : Prop :=
  authState w' = authState w
  /\ localStorage w' = localStorage w
  /\ isInitialized w' = isInitialized w
  /\ now w' = now w
  /\ messages w' = messages w
  /\ currentChannelId w' = currentChannelId w
  /\ exists blobs,
       storageAdapter w = Some blobs
       /\ storageAdapter w' = Some (<[(path, key) := d]> blobs).

(** A text that is the base64 form of an RSA-OAEP ciphertext: one made
    under the public key of the user, or one that the private key of the
    current user decrypts. It is not the JSON text of a symmetric key. *)
Definition wrapped_for (w : World) (u : User.t) (encryptedKey : jsstring) : Prop :=
  (exists c,
     base64ToArrayBuffer encryptedKey = Ok c
     /\ ((exists pk pt g,
            user_public_key u = Some pk /\ (rsa_oaep_encrypt pk pt g).1 = Some c)
         \/ (exists sk pt,
               local_private_key w = Some sk /\ rsa_oaep_decrypt sk c = Some pt)))
  /\ forall k, encryptedKey <> JSON_stringify (export_aes k).

(** A Key Record of the current user, at its path and key, whose
    [encryptedKey] is wrapped. *)
Definition wrapped_key_record (w : World) (path key : jsstring) (d : Json) : Prop :=
  exists u channelId encryptedKey createdAt,
    user (authState w) = Some u
    /\ path = key_record_path channelId
    /\ key = key_record_key (User.id u)
    /\ d = JsonKeyReference (keyReference_for u channelId encryptedKey createdAt)
    /\ wrapped_for w u encryptedKey.

(** What a call may have done to the state: nothing to the stored data, or
    one write of a wrapped Key Record. *)
Definition call_effect (w w' : World) : Prop :=
  same_store w w'
  \/ exists path key d, store_written w w' path key d /\ wrapped_key_record w path key d.

(** The states of a process that differ at most in the random source, the
    stored data and the key cache. *)
Definition same_session (w w' : World) : Prop :=
  authState w' = authState w
  /\ localStorage w' = localStorage w
  /\ isInitialized w' = isInitialized w
  /\ now w' = now w
  /\ messages w' = messages w
  /\ currentChannelId w' = currentChannelId w.

(** The stored data after some calls: what was there before, or wrapped Key
    Records of the current user. *)
Definition store_inv (w w' : World) : Prop :=
  same_session w w'
  /\ forall path key d,
       stored w' path key = Some d ->
       stored w path key = Some d \/ wrapped_key_record w path key d.

(** A user who is signed in with the keys of a generated pair and whose
    storage is configured. *)
Definition ready (w : World) (u : User.t) (pk : RsaPublic) (sk : RsaPrivate) : Prop :=
  user (authState w) = Some u
  /\ user_public_key u = Some pk
  /\ local_private_key w = Some sk
  /\ (exists g g', rsa_generateKey 2048 g = ((pk, sk), g'))
  /\ (exists blobs, storageAdapter w = Some blobs)
  /\ isInitialized w = true.

(** The Key Record of the current user for a channel, as [getChannelKey]
    addresses it. *)
Definition current_key_record (w : World) (channelId : jsstring) : option Json :=
  stored w (key_record_path channelId)
    (key_record_key (user_id_text (user (authState w)))).

(** The three causes the specification tells apart. *)
Definition no_key_record (w : World) (channelId : jsstring) : Prop :=
  current_key_record w channelId = None.

Definition identity_unavailable (w : World) : Prop :=
  local_private_key w = None.

Definition unwrap_fails (w : World) (channelId : jsstring) : Prop :=
  exists reference sk,
    current_key_record w channelId = Some (JsonKeyReference reference)
    /\ local_private_key w = Some sk
    /\ is_ok (decryptWithPrivateKey (EncryptionKeyReference.encryptedKey reference)
                (RsaPrivateKey sk)) = false.

(** How [fetchMessages] loads one stored message in a state: a message
    without [iv] (or with an empty one) is kept, the content of another is
    replaced by the decrypted text, or by the placeholder when
    [decryptMessage] throws. *)
Definition loaded_one (channelId : jsstring) (w : World) (m m' : Message.t)
    (w' : World) : Prop :=
  match truthy (Message.iv m) with
  | None => m' = m /\ w' = w
  | Some iv =>
      match decryptMessage (Message.content m) iv channelId w with
      | (Ok text, w1) => m' = Message.with_content m text /\ w' = w1
      | (Throw _, w1) => m' = Message.with_content m cannot_decrypt /\ w' = w1
      end
  end.

(** A batch is loaded message by message. *)
Inductive loaded_batch (channelId : jsstring)
    : World -> list Message.t -> list Message.t -> World -> Prop :=
  | loaded_nil w : loaded_batch channelId w [] [] w
  | loaded_cons w m m' w1 ms ms' w2 :
      loaded_one channelId w m m' w1 ->
      loaded_batch channelId w1 ms ms' w2 ->
      loaded_batch channelId w (m :: ms) (m' :: ms') w2.

(** The first phase of [fetchMessages]: list, retrieve and parse. *)
Definition retrieveMessages (channelId : jsstring) : M (list Message.t) :=
  messageKeys <- listData (StoragePaths.MESSAGES ++ js "/" ++ channelId) ;;
  Promise_all_map (retrieveMessage channelId) messageKeys.

(** The record of a message in the store carries the ciphertext [c] next to
    the nonce [r0]; when [c] was made with another nonce, decryption with
    the stored one throws and loading gives the placeholder. *)
Definition stale_record (w : World) (channelId messageId : jsstring)
    (c r0 r1 : list byte) : Prop :=
  exists record,
    stored w (StoragePaths.MESSAGES ++ js "/" ++ channelId) (messageId ++ js ".json")
    = Some (JsonMessage record)
    /\ arrayBufferToBase64 c = Ok (Message.content record)
    /\ (exists iv, arrayBufferToBase64 r0 = Ok iv /\ Message.iv record = Some iv
          /\ (r1 <> r0 ->
              decryptMessage (Message.content record) iv channelId w
              = (Throw (DOMException "OperationError"), w)
              /\ decryptLoaded channelId record w
                 = (Ok (Message.with_content record cannot_decrypt), w))).

End Vocabulary.

(** ** A reference instance of the interface

    Stand-ins for the ciphers that satisfy the laws of [WebCrypto]; they
    show that the laws are consistent and let the program be evaluated on
    concrete states. They are not ciphers. *)

Global Instance byte_eq_dec : EqDecision byte := Byte.byte_eq_dec.

Module Reference.

Inductive Jwk : Type :=
  | JwkRsaPublic (n : list byte)
  | JwkRsaPrivate (n : list byte)
  | JwkOct (k : list byte).

Definition hex_digit (n : Z) : Z := if n <? 10 then 48 + n else 87 + n.

Definition hex_value (c : Z) : option Z :=
  if (48 <=? c) && (c <=? 57) then Some (c - 48)
  else if (97 <=? c) && (c <=? 102) then Some (c - 87)
  else None.

Definition hex (bs : list byte) : jsstring :=
  flat_map (fun b => [hex_digit (byte_to_Z b / 16); hex_digit (byte_to_Z b mod 16)]) bs.

Fixpoint unhex (s : jsstring) : option (list byte) :=
  match s with
  | [] => Some []
  | h :: l :: r =>
      match hex_value h, hex_value l, unhex r with
      | Some a, Some b, Some bs => Some (byte_of_Z (a * 16 + b) :: bs)
      | _, _, _ => None
      end
  | _ => None
  end.

(** The text of a key: a brace, a letter for the kind, the bytes in
    hexadecimal. *)
Definition stringify (j : Jwk) : jsstring :=
  match j with
  | JwkRsaPublic n => 123 :: 80 :: hex n
  | JwkRsaPrivate n => 123 :: 83 :: hex n
  | JwkOct k => 123 :: 75 :: hex k
  end.

Definition parse (s : jsstring) : option Jwk :=
  match s with
  | 123 :: t :: r =>
      match unhex r with
      | Some bs =>
          if t =? 80 then Some (JwkRsaPublic bs)
          else if t =? 83 then Some (JwkRsaPrivate bs)
          else if t =? 75 then Some (JwkOct bs)
          else None
      | None => None
      end
  | _ => None
  end.

(** A key pair is a four-byte name, the same for both halves. *)
Definition generate_rsa (modulusLength : Z) (g : Rng) : (list byte * list byte) * Rng :=
  ((rng_take 4 g, rng_take 4 g), rng_drop 4 g).

Definition generate_aes (bits : Z) (g : Rng) : list byte * Rng :=
  (rng_take (Z.to_nat (bits / 8)) g, rng_drop (Z.to_nat (bits / 8)) g).

(** "Encryption": the name of the key, one random byte, the message. *)
Definition encrypt_rsa (pk : list byte) (pt : list byte) (g : Rng)
    : option (list byte) * Rng :=
  (if decide (length pt <= rsa_oaep_max_payload)%nat
   then Some (pk ++ rng_take 1 g ++ pt) else None,
   rng_drop 1 g).

Definition decrypt_rsa (sk : list byte) (c : list byte) : option (list byte) :=
  if decide (take (length sk) c = sk /\ (length sk < length c)%nat)
  then Some (drop (S (length sk)) c)
  else None.

(** "Encryption": the nonce, the key, the message. *)
Definition encrypt_aes (k nonce pt : list byte) : option (list byte) :=
  if decide (length nonce = 12%nat) then Some (nonce ++ k ++ pt) else None.

Definition decrypt_aes (k nonce c : list byte) : option (list byte) :=
  if decide (take (length nonce + length k) c = nonce ++ k)
  then Some (drop (length nonce + length k) c)
  else None.

Definition import_public (j : Jwk) : option (list byte) :=
  match j with JwkRsaPublic n => Some n | _ => None end.

Definition import_private (j : Jwk) : option (list byte) :=
  match j with JwkRsaPrivate n => Some n | _ => None end.

Definition import_oct (j : Jwk) : option (list byte) :=
  match j with JwkOct k => Some k | _ => None end.

End Reference.

(** * Lemmas *)

(** ** Arithmetic on tests *)

Ltac zbool :=
  repeat match goal with
  | H : (_ && _) = true |- _ => apply andb_true_iff in H; destruct H
  | H : (_ && _) = false |- _ => apply andb_false_iff in H; destruct H
  | H : (_ || _) = true |- _ => apply orb_true_iff in H; destruct H
  | H : (_ || _) = false |- _ => apply orb_false_iff in H; destruct H
  | H : negb _ = true |- _ => apply negb_true_iff in H
  | H : negb _ = false |- _ => apply negb_false_iff in H
  | H : (_ <? _) = true |- _ => apply Z.ltb_lt in H
  | H : (_ <? _) = false |- _ => apply Z.ltb_ge in H
  | H : (_ <=? _) = true |- _ => apply Z.leb_le in H
  | H : (_ <=? _) = false |- _ => apply Z.leb_gt in H
  | H : (_ =? _) = true |- _ => apply Z.eqb_eq in H
  | H : (_ =? _) = false |- _ => apply Z.eqb_neq in H
  end.

(** ** Bytes *)

Lemma byte_to_Z_range b : 0 <= byte_to_Z b < 256.
Proof. unfold byte_to_Z. pose proof (Byte.to_N_bounded b). lia. Qed.

Lemma byte_of_to_Z b : byte_of_Z (byte_to_Z b) = b.
Proof.
  unfold byte_of_Z. rewrite Z.mod_small by apply byte_to_Z_range.
  unfold byte_to_Z. rewrite N2Z.id, Byte.of_to_N. reflexivity.
Qed.

Lemma byte_to_of_Z z : 0 <= z < 256 -> byte_to_Z (byte_of_Z z) = z.
Proof.
  intros Hz. unfold byte_of_Z. rewrite Z.mod_small by lia.
  destruct (Byte.of_N (Z.to_N z)) as [b|] eqn:E.
  - apply Byte.to_of_N in E. unfold byte_to_Z. rewrite E. lia.
  - apply Byte.of_N_None_iff in E. lia.
Qed.

Lemma map_byte_of_to bs : map byte_of_Z (map byte_to_Z bs) = bs.
Proof. induction bs as [|b bs IH]; simpl; [done|]. by rewrite byte_of_to_Z, IH. Qed.

Lemma map_byte_to_of zs :
  Forall (fun z => 0 <= z < 256) zs -> map byte_to_Z (map byte_of_Z zs) = zs.
Proof. induction 1 as [|z zs Hz _ IH]; simpl; [done|]. by rewrite byte_to_of_Z, IH. Qed.

Lemma map_byte_to_Z_range bs : Forall (fun z => 0 <= z < 256) (map byte_to_Z bs).
Proof. induction bs; constructor; auto using byte_to_Z_range. Qed.

(** ** [btoa] and [atob] *)

(** Induction over a list three elements at a time. *)
Lemma list_ind3 {A} (P : list A -> Prop) :
  P [] -> (forall a, P [a]) -> (forall a b, P [a; b]) ->
  (forall a b c r, P r -> P (a :: b :: c :: r)) ->
  forall l, P l.
Proof.
  intros H0 H1 H2 H3.
  fix IH 1. intros [|a [|b [|c r]]]; [apply H0|apply H1|apply H2|apply H3, IH].
Qed.

Lemma b64_val_char v : 0 <= v < 64 -> Base64.b64_val (Base64.b64_char v) = Some v.
Proof.
  intros Hv. unfold Base64.b64_val, Base64.b64_char.
  repeat (case_match; zbool; try lia); try (f_equal; lia).
Qed.

Lemma b64_char_not_pad v : 0 <= v < 64 -> Base64.b64_char v <> Base64.pad.
Proof. intros Hv. unfold Base64.b64_char, Base64.pad. repeat case_match; zbool; lia. Qed.

Lemma b64_char_not_ws v : 0 <= v < 64 -> Base64.is_ascii_whitespace (Base64.b64_char v) = false.
Proof.
  intros Hv. unfold Base64.is_ascii_whitespace, Base64.b64_char.
  repeat case_match; zbool; repeat (apply orb_false_iff; split); apply Z.eqb_neq; lia.
Qed.

Lemma sextets_range l :
  Forall (fun z => 0 <= z < 256) l -> Forall (fun v => 0 <= v < 64) (Base64.sextets l).
Proof.
  induction l as [| a | a b | a b c r IH] using list_ind3; intros H; simpl.
  - constructor.
  - inversion_clear H. repeat constructor; zdm.
  - inversion_clear H as [|? ? Ha H']. inversion_clear H'. repeat constructor; zdm.
  - inversion_clear H as [|? ? Ha H']. inversion_clear H' as [|? ? Hb H''].
    inversion_clear H'' as [|? ? Hc Hr]. repeat (constructor; [zdm|]). auto.
Qed.

Lemma unsextets_sextets l :
  Forall (fun z => 0 <= z < 256) l -> Base64.unsextets (Base64.sextets l) = l.
Proof.
  induction l as [| a | a b | a b c r IH] using list_ind3; intros H; simpl.
  - done.
  - inversion_clear H. f_equal. zdm.
  - inversion_clear H as [|? ? Ha H']. inversion_clear H'. f_equal; [zdm|]. f_equal. zdm.
  - inversion_clear H as [|? ? Ha H']. inversion_clear H' as [|? ? Hb H''].
    inversion_clear H'' as [|? ? Hc Hr].
    rewrite IH by done. f_equal; [zdm|]. f_equal; [zdm|]. f_equal. zdm.
Qed.

Lemma length_sextets l :
  (length (Base64.sextets l) + length (Base64.padding (length l)))%nat = (4 * ((length l + 2) / 3))%nat.
Proof.
  induction l as [| a | a b | a b c r IH] using list_ind3; try reflexivity.
  cbn [Base64.sextets length].
  replace (S (S (S (length r)))) with (length r + 1 * 3)%nat by lia.
  unfold Base64.padding in *. rewrite Nat.Div0.mod_add.
  replace (length r + 1 * 3 + 2)%nat with (length r + 2 + 1 * 3)%nat by lia.
  rewrite Nat.div_add by lia. lia.
Qed.

Lemma sextets_length_mod l : Z.of_nat (length (Base64.sextets l)) mod 4 <> 1.
Proof.
  induction l as [| a | a b | a b c r IH] using list_ind3; cbn [Base64.sextets length];
    try (intros H; vm_compute in H; discriminate).
  revert IH. generalize (length (Base64.sextets r)). intros n. zdm.
Qed.

Lemma encode_length_mod l : Z.of_nat (length (Base64.encode l)) mod 4 = 0.
Proof.
  unfold Base64.encode. rewrite length_app, length_map, length_sextets.
  rewrite Nat2Z.inj_mul. zdm.
Qed.

Lemma mapM_val_char vs :
  Forall (fun v => 0 <= v < 64) vs -> mapM Base64.b64_val (map Base64.b64_char vs) = Some vs.
Proof.
  induction 1 as [|v vs Hv _ IH]; [done|].
  cbn. rewrite b64_val_char by done. cbn. rewrite IH. done.
Qed.

Lemma filter_ws_chars vs p :
  Forall (fun v => 0 <= v < 64) vs -> Forall (fun c => c = Base64.pad) p ->
  List.filter (fun c => negb (Base64.is_ascii_whitespace c)) (map Base64.b64_char vs ++ p)
  = map Base64.b64_char vs ++ p.
Proof.
  intros Hvs Hp. apply forallb_filter_id. rewrite forallb_app. apply andb_true_iff. split.
  - apply forallb_forall. intros c Hc. apply in_map_iff in Hc as (v & <- & Hv).
    rewrite Forall_forall in Hvs. rewrite b64_char_not_ws; [done|].
    apply Hvs. by apply list_elem_of_In.
  - apply forallb_forall. intros c Hc. rewrite Forall_forall in Hp.
    rewrite (Hp c) by (by apply list_elem_of_In). reflexivity.
Qed.

Lemma padding_cases n :
  Base64.padding n = [] \/ Base64.padding n = [Base64.pad] \/ Base64.padding n = [Base64.pad; Base64.pad].
Proof. unfold Base64.padding. repeat case_match; auto. Qed.

Lemma strip_padding_encode l :
  Forall (fun z => 0 <= z < 256) l ->
  Base64.strip_padding (Base64.encode l) = map Base64.b64_char (Base64.sextets l).
Proof.
  intros Hl. unfold Base64.strip_padding. rewrite encode_length_mod. cbn [Z.eqb].
  pose proof (sextets_range l Hl) as Hs.
  assert (Hlast : forall p r, rev (map Base64.b64_char (Base64.sextets l)) = p :: r -> p <> Base64.pad).
  { intros p r Hr.
    assert (Hin : In p (map Base64.b64_char (Base64.sextets l))).
    { apply in_rev. rewrite Hr. by left. }
    apply in_map_iff in Hin as (v & <- & Hv). apply b64_char_not_pad.
    rewrite Forall_forall in Hs. apply Hs. by apply list_elem_of_In. }
  unfold Base64.encode.
  destruct (padding_cases (length l)) as [-> | [-> | ->]]; rewrite rev_app_distr; cbn [rev app].
  - rewrite app_nil_r.
    destruct (rev (map Base64.b64_char (Base64.sextets l))) as [|p1 [|p2 r]] eqn:Hr.
    + done.
    + rewrite (proj2 (Z.eqb_neq p1 Base64.pad)) by eauto. done.
    + rewrite (proj2 (Z.eqb_neq p1 Base64.pad)) by eauto. done.
  - destruct (rev (map Base64.b64_char (Base64.sextets l))) as [|p2 r] eqn:Hr; cbn.
    + apply (f_equal (@rev Z)) in Hr. rewrite rev_involutive in Hr. by rewrite Hr.
    + rewrite (proj2 (Z.eqb_neq p2 Base64.pad)) by eauto.
      change (rev r ++ [p2]) with (rev (p2 :: r)). rewrite <- Hr. apply rev_involutive.
  - cbn. apply rev_involutive.
Qed.

Theorem atob_encode l :
  Forall (fun z => 0 <= z < 256) l -> Base64.atob (Base64.encode l) = Ok l.
Proof.
  intros Hl. unfold Base64.atob.
  pose proof (sextets_range l Hl) as Hs.
  assert (Hf : List.filter (fun c => negb (Base64.is_ascii_whitespace c)) (Base64.encode l) = Base64.encode l).
  { unfold Base64.encode. apply filter_ws_chars; [done|].
    destruct (padding_cases (length l)) as [-> | [-> | ->]]; repeat constructor. }
  rewrite Hf, strip_padding_encode by done.
  rewrite length_map. rewrite (proj2 (Z.eqb_neq _ 1)) by apply sextets_length_mod.
  rewrite mapM_val_char by done. by rewrite unsextets_sextets.
Qed.

Lemma btoa_bytes l :
  Forall (fun z => 0 <= z < 256) l -> Base64.btoa l = Ok (Base64.encode l).
Proof.
  intros Hl. unfold Base64.btoa.
  replace (forallb _ l) with true; [done|]. symmetry. apply forallb_forall.
  intros c Hc. rewrite Forall_forall in Hl. specialize (Hl c (proj2 (list_elem_of_In _ _) Hc)).
  apply andb_true_iff. split; [apply Z.leb_le | apply Z.leb_le]; lia.
Qed.

(** ** [TextEncoder] and [TextDecoder] *)


(** Case analysis on every test of the goal, closing the impossible cases
    by arithmetic. *)
Ltac split_ifs :=
  repeat match goal with
  | |- context [if ?b then _ else _] =>
      let E := fresh "E" in destruct b eqn:E; zbool; try (exfalso; zdm)
  end.

Lemma start_1 b : 0 <= b <= 0x7F -> Utf8.start b = ([b], Utf8.d_init).
Proof. intros Hb. unfold Utf8.start. split_ifs. done. Qed.

Lemma start_2 a :
  2 <= a < 32 -> Utf8.start (0xC0 + a) = ([], Utf8.Build_dstate a 1 0x80 0xBF).
Proof.
  intros Ha. unfold Utf8.start. split_ifs. do 2 f_equal. zdm.
Qed.

Lemma eqb_shift k a b : (k + a =? k + b) = (a =? b).
Proof. destruct (Z.eqb_spec a b), (Z.eqb_spec (k + a) (k + b)); try done; lia. Qed.

Lemma start_3 a :
  0 <= a < 16 ->
  Utf8.start (0xE0 + a)
  = ([], Utf8.Build_dstate a 2 (if a =? 0 then 0xA0 else 0x80) (if a =? 13 then 0x9F else 0xBF)).
Proof.
  intros Ha. unfold Utf8.start.
  assert (H1 : (0xE0 + a <=? 0x7F) = false) by (apply Z.leb_gt; lia).
  assert (H2 : ((0xC2 <=? 0xE0 + a) && (0xE0 + a <=? 0xDF)) = false)
    by (apply andb_false_iff; right; apply Z.leb_gt; lia).
  assert (H3 : ((0xE0 <=? 0xE0 + a) && (0xE0 + a <=? 0xEF)) = true)
    by (apply andb_true_iff; split; apply Z.leb_le; lia).
  rewrite H1, H2, H3. replace ((0xE0 + a) mod 16) with a by zdm.
  change 0xED with (0xE0 + 13). change (0xE0 + a =? 0xE0) with (0xE0 + a =? 0xE0 + 0).
  by rewrite !eqb_shift.
Qed.

Lemma start_4 a :
  0 <= a <= 4 ->
  Utf8.start (0xF0 + a)
  = ([], Utf8.Build_dstate a 3 (if a =? 0 then 0x90 else 0x80) (if a =? 4 then 0x8F else 0xBF)).
Proof.
  intros Ha. unfold Utf8.start.
  assert (H1 : (0xF0 + a <=? 0x7F) = false) by (apply Z.leb_gt; lia).
  assert (H2 : ((0xC2 <=? 0xF0 + a) && (0xF0 + a <=? 0xDF)) = false)
    by (apply andb_false_iff; right; apply Z.leb_gt; lia).
  assert (H3 : ((0xE0 <=? 0xF0 + a) && (0xF0 + a <=? 0xEF)) = false)
    by (apply andb_false_iff; right; apply Z.leb_gt; lia).
  assert (H4 : ((0xF0 <=? 0xF0 + a) && (0xF0 + a <=? 0xF4)) = true)
    by (apply andb_true_iff; split; apply Z.leb_le; lia).
  rewrite H1, H2, H3, H4. replace ((0xF0 + a) mod 8) with a by zdm.
  change 0xF4 with (0xF0 + 4). change (0xF0 + a =? 0xF0) with (0xF0 + a =? 0xF0 + 0).
  by rewrite !eqb_shift.
Qed.

Lemma step_cont cp n lo hi x :
  lo <= 0x80 + x <= hi -> 0 <= x < 64 ->
  Utf8.step (Utf8.Build_dstate cp (S n) lo hi) (0x80 + x)
  = match n with
    | O => ([cp * 64 + x], Utf8.d_init)
    | S _ => ([], Utf8.Build_dstate (cp * 64 + x) n 0x80 0xBF)
    end.
Proof.
  intros Hb Hx. unfold Utf8.step. cbn [Utf8.d_need Utf8.d_lower Utf8.d_upper Utf8.d_cp].
  destruct ((lo <=? 0x80 + x) && (0x80 + x <=? hi)) eqn:E; zbool; try lia.
  replace ((0x80 + x) mod 64) with x by zdm. done.
Qed.

Lemma run_cons st b r :
  Utf8.run st (b :: r) = (let '(out, st') := Utf8.step st b in out ++ Utf8.run st' r).
Proof. done. Qed.

Lemma step_init b : Utf8.step Utf8.d_init b = Utf8.start b.
Proof. done. Qed.

Lemma run_encode_scalar c rest :
  Utf8.scalar_value c -> Utf8.run Utf8.d_init (Utf8.encode_scalar c ++ rest) = c :: Utf8.run Utf8.d_init rest.
Proof.
  intros [Hc Hs]. unfold Utf8.encode_scalar.
  destruct (c <? 0x80) eqn:E1; [|destruct (c <? 0x800) eqn:E2; [|destruct (c <? 0x10000) eqn:E3]];
    zbool; cbn [app]; rewrite run_cons, step_init.
  - rewrite start_1 by lia. done.
  - rewrite start_2 by zdm. rewrite run_cons, step_cont by zdm.
    cbn [app]. f_equal. zdm.
  - assert (Ha : 0 <= c / 4096 < 16) by zdm.
    assert (Hb : 0 <= (c / 64) mod 64 < 64) by zdm.
    assert (Hd : 0 <= c mod 64 < 64) by zdm.
    assert (Hcd : c = (c / 4096) * 4096 + ((c / 64) mod 64) * 64 + c mod 64) by zdm.
    revert Ha Hb Hd Hcd.
    generalize (c / 4096) as a, ((c / 64) mod 64) as b, (c mod 64) as d.
    intros a b d Ha Hb Hd Hcd.
    rewrite start_3 by done. rewrite run_cons, step_cont; [|split_ifs; lia|done].
    rewrite run_cons, step_cont by lia. cbn [app]. f_equal. lia.
  - assert (Ha : 0 <= c / 262144 <= 4) by zdm.
    assert (Hb : 0 <= (c / 4096) mod 64 < 64) by zdm.
    assert (Hb' : 0 <= (c / 64) mod 64 < 64) by zdm.
    assert (Hd : 0 <= c mod 64 < 64) by zdm.
    assert (Hcd : c = (c / 262144) * 262144 + ((c / 4096) mod 64) * 4096
                      + ((c / 64) mod 64) * 64 + c mod 64) by zdm.
    revert Ha Hb Hb' Hd Hcd.
    generalize (c / 262144) as a, ((c / 4096) mod 64) as b, ((c / 64) mod 64) as b',
      (c mod 64) as d.
    intros a b b' d Ha Hb Hb' Hd Hcd.
    rewrite start_4 by done. rewrite run_cons, step_cont; [|split_ifs; lia|done].
    rewrite run_cons, step_cont by lia. rewrite run_cons, step_cont by lia.
    cbn [app]. f_equal. lia.
Qed.

Lemma encode_scalar_range c :
  Utf8.scalar_value c -> Forall (fun z => 0 <= z < 256) (Utf8.encode_scalar c).
Proof.
  intros [Hc Hs]. unfold Utf8.encode_scalar. split_ifs; repeat constructor; zdm.
Qed.

Lemma strip_bom_encode_scalar c rest :
  Utf8.scalar_value c -> c <> Utf8.bom ->
  Utf8.strip_bom (Utf8.encode_scalar c ++ rest) = Utf8.encode_scalar c ++ rest.
Proof.
  intros [Hc Hs] Hb. unfold Utf8.bom in Hb. unfold Utf8.encode_scalar, Utf8.strip_bom.
  split_ifs; cbn [app]; repeat case_match; zbool; try done; exfalso; zdm.
Qed.

Lemma units_scalars s :
  Utf8.well_formed s = true ->
  flat_map Utf8.units (Utf8.scalars s) = s /\ Forall Utf8.scalar_value (Utf8.scalars s).
Proof.
  remember (length s) as n eqn:Hn. revert s Hn.
  induction n as [n IH] using lt_wf_ind. intros s Hn Hwf.
  destruct s as [|c r]; [by split; [|constructor]|].
  cbn [Utf8.well_formed Utf8.scalars] in *.
  destruct (Utf8.is_lead c) eqn:Hl.
  - destruct r as [|d r']; [done|]. apply andb_true_iff in Hwf as [Ht Hwf].
    rewrite Ht. destruct (IH (length r')) with (s := r') as [IH1 IH2]; [cbn in Hn; lia|done|done|].
    unfold Utf8.is_lead, Utf8.is_trail in *. zbool. split.
    + cbn [flat_map]. rewrite IH1. unfold Utf8.units. split_ifs. cbn. f_equal; [zdm|]. f_equal. zdm.
    + constructor; [|done]. unfold Utf8.scalar_value. lia.
  - destruct (Utf8.is_trail c) eqn:Ht; [done|]. cbn [negb andb] in Hwf.
    apply andb_true_iff in Hwf as [Hwf Hr]. zbool.
    destruct (IH (length r)) with (s := r) as [IH1 IH2]; [cbn in Hn; lia|done|done|].
    unfold Utf8.is_lead, Utf8.is_trail in *. split.
    + cbn [flat_map]. rewrite IH1. unfold Utf8.units. split_ifs; done.
    + constructor; [|done]. unfold Utf8.scalar_value. zbool; lia.
Qed.

Lemma run_encode cs :
  Forall Utf8.scalar_value cs -> Utf8.run Utf8.d_init (flat_map Utf8.encode_scalar cs) = cs.
Proof.
  induction 1 as [|c cs Hc _ IH]; [done|].
  cbn [flat_map]. by rewrite run_encode_scalar, IH.
Qed.

Lemma encode_range s :
  Utf8.well_formed s = true -> Forall (fun z => 0 <= z < 256) (Utf8.encode s).
Proof.
  intros Hwf. destruct (units_scalars s Hwf) as [_ Hs]. unfold Utf8.encode.
  induction Hs as [|c cs Hc _ IH]; [constructor|].
  cbn [flat_map]. apply Forall_app. split; [by apply encode_scalar_range|done].
Qed.

Lemma scalars_head_not_bom s :
  Utf8.well_formed s = true -> Utf8.starts_with_bom s = false ->
  match Utf8.scalars s with c :: _ => c <> Utf8.bom | [] => True end.
Proof.
  destruct s as [|c r]; [done|]. cbn [Utf8.well_formed Utf8.scalars Utf8.starts_with_bom].
  intros Hwf Hb. unfold Utf8.bom in *. zbool.
  destruct (Utf8.is_lead c) eqn:Hl.
  - destruct r as [|d r']; [done|]. apply andb_true_iff in Hwf as [Ht _]. rewrite Ht.
    unfold Utf8.is_lead, Utf8.is_trail in *. zbool. lia.
  - destruct (Utf8.is_trail c); [done|]. done.
Qed.

Theorem decode_encode s :
  Utf8.well_formed s = true -> Utf8.starts_with_bom s = false ->
  Utf8.decode (Utf8.encode s) = s.
Proof.
  intros Hwf Hb. destruct (units_scalars s Hwf) as [Hu Hs].
  pose proof (scalars_head_not_bom s Hwf Hb) as Hh.
  unfold Utf8.decode, Utf8.encode.
  assert (Hsb : Utf8.strip_bom (flat_map Utf8.encode_scalar (Utf8.scalars s))
                = flat_map Utf8.encode_scalar (Utf8.scalars s)).
  { destruct (Utf8.scalars s) as [|c cs]; [done|]. cbn [flat_map].
    apply strip_bom_encode_scalar; [by inversion Hs|done]. }
  by rewrite Hsb, run_encode.
Qed.

Theorem TextDecoder_TextEncoder s :
  Utf8.well_formed s = true -> Utf8.starts_with_bom s = false ->
  TextDecoder_decode (TextEncoder_encode s) = s.
Proof.
  intros Hwf Hb. unfold TextDecoder_decode, TextEncoder_encode.
  rewrite map_byte_to_of by (by apply encode_range). by apply decode_encode.
Qed.

(** ** Loops *)

Lemma for_upto_S {S : Type} n (body : nat -> S -> S) s :
  for_upto (Datatypes.S n) body s = body n (for_upto n body s).
Proof. unfold for_upto. rewrite seq_S, fold_left_app. reflexivity. Qed.

Lemma for_upto_append {A B} (f : A -> B) (l : list A) (d : A) n :
  (n <= length l)%nat ->
  for_upto n (fun i acc => acc ++ [f (nth i l d)]) [] = map f (take n l).
Proof.
  induction n as [|n IH]; intros Hn.
  - reflexivity.
  - rewrite for_upto_S, IH by lia.
    destruct (lookup_lt_is_Some_2 l n ltac:(lia)) as [x Hx].
    rewrite (take_S_r _ _ x Hx), map_app. cbn.
    by rewrite (nth_lookup_Some _ _ _ _ Hx).
Qed.

Lemma for_upto_insert {A B} (f : A -> B) (l : list A) (d : A) (init : list B) n :
  length init = length l -> (n <= length l)%nat ->
  for_upto n (fun i acc => <[i := f (nth i l d)]> acc) init
  = map f (take n l) ++ drop n init.
Proof.
  intros Hlen. induction n as [|n IH]; intros Hn.
  - reflexivity.
  - rewrite for_upto_S, IH by lia.
    destruct (lookup_lt_is_Some_2 l n ltac:(lia)) as [x Hx].
    destruct (lookup_lt_is_Some_2 init n ltac:(lia)) as [y Hy].
    rewrite (take_S_r _ _ x Hx), map_app. cbn.
    rewrite (nth_lookup_Some _ _ _ _ Hx).
    rewrite (drop_S _ _ _ Hy).
    rewrite insert_app_r_alt by (rewrite length_map, length_take; lia).
    rewrite length_map, length_take. replace (n - n `min` length l)%nat with 0%nat by lia.
    cbn. by rewrite <- app_assoc.
Qed.

(** ** Buffers and base64 text *)

Section CryptoLemmas.
Context `{W : WebCrypto}.

Lemma arrayBufferToBase64_eq buffer :
  arrayBufferToBase64 buffer = Ok (Base64.encode (map byte_to_Z buffer)).
Proof.
  unfold arrayBufferToBase64.
  rewrite (for_upto_append (fun b => String_fromCharCode (byte_to_Z b))) by lia.
  rewrite firstn_all.
  assert (Heq : map (fun b => String_fromCharCode (byte_to_Z b)) buffer = map byte_to_Z buffer).
  { apply map_ext. intros b. unfold String_fromCharCode.
    pose proof (byte_to_Z_range b). apply Z.mod_small. lia. }
  rewrite Heq. apply btoa_bytes, map_byte_to_Z_range.
Qed.

Lemma base64ToArrayBuffer_eq base64 :
  base64ToArrayBuffer base64
  = result_bind (Base64.atob base64) (fun s => Ok (map byte_of_Z s)).
Proof.
  unfold base64ToArrayBuffer. destruct (Base64.atob base64) as [s|e]; [|done].
  cbn. f_equal. unfold charCodeAt.
  rewrite (for_upto_insert byte_of_Z) by (by rewrite ?length_replicate).
  rewrite firstn_all, drop_ge by (rewrite length_replicate; lia).
  apply app_nil_r.
Qed.

Lemma base64ToArrayBuffer_encode buffer :
  base64ToArrayBuffer (Base64.encode (map byte_to_Z buffer)) = Ok buffer.
Proof.
  rewrite base64ToArrayBuffer_eq, atob_encode by apply map_byte_to_Z_range.
  cbn. by rewrite map_byte_of_to.
Qed.

Lemma arrayBufferToBase64_inj b1 b2 :
  arrayBufferToBase64 b1 = arrayBufferToBase64 b2 -> b1 = b2.
Proof.
  rewrite !arrayBufferToBase64_eq. intros [= H].
  pose proof (base64ToArrayBuffer_encode b1) as H1.
  rewrite H, base64ToArrayBuffer_encode in H1. congruence.
Qed.
End CryptoLemmas.

(** ** The reference instance satisfies the laws *)


Lemma hex_value_digit n : 0 <= n < 16 -> Reference.hex_value (Reference.hex_digit n) = Some n.
Proof.
  intros Hn. unfold Reference.hex_value, Reference.hex_digit.
  repeat (case_match; zbool; try lia); try (f_equal; lia).
Qed.

Lemma unhex_hex bs : Reference.unhex (Reference.hex bs) = Some bs.
Proof.
  induction bs as [|b bs IH]; [done|].
  pose proof (byte_to_Z_range b) as Hb.
  cbn [Reference.hex flat_map app Reference.unhex]. fold (Reference.hex bs).
  rewrite !hex_value_digit, IH by zdm.
  do 2 f_equal. rewrite <- (byte_of_to_Z b) at 3. f_equal. zdm.
Qed.

Lemma parse_stringify j : Reference.parse (Reference.stringify j) = Some j.
Proof. destruct j; cbn [Reference.stringify Reference.parse]; by rewrite unhex_hex. Qed.

Lemma hex_digit_ascii n : 0 <= n < 16 -> 0 <= Reference.hex_digit n < 128.
Proof. intros Hn. unfold Reference.hex_digit. case_match; lia. Qed.

Lemma hex_ascii bs : Forall (fun c => 0 <= c < 128) (Reference.hex bs).
Proof.
  induction bs as [|b bs IH]; [constructor|].
  pose proof (byte_to_Z_range b) as Hb.
  cbn [Reference.hex flat_map app]. repeat (constructor; [apply hex_digit_ascii; zdm|]). done.
Qed.

Lemma length_hex bs : length (Reference.hex bs) = (2 * length bs)%nat.
Proof. induction bs as [|b bs IH]; [done|]. cbn [Reference.hex flat_map app length] in *. fold (Reference.hex bs). lia. Qed.

Lemma length_rng_take n g : length (rng_take n g) = n.
Proof. unfold rng_take. by rewrite length_map, length_seq. Qed.

Lemma reference_rsa_correct g pk sk g' pt g1 :
  Reference.generate_rsa 2048 g = ((pk, sk), g') ->
  (length pt <= rsa_oaep_max_payload)%nat ->
  exists c, (Reference.encrypt_rsa pk pt g1).1 = Some c /\ Reference.decrypt_rsa sk c = Some pt.
Proof.
  intros [= <- <- _] Hpt. unfold Reference.encrypt_rsa, Reference.decrypt_rsa. cbn [fst].
  rewrite decide_True by done. eexists. split; [done|].
  rewrite decide_True.
  - reflexivity.
  - split; [by rewrite take_app_length|]. rewrite !length_app. cbn. lia.
Qed.

Lemma reference_aes_correct (k nonce pt : list byte) :
  length nonce = 12%nat ->
  exists c, Reference.encrypt_aes k nonce pt = Some c /\ Reference.decrypt_aes k nonce c = Some pt.
Proof.
  intros Hn. unfold Reference.encrypt_aes, Reference.decrypt_aes. rewrite decide_True by done.
  eexists. split; [done|].
  rewrite app_assoc, <- length_app, take_app_length, drop_app_length.
  by rewrite decide_True.
Qed.

Lemma reference_aes_nonce (k nonce nonce' pt c : list byte) :
  length nonce = 12%nat -> length nonce' = 12%nat -> nonce <> nonce' ->
  Reference.encrypt_aes k nonce pt = Some c -> Reference.decrypt_aes k nonce' c = None.
Proof.
  intros Hn Hn' Hne. unfold Reference.encrypt_aes, Reference.decrypt_aes. rewrite decide_True by done.
  intros [= <-]. rewrite decide_False; [done|].
  rewrite app_assoc. replace (length nonce' + length k)%nat with (length (nonce ++ k))
    by (rewrite length_app; lia).
  rewrite take_app_length. intros H. apply app_inv_tail in H. done.
Qed.

Lemma reference_exported_ascii (g : Rng) :
  Forall (fun c => 0 <= c < 128)
    (Reference.stringify (Reference.JwkOct (Reference.generate_aes 256 g).1)).
Proof. cbn. repeat (constructor; [lia|]). apply hex_ascii. Qed.

Lemma reference_exported_short (g : Rng) :
  (length (Reference.stringify (Reference.JwkOct (Reference.generate_aes 256 g).1))
   <= rsa_oaep_max_payload)%nat.
Proof.
  cbn [Reference.stringify Reference.generate_aes fst length].
  rewrite length_hex, length_rng_take.
  unfold rsa_oaep_max_payload. vm_compute. lia.
Qed.

Lemma reference_exported_object (k : list byte) :
  exists rest, Reference.stringify (Reference.JwkOct k) = 123 :: rest.
Proof. eexists. reflexivity. Qed.

#[refine] Global Instance reference : WebCrypto := {|
  RsaPublic := list byte;
  RsaPrivate := list byte;
  AesKey := list byte;
  JsonWebKey := Reference.Jwk;
  rsa_generateKey := Reference.generate_rsa;
  aes_generateKey := Reference.generate_aes;
  rsa_oaep_encrypt := Reference.encrypt_rsa;
  rsa_oaep_decrypt := Reference.decrypt_rsa;
  aes_gcm_encrypt := Reference.encrypt_aes;
  aes_gcm_decrypt := Reference.decrypt_aes;
  export_rsa_public := Reference.JwkRsaPublic;
  export_rsa_private := Reference.JwkRsaPrivate;
  export_aes := Reference.JwkOct;
  import_rsa_public := Reference.import_public;
  import_rsa_private := Reference.import_private;
  import_aes := Reference.import_oct;
  JSON_stringify := Reference.stringify;
  JSON_parse := Reference.parse;
|}.
Proof.
  - exact reference_rsa_correct.
  - exact reference_aes_correct.
  - exact reference_aes_nonce.
  - exact (fun k => eq_refl).
  - exact (fun k => eq_refl).
  - exact (fun k => eq_refl).
  - exact parse_stringify.
  - exact reference_exported_ascii.
  - exact reference_exported_short.
  - exact reference_exported_object.
Defined.

(** ** A reference instance of the rest of the platform

    Stand-ins for the JSON texts of users, channels and metadata that
    satisfy the laws of [Platform]. A text is a brace and the fields one
    after the other; a text field ends with the code unit 0, which the code
    units of the field are moved away from; a number is one unit; an
    optional field and each element of a list start with a mark. *)

Module ReferenceText.

Definition escape (c : Z) : Z := if 0 <=? c then c + 1 else c.

Definition unescape (d : Z) : Z := if 0 <? d then d - 1 else d.

Definition text_field (s : jsstring) : jsstring := map escape s ++ [0].

Fixpoint read_field (s : jsstring) : option (jsstring * jsstring) :=
  match s with
  | [] => None
  | c :: r =>
      if c =? 0 then Some ([], r)
      else match read_field r with
           | Some (f, rest) => Some (unescape c :: f, rest)
           | None => None
           end
  end.

Definition stringify_user (u : User.t) (lastSeen : Z) : jsstring :=
  123 :: text_field (User.id u) ++ text_field (User.name u) ++ text_field (User.email u)
      ++ match User.publicKey u with
         | Some k => 1 :: text_field k
         | None => [2]
         end
      ++ [lastSeen].

Definition parse_user (s : jsstring) : option User.t :=
  match s with
  | 123 :: r =>
      match read_field r with
      | Some (id, r) =>
          match read_field r with
          | Some (name, r) =>
              match read_field r with
              | Some (email, 1 :: r) =>
                  match read_field r with
                  | Some (k, _) =>
                      Some {| User.id := id; User.name := name; User.email := email;
                              User.publicKey := Some k |}
                  | None => None
                  end
              | Some (email, 2 :: _) =>
                  Some {| User.id := id; User.name := name; User.email := email;
                          User.publicKey := None |}
              | _ => None
              end
          | None => None
          end
      | None => None
      end
  | _ => None
  end.

(** Readers take a value from the front of a text and give the rest. *)
Definition read_Z (s : jsstring) : option (Z * jsstring) :=
  match s with
  | z :: r => Some (z, r)
  | [] => None
  end.

Definition text_bool (b : bool) : jsstring := [if b then 1 else 2].

Definition read_bool (s : jsstring) : option (bool * jsstring) :=
  match s with
  | 1 :: r => Some (true, r)
  | 2 :: r => Some (false, r)
  | _ => None
  end.

Definition text_option {A} (text : A -> jsstring) (o : option A) : jsstring :=
  match o with
  | Some x => 1 :: text x
  | None => [2]
  end.

Definition read_option {A} (read : jsstring -> option (A * jsstring)) (s : jsstring)
    : option (option A * jsstring) :=
  match s with
  | 1 :: r =>
      match read r with
      | Some (x, r) => Some (Some x, r)
      | None => None
      end
  | 2 :: r => Some (None, r)
  | _ => None
  end.

Fixpoint text_list {A} (text : A -> jsstring) (l : list A) : jsstring :=
  match l with
  | [] => [2]
  | x :: l => 1 :: text x ++ text_list text l
  end.

Fixpoint read_list {A} (fuel : nat) (read : jsstring -> option (A * jsstring))
    (s : jsstring) : option (list A * jsstring) :=
  match fuel, s with
  | S fuel, 1 :: r =>
      match read r with
      | Some (x, r) =>
          match read_list fuel read r with
          | Some (l, r) => Some (x :: l, r)
          | None => None
          end
      | None => None
      end
  | S _, 2 :: r => Some ([], r)
  | _, _ => None
  end.

(** The fuel of a reader of lists is the length of the text. *)
Definition read_all {A} (read : jsstring -> option (A * jsstring)) (s : jsstring)
    : option (list A * jsstring) :=
  read_list (length s) read s.

Definition text_reaction (r : Reaction.t) : jsstring :=
  text_field (Reaction.emoji r) ++ text_field (Reaction.userId r)
  ++ text_field (Reaction.userName r).

Definition read_reaction (s : jsstring) : option (Reaction.t * jsstring) :=
  match read_field s with
  | Some (emoji, s) =>
      match read_field s with
      | Some (userId, s) =>
          match read_field s with
          | Some (userName, s) =>
              Some ({| Reaction.emoji := emoji; Reaction.userId := userId;
                       Reaction.userName := userName |}, s)
          | None => None
          end
      | None => None
      end
  | None => None
  end.

Definition text_message (m : Message.t) : jsstring :=
  text_field (Message.id m) ++ text_field (Message.content m)
  ++ text_option text_field (Message.iv m) ++ text_field (Message.senderId m)
  ++ text_field (Message.senderName m) ++ [Message.timestamp m]
  ++ text_field (Message.channelId m) ++ text_option text_field (Message.parentId m)
  ++ text_option text_bool (Message.edited m)
  ++ text_option (text_list text_reaction) (Message.reactions m)
  ++ text_option (fun z => [z]) (Message.replyCount m).

Definition read_message (s : jsstring) : option (Message.t * jsstring) :=
  match read_field s with
  | Some (id, s) =>
  match read_field s with
  | Some (content, s) =>
  match read_option read_field s with
  | Some (iv, s) =>
  match read_field s with
  | Some (senderId, s) =>
  match read_field s with
  | Some (senderName, s) =>
  match read_Z s with
  | Some (timestamp, s) =>
  match read_field s with
  | Some (channelId, s) =>
  match read_option read_field s with
  | Some (parentId, s) =>
  match read_option read_bool s with
  | Some (edited, s) =>
  match read_option (read_all read_reaction) s with
  | Some (reactions, s) =>
  match read_option read_Z s with
  | Some (replyCount, s) =>
      Some ({| Message.id := id; Message.content := content; Message.iv := iv;
               Message.senderId := senderId; Message.senderName := senderName;
               Message.timestamp := timestamp; Message.channelId := channelId;
               Message.parentId := parentId; Message.edited := edited;
               Message.reactions := reactions; Message.replyCount := replyCount |}, s)
  | None => None end
  | None => None end
  | None => None end
  | None => None end
  | None => None end
  | None => None end
  | None => None end
  | None => None end
  | None => None end
  | None => None end
  | None => None end.

Definition stringify_channel (c : Channel.t) : jsstring :=
  123 :: text_field (Channel.id c) ++ text_field (Channel.name c)
      ++ text_option text_field (Channel.description c)
      ++ text_bool (Channel.isPrivate c)
      ++ text_list text_field (Channel.members c)
      ++ text_field (Channel.createdBy c) ++ [Channel.createdAt c]
      ++ text_option text_message (Channel.lastMessage c)
      ++ text_option (text_list text_field) (Channel.pinnedMessages c).

Definition parse_channel (s : jsstring) : option Channel.t :=
  match s with
  | 123 :: s =>
  match read_field s with
  | Some (id, s) =>
  match read_field s with
  | Some (name, s) =>
  match read_option read_field s with
  | Some (description, s) =>
  match read_bool s with
  | Some (isPrivate, s) =>
  match read_all read_field s with
  | Some (members, s) =>
  match read_field s with
  | Some (createdBy, s) =>
  match read_Z s with
  | Some (createdAt, s) =>
  match read_option read_message s with
  | Some (lastMessage, s) =>
  match read_option (read_all read_field) s with
  | Some (pinnedMessages, _) =>
      Some {| Channel.id := id; Channel.name := name;
              Channel.description := description; Channel.isPrivate := isPrivate;
              Channel.members := members; Channel.createdBy := createdBy;
              Channel.createdAt := createdAt; Channel.lastMessage := lastMessage;
              Channel.pinnedMessages := pinnedMessages |}
  | None => None end
  | None => None end
  | None => None end
  | None => None end
  | None => None end
  | None => None end
  | None => None end
  | None => None end
  | None => None end
  | _ => None
  end.

Definition stringify_metadata (name type : jsstring) (size : Z) : jsstring :=
  123 :: text_field name ++ text_field type ++ [size].

Definition parse_type (s : jsstring) : result (option jsstring) :=
  match s with
  | 123 :: r =>
      match read_field r with
      | Some (_, r) =>
          match read_field r with
          | Some (type, _) => Ok (Some type)
          | None => Ok None
          end
      | None => Ok None
      end
  | _ => Throw SyntaxError
  end.

End ReferenceText.

Lemma unescape_escape c : ReferenceText.unescape (ReferenceText.escape c) = c.
Proof.
  unfold ReferenceText.unescape, ReferenceText.escape.
  destruct (0 <=? c) eqn:Hc.
  - apply Z.leb_le in Hc. destruct (0 <? c + 1) eqn:Hd; [lia|]. apply Z.ltb_ge in Hd. lia.
  - apply Z.leb_gt in Hc. destruct (0 <? c) eqn:Hd; [|done]. apply Z.ltb_lt in Hd. lia.
Qed.

Lemma escape_nonzero c : (ReferenceText.escape c =? 0) = false.
Proof.
  unfold ReferenceText.escape. apply Z.eqb_neq.
  destruct (0 <=? c) eqn:Hc; [apply Z.leb_le in Hc|apply Z.leb_gt in Hc]; lia.
Qed.

Lemma read_text_field s rest :
  ReferenceText.read_field (ReferenceText.text_field s ++ rest) = Some (s, rest).
Proof.
  unfold ReferenceText.text_field. induction s as [|c s IH]; [done|].
  cbn [map app ReferenceText.read_field]. rewrite escape_nonzero.
  cbn [map app] in IH. by rewrite IH, unescape_escape.
Qed.

(** A reader inverts a writer when it reads what the writer wrote off the
    front of any text. *)
Definition inverts {A} (read : jsstring -> option (A * jsstring)) (text : A -> jsstring)
    : Prop :=
  forall x rest, read (text x ++ rest) = Some (x, rest).

Lemma inverts_field : inverts ReferenceText.read_field ReferenceText.text_field.
Proof. intros s rest. apply read_text_field. Qed.

Lemma inverts_Z : inverts ReferenceText.read_Z (fun z => [z]).
Proof. by intros z rest. Qed.

Lemma inverts_bool : inverts ReferenceText.read_bool ReferenceText.text_bool.
Proof. by intros [] rest. Qed.

Lemma inverts_option {A} (read : jsstring -> option (A * jsstring)) text :
  inverts read text ->
  inverts (ReferenceText.read_option read) (ReferenceText.text_option text).
Proof.
  intros H [x|] rest; [|done].
  cbn [ReferenceText.text_option app ReferenceText.read_option]. by rewrite H.
Qed.

Lemma read_text_list {A} (read : jsstring -> option (A * jsstring)) text l rest fuel :
  inverts read text ->
  (length l < fuel)%nat ->
  ReferenceText.read_list fuel read (ReferenceText.text_list text l ++ rest)
  = Some (l, rest).
Proof.
  intros H. revert fuel. induction l as [|x l IH]; intros [|fuel] Hfuel;
    cbn [length] in Hfuel; try lia; [done|].
  cbn [ReferenceText.text_list app ReferenceText.read_list].
  rewrite <- app_assoc, H, IH by lia. done.
Qed.

Lemma length_text_list {A} (text : A -> jsstring) l :
  (length l < length (ReferenceText.text_list text l))%nat.
Proof.
  induction l as [|x l IH]; cbn [ReferenceText.text_list length]; [lia|].
  rewrite length_app. lia.
Qed.

Lemma inverts_list {A} (read : jsstring -> option (A * jsstring)) text :
  inverts read text ->
  inverts (ReferenceText.read_all read) (ReferenceText.text_list text).
Proof.
  intros H l rest. unfold ReferenceText.read_all. apply read_text_list; [done|].
  rewrite length_app. pose proof (length_text_list text l). lia.
Qed.

Lemma inverts_reaction : inverts ReferenceText.read_reaction ReferenceText.text_reaction.
Proof.
  intros [emoji userId userName] rest.
  unfold ReferenceText.read_reaction, ReferenceText.text_reaction.
  cbn [Reaction.emoji Reaction.userId Reaction.userName].
  rewrite <- !app_assoc. by rewrite !read_text_field.
Qed.

Lemma inverts_message : inverts ReferenceText.read_message ReferenceText.text_message.
Proof.
  intros m rest. destruct m.
  unfold ReferenceText.read_message, ReferenceText.text_message.
  cbn [Message.id Message.content Message.iv Message.senderId Message.senderName
       Message.timestamp Message.channelId Message.parentId Message.edited
       Message.reactions Message.replyCount].
  rewrite <- !app_assoc.
  rewrite !inverts_field.
  rewrite (inverts_option _ _ inverts_field).
  rewrite !inverts_field. cbn [app ReferenceText.read_Z].
  rewrite inverts_field.
  rewrite (inverts_option _ _ inverts_field).
  rewrite (inverts_option _ _ inverts_bool).
  rewrite (inverts_option _ _ (inverts_list _ _ inverts_reaction)).
  by rewrite (inverts_option _ _ inverts_Z).
Qed.

Lemma reference_parse_stringify_channel c :
  ReferenceText.parse_channel (ReferenceText.stringify_channel c) = Some c.
Proof.
  destruct c.
  unfold ReferenceText.parse_channel, ReferenceText.stringify_channel.
  cbn [Channel.id Channel.name Channel.description Channel.isPrivate Channel.members
       Channel.createdBy Channel.createdAt Channel.lastMessage Channel.pinnedMessages].
  rewrite !inverts_field.
  rewrite (inverts_option _ _ inverts_field).
  rewrite inverts_bool.
  rewrite (inverts_list _ _ inverts_field).
  rewrite inverts_field. cbn [app ReferenceText.read_Z].
  rewrite (inverts_option _ _ inverts_message).
  rewrite <- (app_nil_r (ReferenceText.text_option _ pinnedMessages)).
  by rewrite (inverts_option _ _ (inverts_list _ _ inverts_field)).
Qed.

Lemma reference_parse_stringify_user u lastSeen :
  ReferenceText.parse_user (ReferenceText.stringify_user u lastSeen) = Some u.
Proof.
  unfold ReferenceText.parse_user, ReferenceText.stringify_user.
  rewrite !read_text_field.
  destruct u as [id name email [k|]]; cbn [User.publicKey app]; [|done].
  by rewrite read_text_field.
Qed.

Lemma reference_parse_type_metadata name type size :
  ReferenceText.parse_type (ReferenceText.stringify_metadata name type size)
  = Ok (Some type).
Proof.
  unfold ReferenceText.parse_type, ReferenceText.stringify_metadata.
  by rewrite !read_text_field.
Qed.

Lemma reference_stringify_nonempty (j : Reference.Jwk) : Reference.stringify j <> [].
Proof. by destruct j. Qed.

Lemma reference_stringify_user_nonempty u lastSeen :
  ReferenceText.stringify_user u lastSeen <> [].
Proof. done. Qed.

#[refine] Global Instance reference_platform : @Platform reference := {|
  JSON_stringify_Channel := ReferenceText.stringify_channel;
  JSON_parse_Channel := ReferenceText.parse_channel;
  JSON_stringify_User := ReferenceText.stringify_user;
  JSON_parse_User := ReferenceText.parse_user;
  JSON_stringify_metadata := ReferenceText.stringify_metadata;
  JSON_parse_type := ReferenceText.parse_type;
  apply_arguments_limit := 1024;
|}.
Proof.
  - exact reference_parse_stringify_channel.
  - exact reference_parse_stringify_user.
  - exact reference_parse_type_metadata.
  - exact reference_stringify_nonempty.
  - exact reference_stringify_user_nonempty.
Defined.

(** ** ASCII text *)

Lemma ascii_well_formed s :
  Forall (fun c => 0 <= c < 128) s ->
  Utf8.well_formed s = true /\ Utf8.starts_with_bom s = false /\ Utf8.encode s = s.
Proof.
  unfold Utf8.encode.
  induction 1 as [|c s Hc Hs (IH1 & IH2 & IH3)]; [done|].
  cbn [Utf8.well_formed Utf8.scalars Utf8.starts_with_bom flat_map].
  assert (Hl : Utf8.is_lead c = false).
  { unfold Utf8.is_lead. apply andb_false_iff. left. apply Z.leb_gt. lia. }
  assert (Ht : Utf8.is_trail c = false).
  { unfold Utf8.is_trail. apply andb_false_iff. left. apply Z.leb_gt. lia. }
  rewrite Hl, Ht. cbn [negb andb flat_map]. rewrite IH1, IH3. repeat split.
  - rewrite andb_true_r. apply andb_true_iff. split; [apply Z.leb_le | apply Z.ltb_lt]; lia.
  - apply Z.eqb_neq. unfold Utf8.bom. lia.
  - unfold Utf8.encode_scalar. rewrite (proj2 (Z.ltb_lt c 128)) by lia. done.
Qed.

Lemma length_TextEncoder_ascii s :
  Forall (fun c => 0 <= c < 128) s -> length (TextEncoder_encode s) = length s.
Proof.
  intros Hs. destruct (ascii_well_formed s Hs) as (_ & _ & He).
  unfold TextEncoder_encode. by rewrite He, length_map.
Qed.

(** ** The primitive layer *)

Section PrimitiveLayer.
Context `{W : WebCrypto}.

(** What [encryptWithSymmetricKey] computes with an AES-GCM key. *)
Lemma encryptWithSymmetricKey_eq data k w :
  exists c,
    aes_gcm_encrypt k (rng_take 12 (rng w)) (TextEncoder_encode data) = Some c
    /\ encryptWithSymmetricKey data (AesGcmKey k) w
       = (Ok {| ciphertext := Base64.encode (map byte_to_Z c);
                iv := Base64.encode (map byte_to_Z (rng_take 12 (rng w))) |},
          set_rng (rng_drop 12 (rng w)) w).
Proof.
  destruct (aes_gcm_correct k (rng_take 12 (rng w)) (TextEncoder_encode data))
    as (c & Hc & _); [apply length_rng_take|].
  exists c. split; [done|].
  unfold encryptWithSymmetricKey, bind, getRandomValues, liftR, ret,
    subtle_encrypt_AES_GCM.
  rewrite Hc. cbn [result_of_option]. by rewrite !arrayBufferToBase64_eq.
Qed.

Lemma decryptWithSymmetricKey_eq c nonce k :
  decryptWithSymmetricKey (Base64.encode (map byte_to_Z c))
    (Base64.encode (map byte_to_Z nonce)) (AesGcmKey k)
  = match aes_gcm_decrypt k nonce c with
    | Some pt => Ok (TextDecoder_decode pt)
    | None => Throw (DOMException "OperationError")
    end.
Proof.
  unfold decryptWithSymmetricKey. rewrite !base64ToArrayBuffer_encode.
  cbn [result_bind subtle_decrypt_AES_GCM]. by destruct (aes_gcm_decrypt k nonce c).
Qed.

(** Decryption returns the text the decoder reads from the encoded
    plaintext. *)
Lemma symmetric_roundtrip_decoded data k w :
  exists e w',
    encryptWithSymmetricKey data (AesGcmKey k) w = (Ok e, w')
    /\ decryptWithSymmetricKey (ciphertext e) (iv e) (AesGcmKey k)
       = Ok (TextDecoder_decode (TextEncoder_encode data)).
Proof.
  destruct (aes_gcm_correct k (rng_take 12 (rng w)) (TextEncoder_encode data))
    as (c & Hc & Hd); [apply length_rng_take|].
  destruct (encryptWithSymmetricKey_eq data k w) as (c' & Hc' & He).
  assert (c' = c) as -> by congruence.
  eexists _, _. split; [exact He|]. cbn [ciphertext iv].
  by rewrite decryptWithSymmetricKey_eq, Hd.
Qed.

Theorem symmetric_roundtrip data k w :
  Utf8.well_formed data = true -> Utf8.starts_with_bom data = false ->
  exists e w',
    encryptWithSymmetricKey data (AesGcmKey k) w = (Ok e, w')
    /\ decryptWithSymmetricKey (ciphertext e) (iv e) (AesGcmKey k) = Ok data.
Proof.
  intros Hwf Hb. destruct (symmetric_roundtrip_decoded data k w) as (e & w' & He & Hd).
  exists e, w'. split; [done|]. by rewrite Hd, TextDecoder_TextEncoder.
Qed.

Lemma encryptWithPublicKey_eq data pk w :
  encryptWithPublicKey data (RsaPublicKey pk) w
  = (match (rsa_oaep_encrypt pk (TextEncoder_encode data) (rng w)).1 with
     | Some c => Ok (Base64.encode (map byte_to_Z c))
     | None => Throw (DOMException "OperationError")
     end,
     set_rng (rsa_oaep_encrypt pk (TextEncoder_encode data) (rng w)).2 w).
Proof.
  unfold encryptWithPublicKey, bind, subtle_encrypt_RSA_OAEP, liftR.
  destruct (rsa_oaep_encrypt _ _ _) as [[c|] g]; cbn; [|done].
  by rewrite arrayBufferToBase64_eq.
Qed.

Lemma decryptWithPrivateKey_eq c sk :
  decryptWithPrivateKey (Base64.encode (map byte_to_Z c)) (RsaPrivateKey sk)
  = match rsa_oaep_decrypt sk c with
    | Some pt => Ok (TextDecoder_decode pt)
    | None => Throw (DOMException "OperationError")
    end.
Proof.
  unfold decryptWithPrivateKey. rewrite base64ToArrayBuffer_encode.
  cbn [result_bind subtle_decrypt_RSA_OAEP]. by destruct (rsa_oaep_decrypt sk c).
Qed.

(** Wrapping a text under the public key of a generated pair and
    unwrapping it under the private key. *)
Lemma wrap_unwrap g pk sk g' s w :
  rsa_generateKey 2048 g = ((pk, sk), g') ->
  (length (TextEncoder_encode s) <= rsa_oaep_max_payload)%nat ->
  exists c,
    (rsa_oaep_encrypt pk (TextEncoder_encode s) (rng w)).1 = Some c
    /\ rsa_oaep_decrypt sk c = Some (TextEncoder_encode s)
    /\ encryptWithPublicKey s (RsaPublicKey pk) w
       = (Ok (Base64.encode (map byte_to_Z c)),
          set_rng (rsa_oaep_encrypt pk (TextEncoder_encode s) (rng w)).2 w)
    /\ decryptWithPrivateKey (Base64.encode (map byte_to_Z c)) (RsaPrivateKey sk)
       = Ok (TextDecoder_decode (TextEncoder_encode s)).
Proof.
  intros Hgen Hlen.
  destruct (rsa_oaep_correct _ _ _ _ _ (rng w) Hgen Hlen) as (c & Hc & Hd).
  exists c. split; [done|]. split; [done|]. split.
  - by rewrite encryptWithPublicKey_eq, Hc.
  - by rewrite decryptWithPrivateKey_eq, Hd.
Qed.

Lemma exported_key_text g :
  let s := JSON_stringify (export_aes (aes_generateKey 256 g).1) in
  (length (TextEncoder_encode s) <= rsa_oaep_max_payload)%nat
  /\ TextDecoder_decode (TextEncoder_encode s) = s.
Proof.
  intros s. pose proof (exported_aes_ascii g) as Ha. fold s in Ha.
  destruct (ascii_well_formed s Ha) as (Hwf & Hb & _). split.
  - rewrite length_TextEncoder_ascii by done. apply exported_aes_short.
  - by apply TextDecoder_TextEncoder.
Qed.

Theorem key_wrap_roundtrip w0 kp w1 w2 key w3 jwk w :
  generateKeyPair w0 = (Ok kp, w1) ->
  generateSymmetricKey w2 = (Ok key, w3) ->
  exportKey key = Ok jwk ->
  exists blob w',
    encryptWithPublicKey (JSON_stringify jwk) (publicKey kp) w = (Ok blob, w')
    /\ decryptWithPrivateKey blob (privateKey kp) = Ok (JSON_stringify jwk).
Proof.
  unfold generateKeyPair, generateSymmetricKey, exportKey.
  destruct (rsa_generateKey 2048 (rng w0)) as [[pk sk] g'] eqn:Hgen.
  destruct (aes_generateKey 256 (rng w2)) as [k g2] eqn:Hk.
  intros [= <- _] [= <- _] [= <-]. cbn [publicKey privateKey].
  destruct (exported_key_text (rng w2)) as [Hlen Hdec]. rewrite Hk in Hlen, Hdec.
  cbn [fst] in Hlen, Hdec.
  destruct (wrap_unwrap _ _ _ _ _ w Hgen Hlen) as (c & _ & _ & He & Hd).
  eexists _, _. split; [exact He|]. by rewrite Hd, Hdec.
Qed.
End PrimitiveLayer.


(** ** The channel key manager *)

Section Manager.
Context `{W : WebCrypto}.

Lemma getPrivateKey_run w : getPrivateKey w = ((getPrivateKey w).1, w).
Proof.
  unfold getPrivateKey, bind, gets, ret, liftR.
  destruct (user (authState w)); [|done].
  destruct (privateKeyJwk (authState w)); [done|].
  destruct (truthy _); [|done].
  destruct (JSON_parse _); done.
Qed.

Lemma getPrivateKey_frame w w' :
  authState w' = authState w -> localStorage w' = localStorage w ->
  (getPrivateKey w').1 = (getPrivateKey w).1.
Proof.
  intros Ha Hl. unfold getPrivateKey, bind, gets, ret, liftR. rewrite Ha.
  destruct (user (authState w)); [|done].
  destruct (privateKeyJwk (authState w)); [done|].
  rewrite Hl. destruct (truthy _); [|done].
  destruct (JSON_parse _); done.
Qed.

Lemma storeData_run key data path w :
  storeData key data path w
  = match storageAdapter w, isInitialized w with
    | Some blobs, true =>
        (Ok (path ++ js "/" ++ key),
         set_storageAdapter (Some (<[(path, key) := data]> blobs)) w)
    | _, _ => (Throw (JsError "Storage adapter not initialized"), w)
    end.
Proof. unfold storeData. destruct (storageAdapter w), (isInitialized w); done. Qed.

Lemma retrieveData_run key path w :
  retrieveData key path w
  = (match storageAdapter w, isInitialized w with
     | Some blobs, true => adapter_retrieve key path blobs
     | _, _ => Throw (JsError "Storage adapter not initialized")
     end, w).
Proof.
  unfold retrieveData. destruct (storageAdapter w), (isInitialized w); try done.
  unfold try_catch, liftR. by destruct (adapter_retrieve key path _).
Qed.

Lemma getChannelKey_hit channelId w key :
  channelKeysCache w !! channelId = Some key ->
  getChannelKey channelId w = (Ok (Some key), w).
Proof. intros H. unfold getChannelKey, try_catch, bind, gets, ret. by rewrite H. Qed.

Lemma getChannelKey_miss channelId w :
  channelKeysCache w !! channelId = None ->
  getChannelKey channelId w
  = match loadChannelKey channelId w with
    | Ok key =>
        (Ok (Some key),
         set_channelKeysCache (<[channelId := key]> (channelKeysCache w)) w)
    | Throw _ => (Ok None, w)
    end.
Proof.
  intros H. unfold getChannelKey, loadChannelKey, try_catch, bind, gets, ret.
  rewrite H. rewrite getPrivateKey_run. cbn [fst].
  destruct (getPrivateKey w).1 as [[jwk|]|e]; cbn [result_bind]; try done.
  unfold liftR at 1. destruct (importKey jwk true) as [sk|e]; cbn [result_bind]; [|done].
  unfold key_record_key, key_record_path. rewrite retrieveData_run. cbn [fst].
  destruct (match storageAdapter w with Some _ => _ | None => _ end) as [data|e];
    cbn [result_bind]; [|done].
  unfold liftR at 1. destruct (JSON_parse_EncryptionKeyReference data) as [r|e];
    cbn [result_bind]; [|done].
  unfold liftR at 1. destruct (decryptWithPrivateKey _ sk) as [text|e];
    cbn [result_bind]; [|done].
  unfold liftR at 1. destruct (JSON_parse text) as [j|]; cbn [result_of_option result_bind];
    [|done].
  unfold liftR at 1. destruct (importSymmetricKey j) as [k|e]; [|done].
  done.
Qed.

Lemma same_store_refl w : same_store w w.
Proof. by repeat split. Qed.

Lemma same_store_trans w1 w2 w3 :
  same_store w1 w2 -> same_store w2 w3 -> same_store w1 w3.
Proof.
  unfold same_store. intros (?&?&?&?&?&?&?) (?&?&?&?&?&?&?). repeat split; congruence.
Qed.

Lemma same_store_set_rng g w : same_store w (set_rng g w).
Proof. by repeat split. Qed.

Lemma same_store_set_cache c w : same_store w (set_channelKeysCache c w).
Proof. by repeat split. Qed.

Lemma same_store_private_key w w' :
  same_store w w' -> (getPrivateKey w').1 = (getPrivateKey w).1.
Proof. intros (?&?&_). by apply getPrivateKey_frame. Qed.

(** [getChannelKey] returns; it changes the cache at most. *)
Lemma getChannelKey_returns channelId w :
  exists key w', getChannelKey channelId w = (Ok key, w') /\ same_store w w'
    /\ rng w' = rng w /\ messages w' = messages w
    /\ currentChannelId w' = currentChannelId w
    /\ match key with
       | Some k => channelKeysCache w' !! channelId = Some k
       | None => w' = w /\ channelKeysCache w !! channelId = None
       end.
Proof.
  destruct (channelKeysCache w !! channelId) as [k|] eqn:Hc.
  - rewrite (getChannelKey_hit _ _ _ Hc). eexists _, _. split; [done|].
    split; [apply same_store_refl|]. done.
  - rewrite (getChannelKey_miss _ _ Hc). destruct (loadChannelKey channelId w) as [k|e].
    + eexists _, _. split; [done|]. split; [apply same_store_set_cache|].
      cbn. by rewrite lookup_insert_eq.
    + eexists _, _. split; [done|]. split; [apply same_store_refl|]. done.
Qed.

(** The run of [generateChannelKey] when every step succeeds. *)
Lemma generateChannelKey_run channelId w u jwk pk blobs :
  user (authState w) = Some u ->
  (getPrivateKey w).1 = Ok (Some jwk) ->
  user_public_key u = Some pk ->
  storageAdapter w = Some blobs ->
  isInitialized w = true ->
  let k := (aes_generateKey 256 (rng w)).1 in
  let g1 := (aes_generateKey 256 (rng w)).2 in
  let text := TextEncoder_encode (JSON_stringify (export_aes k)) in
  forall c,
    (rsa_oaep_encrypt pk text g1).1 = Some c ->
    generateChannelKey channelId w
    = (Ok true,
       set_channelKeysCache (<[channelId := AesGcmKey k]> (channelKeysCache w))
         (set_storageAdapter
            (Some (<[(key_record_path channelId, key_record_key (User.id u)) :=
                     JsonKeyReference
                       (keyReference_for u channelId
                          (Base64.encode (map byte_to_Z c)) (now w))]> blobs))
            (set_rng (rsa_oaep_encrypt pk text g1).2 w))).
Proof.
  intros Hu Hsk Hpk Hst Hinit k g1 text c Hc.
  unfold generateChannelKey, try_catch, bind at 1, gets at 1. rewrite Hu.
  unfold bind at 1, generateSymmetricKey.
  subst k g1 text. destruct (aes_generateKey 256 (rng w)) as [k g1] eqn:Hk.
  cbn [fst snd] in *.
  unfold bind at 1, liftR at 1, exportKey.
  unfold bind at 1. rewrite getPrivateKey_run.
  rewrite (same_store_private_key w) by apply same_store_set_rng.
  rewrite Hsk. cbn [fst].
  unfold user_public_key in Hpk.
  destruct (truthy (User.publicKey u)) as [text|]; [|done].
  destruct (JSON_parse text) as [j|] eqn:Hj; [|done].
  unfold bind at 1, liftR at 1. cbn [result_of_option].
  unfold bind at 1, liftR at 1, importKey. rewrite Hpk. cbn [fmap option_fmap option_map result_of_option].
  unfold bind at 1. rewrite encryptWithPublicKey_eq. cbn [rng set_rng]. rewrite Hc.
  unfold bind at 1, gets at 1. unfold bind at 1. rewrite storeData_run.
  cbn [storageAdapter isInitialized set_rng]. rewrite Hst, Hinit.
  unfold bind, modify, ret. done.
Qed.
End Manager.

(** ** Text that [atob] accepts *)

Lemma strip_padding_suffix d :
  exists p, d = Base64.strip_padding d ++ p /\ Forall (fun c => c = Base64.pad) p.
Proof.
  unfold Base64.strip_padding.
  destruct (_ =? 0); [|by exists []; rewrite app_nil_r].
  destruct (rev d) as [|p1 [|p2 r]] eqn:Hr.
  - exists []. by rewrite app_nil_r.
  - apply (f_equal (@rev Z)) in Hr. rewrite rev_involutive in Hr. cbn in Hr. subst d.
    destruct (Z.eqb_spec p1 Base64.pad) as [->|]; [by exists [Base64.pad]; repeat constructor|].
    by exists [].
  - apply (f_equal (@rev Z)) in Hr. rewrite rev_involutive in Hr. cbn in Hr. subst d.
    destruct (Z.eqb_spec p1 Base64.pad) as [->|]; [|by exists []; rewrite app_nil_r].
    destruct (Z.eqb_spec p2 Base64.pad) as [->|].
    + exists [Base64.pad; Base64.pad]. split; [by rewrite <- app_assoc|by repeat constructor].
    + exists [Base64.pad]. split; [done|by repeat constructor].
Qed.

Lemma mapM_b64_val_head c d : Base64.b64_val c = None -> mapM Base64.b64_val (c :: d) = None.
Proof. intros H. cbn. by rewrite H. Qed.

(** A text that starts with a brace is not base64 text. *)
Lemma atob_brace rest : is_ok (Base64.atob (123 :: rest)) = false.
Proof.
  unfold Base64.atob. cbn [List.filter].
  change (negb (Base64.is_ascii_whitespace 123)) with true. cbv iota.
  set (d := List.filter _ rest).
  destruct (strip_padding_suffix (123 :: d)) as (p & Hp & Hpad).
  destruct (Z.of_nat (length (Base64.strip_padding (123 :: d))) mod 4 =? 1) eqn:Hlen; [done|].
  destruct (Base64.strip_padding (123 :: d)) as [|c d'] eqn:Hs.
  - cbn in Hp. subst p. inversion Hpad as [|? ? Hc _]. discriminate Hc.
  - injection Hp as <- _. by rewrite mapM_b64_val_head.
Qed.

Section Effects.
Context `{W : WebCrypto}.

Lemma base64_not_key_text e c :
  base64ToArrayBuffer e = Ok c -> forall k, e <> JSON_stringify (export_aes k).
Proof.
  intros He k ->. destruct (exported_aes_object k) as [rest Hr]. rewrite Hr in He.
  rewrite base64ToArrayBuffer_eq in He. pose proof (atob_brace rest) as Hb.
  destruct (Base64.atob (123 :: rest)); [done|discriminate He].
Qed.

Lemma local_private_key_frame w w' :
  same_store w w' -> local_private_key w' = local_private_key w.
Proof. intros H. unfold local_private_key. by rewrite (same_store_private_key _ _ H). Qed.

Ltac same := left; repeat split; done.

Lemma generateChannelKey_effect channelId w :
  call_effect w (generateChannelKey channelId w).2.
Proof.
  unfold generateChannelKey, try_catch, bind at 1, gets at 1.
  destruct (user (authState w)) as [u|] eqn:Hu; [|same].
  unfold bind at 1, generateSymmetricKey.
  destruct (aes_generateKey 256 (rng w)) as [k g1] eqn:Hk.
  unfold bind at 1, liftR at 1, exportKey.
  unfold bind at 1. rewrite getPrivateKey_run.
  rewrite (same_store_private_key w) by apply same_store_set_rng. cbn [fst].
  destruct (getPrivateKey w).1 as [[skj|]|e] eqn:Hsk; try same.
  destruct (truthy (User.publicKey u)) as [text|] eqn:Ht; [|same].
  unfold bind at 1, liftR at 1.
  destruct (JSON_parse text) as [j|] eqn:Hj; [|same]. cbn [result_of_option].
  unfold bind at 1, liftR at 1, importKey.
  destruct (import_rsa_public j) as [pk|] eqn:Hpk; [|same].
  cbn [fmap option_fmap option_map result_of_option].
  unfold bind at 1. rewrite encryptWithPublicKey_eq. cbn [rng set_rng].
  destruct (rsa_oaep_encrypt pk _ g1) as [[c|] g2] eqn:Hc; cbn [fst snd]; [|same].
  unfold bind at 1, gets at 1. unfold bind at 1. rewrite storeData_run.
  cbn [storageAdapter isInitialized set_rng].
  destruct (storageAdapter w) as [blobs|] eqn:Hst; [|same].
  destruct (isInitialized w) eqn:Hinit; [|same].
  unfold bind, modify, ret. cbn [snd].
  right. eexists _, _, _. split.
  - repeat split; try done. exists blobs. by rewrite Hst.
  - exists u, channelId, (Base64.encode (map byte_to_Z c)), (now w).
    repeat split; try done.
    + exists c. split; [apply base64ToArrayBuffer_encode|]. left.
      eexists pk, _, g1. split; [|by rewrite Hc].
      unfold user_public_key. by rewrite Ht, Hj.
    + eapply base64_not_key_text, base64ToArrayBuffer_encode.
Qed.

Lemma importSharedChannelKey_effect encryptedKey channelId w :
  call_effect w (importSharedChannelKey encryptedKey channelId w).2.
Proof.
  unfold importSharedChannelKey, try_catch, bind at 1, gets at 1.
  destruct (user (authState w)) as [u|] eqn:Hu; [|same].
  unfold bind at 1. rewrite getPrivateKey_run. cbn [fst].
  destruct (getPrivateKey w).1 as [[skj|]|e] eqn:Hsk; try same.
  unfold bind at 1, liftR at 1, importKey.
  destruct (import_rsa_private skj) as [sk|] eqn:Hi; [|same].
  cbn [fmap option_fmap option_map result_of_option].
  unfold bind at 1, liftR at 1.
  destruct (decryptWithPrivateKey encryptedKey (RsaPrivateKey sk)) as [text|e] eqn:Hd;
    [|same].
  unfold bind at 1, gets at 1. unfold bind at 1. rewrite storeData_run.
  destruct (storageAdapter w) as [blobs|] eqn:Hst; [|same].
  destruct (isInitialized w) eqn:Hinit; [|same].
  assert (Hw : wrapped_for w u encryptedKey).
  { unfold decryptWithPrivateKey in Hd.
    destruct (base64ToArrayBuffer encryptedKey) as [c|] eqn:Hb; [|done].
    cbn [result_bind subtle_decrypt_RSA_OAEP] in Hd.
    destruct (rsa_oaep_decrypt sk c) as [pt|] eqn:Hpt; [|done].
    split; [|by eapply base64_not_key_text].
    exists c. split; [done|]. right. exists sk, pt. split; [|done].
    unfold local_private_key. by rewrite Hsk. }
  assert (Hrec : forall w',
    store_written w w' (key_record_path channelId) (key_record_key (User.id u))
      (JsonKeyReference (keyReference_for u channelId encryptedKey (now w))) ->
    call_effect w w').
  { intros w' Hsw. right. eexists _, _, _. split; [exact Hsw|].
    by exists u, channelId, encryptedKey, (now w). }
  unfold bind at 1, liftR at 1.
  destruct (JSON_parse text) as [j|]; cbn [result_of_option];
    [|apply Hrec; repeat split; try done; by exists blobs].
  unfold bind at 1, liftR at 1.
  destruct (importSymmetricKey j) as [k|];
    [|apply Hrec; repeat split; try done; by exists blobs].
  unfold bind, modify, ret. cbn [snd].
  apply Hrec; repeat split; try done; by exists blobs.
Qed.

Lemma getChannelKey_effect channelId w : call_effect w (getChannelKey channelId w).2.
Proof.
  destruct (getChannelKey_returns channelId w) as (k & w' & -> & Hs & _). by left.
Qed.

Lemma hasChannelKey_run channelId w :
  hasChannelKey channelId w
  = (Ok (match (getChannelKey channelId w).1 with
         | Ok (Some _) => true
         | _ => false
         end),
     (getChannelKey channelId w).2).
Proof.
  unfold hasChannelKey, try_catch, bind at 1, gets at 1.
  destruct (channelKeysCache w !! channelId) as [k|] eqn:Hc.
  - by rewrite (getChannelKey_hit _ _ _ Hc).
  - unfold bind. destruct (getChannelKey_returns channelId w) as (k & w' & -> & _).
    by destruct k.
Qed.

Lemma hasChannelKey_effect channelId w : call_effect w (hasChannelKey channelId w).2.
Proof. rewrite hasChannelKey_run. apply getChannelKey_effect. Qed.

Lemma shareChannelKey_effect channelId jwk w :
  call_effect w (shareChannelKey channelId jwk w).2.
Proof.
  unfold shareChannelKey, try_catch, bind at 1, gets at 1.
  destruct (user (authState w)) as [u|] eqn:Hu; [|same].
  unfold bind at 1.
  destruct (getChannelKey_returns channelId w) as (k & w' & -> & Hs & _).
  destruct k as [k|]; [|by left].
  unfold bind at 1, liftR at 1, exportKey.
  unfold bind at 1, liftR at 1, importKey.
  destruct (import_rsa_public jwk) as [pk|];
    cbn [fmap option_fmap option_map result_of_option]; [|by left].
  unfold bind. rewrite encryptWithPublicKey_eq.
  destruct (rsa_oaep_encrypt pk _ (rng w')) as [[c|] g]; cbn [fst snd]; left;
    (eapply same_store_trans; [exact Hs|apply same_store_set_rng]).
Qed.
End Effects.

(** ** The stored data under sequences of calls *)

Section Invariant.
Context `{W : WebCrypto}.

Lemma store_inv_refl w : store_inv w w.
Proof. repeat split. auto. Qed.

Lemma wrapped_key_record_frame w w' path key d :
  authState w' = authState w -> localStorage w' = localStorage w ->
  wrapped_key_record w' path key d -> wrapped_key_record w path key d.
Proof.
  intros Ha Hl (u & ch & e & t & Hu & -> & -> & -> & (c & Hc & Hw) & Hne).
  exists u, ch, e, t. rewrite <- Ha. repeat split; try done.
  exists c. split; [done|]. destruct Hw as [Hw | (sk & pt & Hsk & Hd)]; [by left|right].
  exists sk, pt. split; [|done]. unfold local_private_key in *.
  by rewrite <- (getPrivateKey_frame w w' Ha Hl).
Qed.

Lemma store_inv_trans w1 w2 w3 : store_inv w1 w2 -> store_inv w2 w3 -> store_inv w1 w3.
Proof.
  intros ((Ha & Hl & ? & ? & ? & ?) & H12) ((Ha' & Hl' & ? & ? & ? & ?) & H23).
  split; [repeat split; congruence|].
  intros path key d Hd. destruct (H23 _ _ _ Hd) as [Hold|Hnew]; [by apply H12|].
  right. by eapply wrapped_key_record_frame.
Qed.

Lemma call_effect_store_inv w w' : call_effect w w' -> store_inv w w'.
Proof.
  intros [(Ha & Hl & Hs & ? & ? & ? & ?)
         | (path & key & d & (Ha & Hl & ? & ? & ? & ? & blobs & Hb & Hb') & Hw)].
  - repeat split; try done. intros p k d. unfold stored. rewrite Hs. auto.
  - repeat split; try done. intros p k d'. unfold stored. rewrite Hb, Hb'.
    destruct (decide ((path, key) = (p, k))) as [[= <- <-]|Hne].
    + rewrite lookup_insert_eq. intros [= <-]. by right.
    + rewrite lookup_insert_ne by done. auto.
Qed.

Lemma call_store_inv c w : store_inv w (call c w).
Proof.
  apply call_effect_store_inv. destruct c; cbn [call].
  - apply generateChannelKey_effect.
  - apply getChannelKey_effect.
  - apply hasChannelKey_effect.
  - apply shareChannelKey_effect.
  - apply importSharedChannelKey_effect.
Qed.

Lemma run_calls_store_inv cs w : store_inv w (run_calls cs w).
Proof.
  revert w. induction cs as [|c cs IH]; intros w; [apply store_inv_refl|].
  cbn [run_calls fold_left]. eapply store_inv_trans; [apply call_store_inv|apply IH].
Qed.

(** What [shareChannelKey] returns. *)
Lemma shareChannelKey_returns channelId jwk w blob w' :
  shareChannelKey channelId jwk w = (Ok blob, w') ->
  exists k pk c,
    (getChannelKey channelId w).1 = Ok (Some k)
    /\ import_rsa_public jwk = Some pk
    /\ (exists text, exportKey k = Ok text
          /\ (rsa_oaep_encrypt pk (TextEncoder_encode (JSON_stringify text))
                (rng w)).1 = Some c)
    /\ blob = Base64.encode (map byte_to_Z c)
    /\ base64ToArrayBuffer blob = Ok c.
Proof.
  unfold shareChannelKey, try_catch, bind at 1, gets at 1.
  destruct (user (authState w)) as [u|] eqn:Hu; [|done].
  unfold bind at 1.
  destruct (getChannelKey_returns channelId w) as (k & w1 & Hg & Hs & Hr & _).
  rewrite Hg. cbn [fst]. destruct k as [k|]; [|done].
  unfold bind at 1, liftR at 1, exportKey.
  unfold bind at 1, liftR at 1, importKey.
  destruct (import_rsa_public jwk) as [pk|];
    cbn [fmap option_fmap option_map result_of_option]; [|done].
  unfold bind. rewrite encryptWithPublicKey_eq. rewrite Hr.
  destruct (rsa_oaep_encrypt pk _ (rng w)) as [[c|] g] eqn:Hc; cbn [fst snd]; [|done].
  intros [= <- <-]. exists k, pk, c. repeat split; try done.
  - eexists. split; [done|]. by rewrite Hc.
  - apply base64ToArrayBuffer_encode.
Qed.
End Invariant.

(** ** Runs of the key manager *)

Section Flows.
Context `{W : WebCrypto}.

Lemma importSharedChannelKey_run encryptedKey channelId w u jwk sk text j k blobs :
  user (authState w) = Some u ->
  (getPrivateKey w).1 = Ok (Some jwk) ->
  import_rsa_private jwk = Some sk ->
  decryptWithPrivateKey encryptedKey (RsaPrivateKey sk) = Ok text ->
  JSON_parse text = Some j ->
  import_aes j = Some k ->
  storageAdapter w = Some blobs ->
  isInitialized w = true ->
  importSharedChannelKey encryptedKey channelId w
  = (Ok true,
     set_channelKeysCache (<[channelId := AesGcmKey k]> (channelKeysCache w))
       (set_storageAdapter
          (Some (<[(key_record_path channelId, key_record_key (User.id u)) :=
                   JsonKeyReference
                     (keyReference_for u channelId encryptedKey (now w))]> blobs))
          w)).
Proof.
  intros Hu Hsk Hi Hd Hj Hk Hst Hinit.
  unfold importSharedChannelKey, try_catch, bind at 1, gets at 1. rewrite Hu.
  unfold bind at 1. rewrite getPrivateKey_run, Hsk. cbn [fst].
  unfold bind at 1, liftR at 1, importKey. rewrite Hi.
  cbn [fmap option_fmap option_map result_of_option].
  unfold bind at 1, liftR at 1. rewrite Hd.
  unfold bind at 1, gets at 1. unfold bind at 1. rewrite storeData_run, Hst, Hinit.
  unfold bind at 1, liftR at 1. rewrite Hj. cbn [result_of_option].
  unfold bind at 1, liftR at 1, importSymmetricKey. rewrite Hk.
  cbn [fmap option_fmap option_map result_of_option].
  unfold bind, modify, ret. done.
Qed.

Lemma shareChannelKey_run channelId jwk w u k pk c :
  user (authState w) = Some u ->
  channelKeysCache w !! channelId = Some (AesGcmKey k) ->
  import_rsa_public jwk = Some pk ->
  (rsa_oaep_encrypt pk (TextEncoder_encode (JSON_stringify (export_aes k))) (rng w)).1
  = Some c ->
  shareChannelKey channelId jwk w
  = (Ok (Base64.encode (map byte_to_Z c)),
     set_rng (rsa_oaep_encrypt pk (TextEncoder_encode (JSON_stringify (export_aes k)))
                (rng w)).2 w).
Proof.
  intros Hu Hc Hpk He.
  unfold shareChannelKey, try_catch, bind at 1, gets at 1. rewrite Hu.
  unfold bind at 1. rewrite (getChannelKey_hit _ _ _ Hc).
  unfold bind at 1, liftR at 1, exportKey.
  unfold bind at 1, liftR at 1, importKey. rewrite Hpk.
  cbn [fmap option_fmap option_map result_of_option].
  unfold bind. rewrite encryptWithPublicKey_eq, He. done.
Qed.

Lemma encryptMessage_cached message channelId w k :
  channelKeysCache w !! channelId = Some k ->
  encryptMessage message channelId w
  = match encryptWithSymmetricKey message k w with
    | (Ok e, w') => (Ok e, w')
    | (Throw e, w') => (Throw e, w')
    end.
Proof.
  intros Hc. unfold encryptMessage, try_catch, bind. rewrite (getChannelKey_hit _ _ _ Hc).
  by destruct (encryptWithSymmetricKey message k w) as [[e|e] w'].
Qed.

Lemma decryptMessage_cached c nonce channelId w k :
  channelKeysCache w !! channelId = Some k ->
  decryptMessage c nonce channelId w = (decryptWithSymmetricKey c nonce k, w).
Proof.
  intros Hc. unfold decryptMessage, try_catch, bind. rewrite (getChannelKey_hit _ _ _ Hc).
  unfold liftR. by destruct (decryptWithSymmetricKey c nonce k).
Qed.

(** Two processes that hold the same AES-GCM key for a channel: what one
    reads of a message of the other is the decoded encoding of the message. *)
Lemma message_decoded channelId k w1 w2 m :
  channelKeysCache w1 !! channelId = Some (AesGcmKey k) ->
  channelKeysCache w2 !! channelId = Some (AesGcmKey k) ->
  exists e w1',
    encryptMessage m channelId w1 = (Ok e, w1')
    /\ decryptMessage (ciphertext e) (iv e) channelId w2
       = (Ok (TextDecoder_decode (TextEncoder_encode m)), w2).
Proof.
  intros H1 H2.
  destruct (symmetric_roundtrip_decoded m k w1) as (e & w1' & He & Hd).
  exists e, w1'. rewrite (encryptMessage_cached _ _ _ _ H1), He.
  by rewrite (decryptMessage_cached _ _ _ _ _ H2), Hd.
Qed.

Lemma message_roundtrip channelId k w1 w2 m :
  channelKeysCache w1 !! channelId = Some (AesGcmKey k) ->
  channelKeysCache w2 !! channelId = Some (AesGcmKey k) ->
  Utf8.well_formed m = true -> Utf8.starts_with_bom m = false ->
  exists e w1',
    encryptMessage m channelId w1 = (Ok e, w1')
    /\ decryptMessage (ciphertext e) (iv e) channelId w2 = (Ok m, w2).
Proof.
  intros H1 H2 Hwf Hb.
  destruct (message_decoded channelId k w1 w2 m H1 H2) as (e & w1' & He & Hd).
  exists e, w1'. by rewrite He, Hd, TextDecoder_TextEncoder.
Qed.

End Flows.

Section ShareFlow.
Context `{W : WebCrypto}.

Lemma local_private_key_Some w sk :
  local_private_key w = Some sk ->
  exists jwk, (getPrivateKey w).1 = Ok (Some jwk) /\ import_rsa_private jwk = Some sk.
Proof.
  unfold local_private_key. destruct (getPrivateKey w).1 as [[jwk|]|]; try done.
  intros H. by exists jwk.
Qed.

(** The three steps of the share flow succeed and leave the same key in
    both caches. *)
Lemma share_flow_keys wA uA pkA skA wB uB pkB skB jwkB channelId :
  ready wA uA pkA skA ->
  ready wB uB pkB skB ->
  import_rsa_public jwkB = Some pkB ->
  exists wA1 blob wA2 wB1 k,
    generateChannelKey channelId wA = (Ok true, wA1)
    /\ shareChannelKey channelId jwkB wA1 = (Ok blob, wA2)
    /\ importSharedChannelKey blob channelId wB = (Ok true, wB1)
    /\ channelKeysCache wA2 !! channelId = Some (AesGcmKey k)
    /\ channelKeysCache wB1 !! channelId = Some (AesGcmKey k).
Proof.
  intros (HuA & HpkA & HskA & (gA & gA' & HgenA) & (blobsA & HstA) & HinitA)
         (HuB & HpkB & HskB & (gB & gB' & HgenB) & (blobsB & HstB) & HinitB) HjB.
  destruct (local_private_key_Some _ _ HskA) as (jA & HjA & _).
  destruct (local_private_key_Some _ _ HskB) as (jB & HgetB & HimpB).
  set (k := (aes_generateKey 256 (rng wA)).1).
  set (text := JSON_stringify (export_aes k)).
  destruct (exported_key_text (rng wA)) as [Hlen Hdec]. fold k text in Hlen, Hdec.
  (* A creates the channel key *)
  destruct (rsa_oaep_correct _ _ _ _ _ (aes_generateKey 256 (rng wA)).2 HgenA Hlen)
    as (cA & HcA & _).
  pose proof (generateChannelKey_run channelId wA uA jA pkA blobsA
                HuA HjA HpkA HstA HinitA cA HcA) as Hgen.
  set (wA1 := set_channelKeysCache _ _) in Hgen.
  assert (HcacheA1 : channelKeysCache wA1 !! channelId = Some (AesGcmKey k)).
  { subst wA1. cbn. by rewrite lookup_insert_eq. }
  (* A wraps it for B *)
  destruct (rsa_oaep_correct _ _ _ _ _ (rng wA1) HgenB Hlen) as (cB & HcB & HdB).
  pose proof (shareChannelKey_run channelId jwkB wA1 uA k pkB cB HuA HcacheA1 HjB HcB)
    as Hshare.
  set (wA2 := set_rng _ wA1) in Hshare.
  assert (HcacheA2 : channelKeysCache wA2 !! channelId = Some (AesGcmKey k)) by done.
  (* B unwraps it *)
  assert (Hunwrap : decryptWithPrivateKey (Base64.encode (map byte_to_Z cB))
                      (RsaPrivateKey skB) = Ok text).
  { by rewrite decryptWithPrivateKey_eq, HdB, Hdec. }
  pose proof (importSharedChannelKey_run _ channelId wB uB jB skB text (export_aes k) k
                blobsB HuB HgetB HimpB Hunwrap (JSON_parse_stringify _)
                (import_export_aes k) HstB HinitB) as Himport.
  set (wB1 := set_channelKeysCache _ _) in Himport.
  assert (HcacheB1 : channelKeysCache wB1 !! channelId = Some (AesGcmKey k)).
  { subst wB1. cbn. by rewrite lookup_insert_eq. }
  exists wA1, (Base64.encode (map byte_to_Z cB)), wA2, wB1, k.
  split; [exact Hgen|]. split; [exact Hshare|]. split; [exact Himport|]. by split.
Qed.

Theorem share_flow wA uA pkA skA wB uB pkB skB jwkB channelId :
  ready wA uA pkA skA ->
  ready wB uB pkB skB ->
  import_rsa_public jwkB = Some pkB ->
  exists wA1 blob wA2 wB1 key,
    generateChannelKey channelId wA = (Ok true, wA1)
    /\ shareChannelKey channelId jwkB wA1 = (Ok blob, wA2)
    /\ importSharedChannelKey blob channelId wB = (Ok true, wB1)
    /\ getChannelKey channelId wA2 = (Ok (Some key), wA2)
    /\ getChannelKey channelId wB1 = (Ok (Some key), wB1)
    /\ forall m,
         Utf8.well_formed m = true -> Utf8.starts_with_bom m = false ->
         forall w1 w2,
           (w1 = wA2 \/ w1 = wB1) -> (w2 = wA2 \/ w2 = wB1) ->
           exists e w1',
             encryptMessage m channelId w1 = (Ok e, w1')
             /\ decryptMessage (ciphertext e) (iv e) channelId w2 = (Ok m, w2).
Proof.
  intros HA HB HjB.
  destruct (share_flow_keys _ _ _ _ _ _ _ _ _ channelId HA HB HjB)
    as (wA1 & blob & wA2 & wB1 & k & Hgen & Hshare & Himport & HcA & HcB).
  exists wA1, blob, wA2, wB1, (AesGcmKey k).
  split; [exact Hgen|]. split; [exact Hshare|]. split; [exact Himport|].
  split; [by apply getChannelKey_hit|]. split; [by apply getChannelKey_hit|].
  intros m Hwf Hb w1 w2 [-> | ->] [-> | ->]; by apply (message_roundtrip channelId k).
Qed.
End ShareFlow.

(** ** Failures of key resolution *)

Section Errors.
Context `{W : WebCrypto}.

Lemma retrieveData_stored key path w :
  (retrieveData key path w).1
  = match stored w path key with
    | Some d => if isInitialized w then Ok d
                else Throw (JsError "Storage adapter not initialized")
    | None =>
        match storageAdapter w, isInitialized w with
        | Some _, true => Throw (StorageError "Failed to retrieve file")
        | _, _ => Throw (JsError "Storage adapter not initialized")
        end
    end.
Proof.
  rewrite retrieveData_run. unfold stored, adapter_retrieve. cbn [fst].
  destruct (storageAdapter w) as [blobs|]; [|done].
  destruct (blobs !! (path, key)), (isInitialized w); done.
Qed.

Lemma loadChannelKey_fails w channelId :
  no_key_record w channelId \/ identity_unavailable w \/ unwrap_fails w channelId ->
  is_ok (loadChannelKey channelId w) = false.
Proof.
  unfold loadChannelKey, no_key_record, identity_unavailable, unwrap_fails,
    current_key_record, local_private_key.
  intros [Hn | [Hi | (r & sk & Hr & Hsk & Hd)]].
  - destruct (getPrivateKey w).1 as [[jwk|]|]; cbn [result_bind]; try done.
    destruct (importKey jwk true); cbn [result_bind]; [|done].
    rewrite retrieveData_stored, Hn.
    by destruct (storageAdapter w), (isInitialized w).
  - destruct (getPrivateKey w).1 as [[jwk|]|]; cbn [result_bind]; try done.
    unfold importKey. by rewrite Hi.
  - destruct (getPrivateKey w).1 as [[jwk|]|]; cbn [result_bind]; try done.
    unfold importKey. rewrite Hsk.
    cbn [fmap option_fmap option_map result_of_option result_bind].
    rewrite retrieveData_stored, Hr. destruct (isInitialized w); [|done].
    cbn [result_bind JSON_parse_EncryptionKeyReference].
    by destruct (decryptWithPrivateKey _ _).
Qed.

Lemma getChannelKey_unavailable channelId w :
  channelKeysCache w !! channelId = None ->
  is_ok (loadChannelKey channelId w) = false ->
  getChannelKey channelId w = (Ok None, w).
Proof.
  intros Hc Hl. rewrite (getChannelKey_miss _ _ Hc).
  by destruct (loadChannelKey channelId w).
Qed.

Theorem errors_collapsed channelId w :
  channelKeysCache w !! channelId = None ->
  no_key_record w channelId \/ identity_unavailable w \/ unwrap_fails w channelId ->
  getChannelKey channelId w = (Ok None, w)
  /\ (forall message,
        encryptMessage message channelId w
        = (Throw (JsError "Channel key not available"), w))
  /\ (forall ciphertext iv,
        decryptMessage ciphertext iv channelId w
        = (Throw (JsError "Channel key not available"), w)).
Proof.
  intros Hc Hcause.
  pose proof (getChannelKey_unavailable _ _ Hc (loadChannelKey_fails _ _ Hcause)) as Hg.
  split; [done|]. split; intros; unfold encryptMessage, decryptMessage, try_catch, bind;
    by rewrite Hg.
Qed.

Theorem hasChannelKey_probe channelId w :
  exists b key w',
    getChannelKey channelId w = (Ok key, w')
    /\ hasChannelKey channelId w = (Ok b, w')
    /\ (b = true <-> is_Some key)
    /\ (channelKeysCache w !! channelId = None ->
        no_key_record w channelId ->
        key = None /\ b = false /\ w' = w).
Proof.
  destruct (getChannelKey_returns channelId w) as (key & w' & Hg & _).
  exists (match key with Some _ => true | None => false end), key, w'.
  split; [done|]. split; [by rewrite hasChannelKey_run, Hg|]. split.
  - destruct key; split; try done; by intros [? ?].
  - intros Hc Hn.
    rewrite (getChannelKey_unavailable _ _ Hc) in Hg
      by (apply loadChannelKey_fails; by left).
    by injection Hg as <- <-.
Qed.
End Errors.

(** ** Loading and updating messages *)

Section Messages.
Context `{W : WebCrypto}.

Lemma loaded_batch_length channelId w ms ms' w' :
  loaded_batch channelId w ms ms' w' -> length ms' = length ms.
Proof. induction 1; cbn; congruence. Qed.

Lemma decryptLoaded_plain channelId m w :
  truthy (Message.iv m) = None -> decryptLoaded channelId m w = (Ok m, w).
Proof. intros H. unfold decryptLoaded, try_catch. by rewrite H. Qed.

Lemma decryptLoaded_encrypted channelId m iv w :
  truthy (Message.iv m) = Some iv ->
  decryptLoaded channelId m w
  = match decryptMessage (Message.content m) iv channelId w with
    | (Ok text, w') => (Ok (Message.with_content m text), w')
    | (Throw _, w') => (Ok (Message.with_content m cannot_decrypt), w')
    end.
Proof.
  intros H. unfold decryptLoaded, try_catch at 1. rewrite H. unfold bind at 1.
  by destruct (decryptMessage _ _ _ _) as [[text|e] w'].
Qed.

Lemma decryptLoaded_returns channelId m w :
  exists m' w', decryptLoaded channelId m w = (Ok m', w') /\ loaded_one channelId w m m' w'.
Proof.
  unfold loaded_one. destruct (truthy (Message.iv m)) as [iv|] eqn:Hiv.
  - rewrite (decryptLoaded_encrypted _ _ _ _ Hiv).
    destruct (decryptMessage _ _ _ w) as [[text|e] w'] eqn:Hd; by eexists _, _.
  - rewrite (decryptLoaded_plain _ _ _ Hiv). by eexists _, _.
Qed.

Lemma decrypt_batch channelId ms w :
  exists ms' w',
    Promise_all_map (decryptLoaded channelId) ms w = (Ok ms', w')
    /\ loaded_batch channelId w ms ms' w'.
Proof.
  revert w. induction ms as [|m ms IH]; intros w.
  - exists [], w. split; [done|constructor].
  - destruct (decryptLoaded_returns channelId m w) as (m' & w1 & Hm & Hl).
    destruct (IH w1) as (ms' & w2 & Hms & Hls).
    exists (m' :: ms'), w2. split; [|by econstructor].
    cbn [Promise_all_map]. unfold bind at 1. rewrite Hm.
    unfold bind at 1. by rewrite Hms.
Qed.

Theorem fetchMessages_batch channelId w stored_messages w1 :
  retrieveMessages channelId w = (Ok stored_messages, w1) ->
  exists out w2,
    fetchMessages channelId w = (Ok out, set_messages out w2)
    /\ loaded_batch channelId w1 (sort_by_timestamp stored_messages) out w2.
Proof.
  intros H1.
  destruct (decrypt_batch channelId (sort_by_timestamp stored_messages) w1)
    as (out & w2 & Hout & Hl).
  exists out, w2. split; [|done].
  unfold fetchMessages, try_catch. unfold bind at 1.
  unfold retrieveMessages, bind at 1 in H1.
  destruct (listData _ w) as [[keys|e] w0]; [|done].
  unfold bind at 1. rewrite H1. unfold bind at 1. rewrite Hout.
  unfold bind, modify, ret. done.
Qed.

Lemma length_insert_by_timestamp m l :
  length (insert_by_timestamp m l) = S (length l).
Proof.
  induction l as [|x l IH]; [reflexivity|].
  cbn [insert_by_timestamp]. destruct (Message.timestamp m <=? Message.timestamp x).
  - reflexivity.
  - cbn [length]. by rewrite IH.
Qed.

Lemma length_sort_by_timestamp l : length (sort_by_timestamp l) = length l.
Proof.
  induction l as [|m l IH]; [reflexivity|].
  cbn [sort_by_timestamp foldr]. rewrite length_insert_by_timestamp.
  fold (sort_by_timestamp l). by rewrite IH.
Qed.

(** ** [decryptMessage] on a record without [iv]

    A caller that passes the absent field of such a record passes
    [undefined]; [atob] reads it as the text [undefined], which is not
    base64. *)

Lemma atob_undefined :
  Base64.atob (js "undefined") = Throw (DOMException "InvalidCharacterError").
Proof. reflexivity. Qed.

Lemma decryptWithSymmetricKey_undefined content key :
  exists e, decryptWithSymmetricKey content (js "undefined") key = Throw e.
Proof.
  unfold decryptWithSymmetricKey.
  destruct (base64ToArrayBuffer content) as [encryptedBuffer|e]; cbn [result_bind].
  - unfold base64ToArrayBuffer at 1. rewrite atob_undefined. cbn [result_bind].
    by eexists.
  - by eexists.
Qed.

Lemma decryptMessage_undefined content channelId w :
  exists e w', decryptMessage content (js "undefined") channelId w = (Throw e, w').
Proof.
  unfold decryptMessage, try_catch, bind.
  destruct (getChannelKey_returns channelId w) as (key & w' & -> & _).
  destruct key as [channelKey|].
  - unfold liftR.
    destruct (decryptWithSymmetricKey_undefined content channelKey) as (e & ->).
    cbn. by eexists _, _.
  - cbn. by eexists _, _.
Qed.

Lemma encode_nonempty a l : Base64.encode (a :: l) <> [].
Proof. unfold Base64.encode. by destruct l as [|b [|c r]]. Qed.

Lemma truthy_nonce (r0 : list byte) :
  length r0 = 12%nat ->
  truthy (Some (Base64.encode (map byte_to_Z r0))) = Some (Base64.encode (map byte_to_Z r0)).
Proof.
  destruct r0 as [|b r0]; [done|]. intros _. cbn [map].
  pose proof (encode_nonempty (byte_to_Z b) (map byte_to_Z r0)) as H.
  by destruct (Base64.encode _).
Qed.

(** What [storeUpdatedMessage] writes for a message that was encrypted
    with the nonce [r0]: a new ciphertext, made with the next nonce of the
    random source, next to the old [iv]. *)
Lemma storeUpdatedMessage_run messageId m updated channelId w k r0 blobs :
  Message.iv m = Some (Base64.encode (map byte_to_Z r0)) ->
  length r0 = 12%nat ->
  channelKeysCache w !! channelId = Some (AesGcmKey k) ->
  storageAdapter w = Some blobs ->
  isInitialized w = true ->
  exists c,
    aes_gcm_encrypt k (rng_take 12 (rng w)) (TextEncoder_encode (Message.content m))
    = Some c
    /\ storeUpdatedMessage messageId m updated channelId w
       = (Ok ((StoragePaths.MESSAGES ++ js "/" ++ channelId) ++ js "/"
              ++ (messageId ++ js ".json")),
          set_storageAdapter
            (Some (<[(StoragePaths.MESSAGES ++ js "/" ++ channelId,
                      messageId ++ js ".json") :=
                     JsonMessage
                       (Message.with_content updated
                          (Base64.encode (map byte_to_Z c)))]> blobs))
            (set_rng (rng_drop 12 (rng w)) w)).
Proof.
  intros Hiv Hr0 Hc Hst Hinit.
  destruct (encryptWithSymmetricKey_eq (Message.content m) k w) as (c & Hc' & He).
  exists c. split; [done|].
  unfold storeUpdatedMessage. rewrite Hiv, truthy_nonce by done.
  unfold bind at 1. unfold bind at 1.
  rewrite (encryptMessage_cached _ _ _ _ Hc), He.
  unfold ret at 1. rewrite storeData_run. cbn [storageAdapter isInitialized set_rng].
  by rewrite Hst, Hinit.
Qed.
End Messages.

Section Reactions.
Context `{W : WebCrypto}.

Lemma stale_record_intro w channelId messageId k pt c r0 r1 m blobs :
  channelKeysCache w !! channelId = Some (AesGcmKey k) ->
  length r0 = 12%nat -> length r1 = 12%nat ->
  aes_gcm_encrypt k r1 pt = Some c ->
  Message.iv m = Some (Base64.encode (map byte_to_Z r0)) ->
  storageAdapter w
  = Some (<[(StoragePaths.MESSAGES ++ js "/" ++ channelId, messageId ++ js ".json") :=
            JsonMessage (Message.with_content m (Base64.encode (map byte_to_Z c)))]>
            blobs) ->
  stale_record w channelId messageId c r0 r1.
Proof.
  intros Hc Hr0 Hr1 He Hiv Hst.
  exists (Message.with_content m (Base64.encode (map byte_to_Z c))).
  split; [unfold stored; by rewrite Hst, lookup_insert_eq|].
  split; [apply arrayBufferToBase64_eq|].
  exists (Base64.encode (map byte_to_Z r0)).
  split; [apply arrayBufferToBase64_eq|]. split; [done|].
  intros Hne.
  assert (Hd : decryptMessage (Base64.encode (map byte_to_Z c))
                 (Base64.encode (map byte_to_Z r0)) channelId w
               = (Throw (DOMException "OperationError"), w)).
  { rewrite (decryptMessage_cached _ _ _ _ _ Hc), decryptWithSymmetricKey_eq.
    by rewrite (aes_gcm_nonce k r1 r0 pt c Hr1 Hr0 Hne He). }
  split; [exact Hd|].
  rewrite (decryptLoaded_encrypted _ _ (Base64.encode (map byte_to_Z r0))).
  - cbn [Message.content Message.with_content]. by rewrite Hd.
  - cbn [Message.iv Message.with_content]. rewrite Hiv. by apply truthy_nonce.
Qed.

Theorem reaction_reencrypts w u channelId messageId emoji index m r0 k blobs :
  user (authState w) = Some u ->
  truthy (currentChannelId w) = Some channelId ->
  list_find (fun m => Message.id m = messageId) (messages w) = Some (index, m) ->
  Message.iv m = Some (Base64.encode (map byte_to_Z r0)) ->
  length r0 = 12%nat ->
  channelKeysCache w !! channelId = Some (AesGcmKey k) ->
  storageAdapter w = Some blobs ->
  isInitialized w = true ->
  let r1 := rng_take 12 (rng w) in
  exists c,
    aes_gcm_encrypt k r1 (TextEncoder_encode (Message.content m)) = Some c
    /\ (find (is_reaction_of u emoji) (default [] (Message.reactions m)) = None ->
        exists w',
          addReaction messageId emoji w = (Ok true, w')
          /\ stale_record w' channelId messageId c r0 r1)
    /\ (exists w',
          removeReaction messageId emoji w = (Ok true, w')
          /\ stale_record w' channelId messageId c r0 r1).
Proof.
  intros Hu Hch Hfind Hiv Hr0 Hc Hst Hinit r1.
  assert (Hrun := fun updated =>
    storeUpdatedMessage_run messageId m updated channelId w k r0 blobs
      Hiv Hr0 Hc Hst Hinit).
  destruct (Hrun m) as (c & Hc' & _). exists c. split; [done|]. split.
  - intros Hnone. unfold addReaction, try_catch.
    unfold bind at 1, gets at 1. unfold bind at 1, gets at 1. rewrite Hu, Hch.
    unfold bind at 1, gets at 1. rewrite Hfind, Hnone.
    destruct (Hrun (Message.with_reactions m
                      (default [] (Message.reactions m)
                       ++ [ {| Reaction.emoji := emoji; Reaction.userId := User.id u;
                               Reaction.userName := User.name u |} ])))
      as (c2 & Hc2 & Hs).
    assert (c2 = c) as -> by (fold r1 in Hc2, Hc'; congruence).
    unfold bind at 1. rewrite Hs. unfold bind, modify, ret.
    eexists. split; [done|].
    eapply (stale_record_intro _ _ _ k _ c r0 r1
              (Message.with_reactions m _) blobs); try done;
      apply length_rng_take.
  - unfold removeReaction, try_catch.
    unfold bind at 1, gets at 1. unfold bind at 1, gets at 1. rewrite Hu, Hch.
    unfold bind at 1, gets at 1. rewrite Hfind.
    destruct (Hrun (Message.with_reactions m
                      (List.filter (fun r => negb (is_reaction_of u emoji r))
                         (default [] (Message.reactions m)))))
      as (c2 & Hc2 & Hs).
    assert (c2 = c) as -> by (fold r1 in Hc2, Hc'; congruence).
    unfold bind at 1. rewrite Hs. unfold bind, modify, ret.
    eexists. split; [done|].
    eapply (stale_record_intro _ _ _ k _ c r0 r1
              (Message.with_reactions m _) blobs); try done;
      apply length_rng_take.
Qed.
End Reactions.

(** ** Editing and deleting messages *)


Section EditingLemmas.
Context `{W : WebCrypto}.

Lemma editMessage_run messageId newContent w u channelId index m k blobs :
  user (authState w) = Some u ->
  truthy (currentChannelId w) = Some channelId ->
  list_find (fun m => Message.id m = messageId) (messages w) = Some (index, m) ->
  Message.senderId m = User.id u ->
  channelKeysCache w !! channelId = Some (AesGcmKey k) ->
  storageAdapter w = Some blobs ->
  isInitialized w = true ->
  exists c,
    aes_gcm_encrypt k (rng_take 12 (rng w)) (TextEncoder_encode newContent) = Some c
    /\ let record :=
         edited_message m (Base64.encode (map byte_to_Z c))
           (Base64.encode (map byte_to_Z (rng_take 12 (rng w)))) in
       editMessage messageId newContent w
       = (Ok true,
          set_messages (<[index := Message.with_content record newContent]> (messages w))
            (set_storageAdapter
               (Some (<[(StoragePaths.MESSAGES ++ js "/" ++ channelId,
                         messageId ++ js ".json") := JsonMessage record]> blobs))
               (set_rng (rng_drop 12 (rng w)) w))).
Proof.
  intros Hu Hch Hfind Hsender Hc Hst Hinit.
  destruct (encryptWithSymmetricKey_eq newContent k w) as (c & Hc' & He).
  exists c. split; [done|]. intros record.
  unfold editMessage, try_catch.
  unfold bind at 1, gets at 1. unfold bind at 1, gets at 1. rewrite Hu, Hch.
  unfold bind at 1, gets at 1. rewrite Hfind.
  rewrite bool_decide_true by done. cbn [negb].
  unfold bind at 1. rewrite (encryptMessage_cached _ _ _ _ Hc), He.
  unfold bind at 1. rewrite storeData_run. cbn [storageAdapter isInitialized set_rng].
  rewrite Hst, Hinit. reflexivity.
Qed.

(** What [editMessage] stores is what it shows: the loader of
    [fetchMessages] reads the new content from the stored record. *)
Lemma edited_record_loads channelId m k nonce c newContent w :
  channelKeysCache w !! channelId = Some (AesGcmKey k) ->
  length nonce = 12%nat ->
  aes_gcm_encrypt k nonce (TextEncoder_encode newContent) = Some c ->
  Utf8.well_formed newContent = true -> Utf8.starts_with_bom newContent = false ->
  let record :=
    edited_message m (Base64.encode (map byte_to_Z c)) (Base64.encode (map byte_to_Z nonce)) in
  decryptLoaded channelId record w = (Ok (Message.with_content record newContent), w).
Proof.
  intros Hc Hn He Hwf Hbom record.
  rewrite (decryptLoaded_encrypted _ _ (Base64.encode (map byte_to_Z nonce)))
    by (by apply truthy_nonce).
  cbn [record edited_message Message.content].
  rewrite (decryptMessage_cached _ _ _ _ _ Hc), decryptWithSymmetricKey_eq.
  destruct (aes_gcm_correct k nonce (TextEncoder_encode newContent) Hn) as (c' & Hc' & Hd).
  assert (c' = c) as -> by congruence. rewrite Hd.
  by rewrite TextDecoder_TextEncoder.
Qed.

Lemma editMessage_refused_run messageId newContent w :
  match user (authState w), truthy (currentChannelId w) with
  | Some u, Some _ =>
      match list_find (fun m => Message.id m = messageId) (messages w) with
      | Some (_, m) => Message.senderId m <> User.id u
      | None => True
      end
  | _, _ => True
  end ->
  editMessage messageId newContent w = (Ok false, w).
Proof.
  intros H. unfold editMessage, try_catch.
  unfold bind at 1, gets at 1. unfold bind at 1, gets at 1.
  destruct (user (authState w)) as [u|]; [|done].
  destruct (truthy (currentChannelId w)) as [channelId|]; [|done].
  unfold bind at 1, gets at 1.
  destruct (list_find _ (messages w)) as [[index m]|]; [|done].
  by rewrite bool_decide_false.
Qed.

Lemma deleteMessage_run messageId w u channelId m blobs :
  user (authState w) = Some u ->
  truthy (currentChannelId w) = Some channelId ->
  find (fun m => bool_decide (Message.id m = messageId)) (messages w) = Some m ->
  Message.senderId m = User.id u ->
  storageAdapter w = Some blobs ->
  isInitialized w = true ->
  deleteMessage messageId w
  = (Ok true,
     set_messages
       (List.filter (fun m => negb (bool_decide (Message.id m = messageId))) (messages w))
       (set_storageAdapter
          (Some (<[(StoragePaths.MESSAGES ++ js "/" ++ channelId, messageId ++ js ".json") :=
                   JsonMessage (Message.with_content m message_deleted)]> blobs))
          w)).
Proof.
  intros Hu Hch Hfind Hsender Hst Hinit.
  unfold deleteMessage, try_catch.
  unfold bind at 1, gets at 1. unfold bind at 1, gets at 1. rewrite Hu, Hch.
  unfold bind at 1, gets at 1. rewrite Hfind.
  rewrite bool_decide_true by done. cbn [negb].
  unfold bind at 1. rewrite storeData_run. rewrite Hst, Hinit. reflexivity.
Qed.

Lemma deleteMessage_refused_run messageId w :
  match user (authState w), truthy (currentChannelId w) with
  | Some u, Some _ =>
      match find (fun m => bool_decide (Message.id m = messageId)) (messages w) with
      | Some m => Message.senderId m <> User.id u
      | None => True
      end
  | _, _ => True
  end ->
  deleteMessage messageId w = (Ok false, w).
Proof.
  intros H. unfold deleteMessage, try_catch.
  unfold bind at 1, gets at 1. unfold bind at 1, gets at 1.
  destruct (user (authState w)) as [u|]; [|done].
  destruct (truthy (currentChannelId w)) as [channelId|]; [|done].
  unfold bind at 1, gets at 1.
  destruct (find _ (messages w)) as [m|]; [|done].
  by rewrite bool_decide_false.
Qed.

(** The text that replaces the content of a deleted message is not base64:
    [decryptMessage] throws on it, with any [iv], in any state. *)
Lemma atob_message_deleted :
  Base64.atob message_deleted = Throw (DOMException "InvalidCharacterError").
Proof. reflexivity. Qed.

Lemma decryptMessage_message_deleted iv channelId w :
  exists e w', decryptMessage message_deleted iv channelId w = (Throw e, w').
Proof.
  unfold decryptMessage, try_catch, bind.
  destruct (getChannelKey_returns channelId w) as (key & w' & -> & _).
  destruct key as [channelKey|].
  - unfold liftR, decryptWithSymmetricKey, base64ToArrayBuffer.
    rewrite atob_message_deleted. cbn. by eexists _, _.
  - cbn. by eexists _, _.
Qed.

Lemma deleted_record_loads channelId m w :
  exists w',
    decryptLoaded channelId (Message.with_content m message_deleted) w
    = (Ok (Message.with_content m
             match truthy (Message.iv m) with
             | Some _ => cannot_decrypt
             | None => message_deleted
             end), w').
Proof.
  destruct (truthy (Message.iv m)) as [iv|] eqn:Hiv.
  - rewrite (decryptLoaded_encrypted _ _ iv) by done.
    cbn [Message.content Message.with_content].
    destruct (decryptMessage_message_deleted iv channelId w) as (e & w' & ->).
    by exists w'.
  - rewrite decryptLoaded_plain by done. by exists w.
Qed.

(** [messages.find(p)] is the element at [messages.findIndex(p)]. *)
Lemma find_list_find {A} (P : A -> Prop) `{!forall x, Decision (P x)} (l : list A) :
  find (fun x => bool_decide (P x)) l = snd <$> list_find P l.
Proof.
  induction l as [|x l IH]; [done|]. cbn [find list_find].
  destruct (decide (P x)) as [Hx|Hx].
  - by rewrite bool_decide_true.
  - rewrite bool_decide_false by done. rewrite IH. by destruct (list_find P l) as [[i y]|].
Qed.

(** ** What [fetchMessages] returns for a stored record *)

Lemma listData_run path w :
  listData path w
  = (match storageAdapter w, isInitialized w with
     | Some blobs, true => Ok (adapter_list path blobs)
     | _, _ => Throw (JsError "Storage adapter not initialized")
     end, w).
Proof.
  unfold listData. by destruct (storageAdapter w), (isInitialized w).
Qed.

Lemma retrieveMessage_run channelId key w :
  retrieveMessage channelId key w
  = (result_bind (retrieveData key (StoragePaths.MESSAGES ++ js "/" ++ channelId) w).1
       JSON_parse_Message, w).
Proof.
  unfold retrieveMessage, bind. rewrite retrieveData_run. cbn [fst].
  by destruct (match storageAdapter w with Some _ => _ | None => _ end).
Qed.

Lemma retrieve_batch_frame channelId keys w :
  (Promise_all_map (retrieveMessage channelId) keys w).2 = w.
Proof.
  induction keys as [|key keys IH]; [done|].
  cbn [Promise_all_map]. unfold bind at 1. rewrite retrieveMessage_run.
  destruct (result_bind _ _) as [m|e]; [|done].
  unfold bind at 1.
  destruct (Promise_all_map (retrieveMessage channelId) keys w) as [[l|e] w1]; by cbn in *.
Qed.

Lemma retrieveMessages_frame channelId w : (retrieveMessages channelId w).2 = w.
Proof.
  unfold retrieveMessages, bind. rewrite listData_run.
  destruct (match storageAdapter w with Some _ => _ | None => _ end) as [keys|e]; [|done].
  pose proof (retrieve_batch_frame channelId keys w) as H.
  by destruct (Promise_all_map _ keys w) as [[l|e] w1].
Qed.

(** When the first phase of [fetchMessages] throws, [fetchMessages] returns
    no message and changes nothing. *)
Lemma fetchMessages_throw channelId w e w1 :
  retrieveMessages channelId w = (Throw e, w1) ->
  fetchMessages channelId w = (Ok [], w).
Proof.
  intros Hr. pose proof (retrieveMessages_frame channelId w) as Hframe.
  rewrite Hr in Hframe. cbn [snd] in Hframe. subst w1.
  unfold fetchMessages, try_catch. unfold retrieveMessages in Hr.
  unfold bind at 1 in Hr. unfold bind at 1.
  destruct (listData _ w) as [[keys|e0] w0]; [|by injection Hr as <- <-].
  unfold bind at 1. by rewrite Hr.
Qed.

Lemma elem_of_insert_by_timestamp x m l :
  x ∈ insert_by_timestamp m l <-> x = m \/ x ∈ l.
Proof.
  induction l as [|y l IH]; cbn [insert_by_timestamp].
  - rewrite list_elem_of_singleton, elem_of_nil. tauto.
  - destruct (Message.timestamp m <=? Message.timestamp y).
    + by rewrite elem_of_cons.
    + rewrite !elem_of_cons, IH. tauto.
Qed.

Lemma elem_of_sort_by_timestamp x l : x ∈ sort_by_timestamp l <-> x ∈ l.
Proof.
  induction l as [|m l IH]; [done|].
  cbn [sort_by_timestamp foldr]. rewrite elem_of_insert_by_timestamp.
  fold (sort_by_timestamp l). rewrite IH, elem_of_cons. tauto.
Qed.

Lemma loaded_batch_member channelId w ms out w2 d :
  loaded_batch channelId w ms out w2 -> d ∈ ms ->
  exists m' wa wb, m' ∈ out /\ loaded_one channelId wa d m' wb.
Proof.
  induction 1 as [|w m m' w1 ms ms' w2 Hone Hbatch IH]; intros Hin.
  - by apply elem_of_nil in Hin.
  - apply elem_of_cons in Hin as [->|Hin].
    + exists m', w, w1. split; [left|done].
    + destruct (IH Hin) as (x & wa & wb & Hx & Hl). exists x, wa, wb. split; [by right|done].
Qed.

(** A retrieved record comes back from [fetchMessages], loaded. *)
Lemma fetchMessages_member channelId w l w1 d :
  retrieveMessages channelId w = (Ok l, w1) ->
  d ∈ l ->
  exists out w2 m' wa wb,
    fetchMessages channelId w = (Ok out, set_messages out w2)
    /\ m' ∈ out /\ loaded_one channelId wa d m' wb.
Proof.
  intros Hr Hin.
  destruct (fetchMessages_batch channelId w l w1 Hr) as (out & w2 & Hf & Hb).
  apply elem_of_sort_by_timestamp in Hin.
  destruct (loaded_batch_member _ _ _ _ _ _ Hb Hin) as (m' & wa & wb & Hm' & Hone).
  by exists out, w2, m', wa, wb.
Qed.

Lemma loaded_one_deleted channelId wa m m' wb :
  loaded_one channelId wa (Message.with_content m message_deleted) m' wb ->
  m' = Message.with_content m
         match truthy (Message.iv m) with
         | Some _ => cannot_decrypt
         | None => message_deleted
         end.
Proof.
  unfold loaded_one. cbn [Message.iv Message.content Message.with_content].
  destruct (truthy (Message.iv m)) as [iv|]; [|by intros [-> _]].
  destruct (decryptMessage_message_deleted iv channelId wa) as (e & w' & ->).
  by intros [-> _].
Qed.

Lemma loaded_one_decryptLoaded channelId w m m' w' :
  loaded_one channelId w m m' w' <-> decryptLoaded channelId m w = (Ok m', w').
Proof.
  unfold loaded_one. destruct (truthy (Message.iv m)) as [iv|] eqn:Hiv.
  - rewrite (decryptLoaded_encrypted _ _ iv) by done.
    destruct (decryptMessage _ iv channelId w) as [[text|e] w1];
      split; (intros [-> ->] || intros [= <- <-]); done.
  - rewrite decryptLoaded_plain by done. split; (intros [-> ->] || intros [= <- <-]); done.
Qed.

Lemma loaded_batch_hit channelId k w ms out w2 :
  channelKeysCache w !! channelId = Some k ->
  loaded_batch channelId w ms out w2 ->
  w2 = w /\ Forall2 (fun m m' => decryptLoaded channelId m w = (Ok m', w)) ms out.
Proof.
  intros Hc. induction 1 as [|w m m' w1 ms ms' w2 Hone Hbatch IH]; [by split|].
  assert (w1 = w) as ->.
  { unfold loaded_one in Hone. destruct (truthy (Message.iv m)) as [iv|]; [|by destruct Hone].
    rewrite (decryptMessage_cached _ _ _ _ _ Hc) in Hone.
    by destruct (decryptWithSymmetricKey _ _ _), Hone. }
  destruct (IH Hc) as [-> Hall]. split; [done|].
  constructor; [by apply loaded_one_decryptLoaded|done].
Qed.

(** With the key of the channel in the cache, a retrieved record comes back
    from [fetchMessages] as the loader reads it. *)
Lemma fetchMessages_member_hit channelId k w l w1 d m' :
  channelKeysCache w !! channelId = Some k ->
  retrieveMessages channelId w = (Ok l, w1) ->
  d ∈ l ->
  decryptLoaded channelId d w = (Ok m', w) ->
  exists out,
    fetchMessages channelId w = (Ok out, set_messages out w) /\ m' ∈ out.
Proof.
  intros Hc Hr Hin Hload.
  pose proof (retrieveMessages_frame channelId w) as Hframe.
  rewrite Hr in Hframe. cbn [snd] in Hframe. subst w1.
  destruct (fetchMessages_batch channelId w l w Hr) as (out & w2 & Hf & Hb).
  destruct (loaded_batch_hit _ _ _ _ _ _ Hc Hb) as [-> Hall].
  exists out. split; [done|].
  apply elem_of_sort_by_timestamp, list_elem_of_lookup in Hin as [i Hi].
  destruct (Forall2_lookup_l _ _ _ _ _ Hall Hi) as (x & Hx & Hlx).
  assert (x = m') as -> by congruence. by eapply list_elem_of_lookup_2.
Qed.

(** With the key of the channel in the cache, [fetchMessages] gives what
    was retrieved as the loader reads it. *)
Lemma fetchMessages_loaded_hit channelId k w l w1 :
  channelKeysCache w !! channelId = Some k ->
  retrieveMessages channelId w = (Ok l, w1) ->
  exists out,
    fetchMessages channelId w = (Ok out, set_messages out w)
    /\ Forall2 (fun m m' => decryptLoaded channelId m w = (Ok m', w))
         (sort_by_timestamp l) out.
Proof.
  intros Hc Hr.
  pose proof (retrieveMessages_frame channelId w) as Hframe.
  rewrite Hr in Hframe. cbn [snd] in Hframe. subst w1.
  destruct (fetchMessages_batch channelId w l w Hr) as (out & w2 & Hf & Hb).
  destruct (loaded_batch_hit _ _ _ _ _ _ Hc Hb) as [-> Hall]. by exists out.
Qed.

End EditingLemmas.




Definition breaks (a b : Message.t) : bool :=
  negb (bool_decide (Message.senderId b = Message.senderId a))
  || (5 * 60 * 1000 <? Message.timestamp b - Message.timestamp a).

Lemma breaks_false a b : breaks a b = false <-> same_group a b.
Proof.
  unfold breaks, same_group. rewrite orb_false_iff, negb_false_iff, bool_decide_eq_true.
  rewrite Z.ltb_ge. change (5 * 60 * 1000) with 300000. tauto.
Qed.

Lemma breaks_true a b : breaks a b = true <-> ~ same_group a b.
Proof. rewrite <- breaks_false. destruct (breaks a b); split; congruence. Qed.

(** The groups of a list, from its end. *)
Fixpoint groups_of (ms : list Message.t) : list (list Message.t) :=
  match ms with
  | [] => []
  | m :: rest =>
      match groups_of rest, head rest with
      | g :: gs, Some m' => if breaks m m' then [m] :: g :: gs else (m :: g) :: gs
      | _, _ => [[m]]
      end
  end.

(** The open group in front of the groups of the rest. *)
Definition join (p : Message.t) (current : list Message.t) (rest : list Message.t)
    : list (list Message.t) :=
  match groups_of rest, head rest with
  | g :: gs, Some m' => if breaks p m' then current :: g :: gs else (current ++ g) :: gs
  | _, _ => [current]
  end.

Lemma groups_of_cons m rest : groups_of (m :: rest) = join m [m] rest.
Proof. reflexivity. Qed.

Lemma join_nil p current : join p current [] = [current].
Proof. reflexivity. Qed.

Lemma join_cons p current m post :
  join p current (m :: post)
  = if breaks p m then current :: join m [m] post else join m (current ++ [m]) post.
Proof.
  unfold join at 1. rewrite groups_of_cons. cbn [head]. unfold join.
  destruct (groups_of post) as [|g gs], (head post) as [m'|];
    try (destruct (breaks p m); reflexivity).
  destruct (breaks m m'), (breaks p m); try reflexivity.
  by rewrite <- app_assoc.
Qed.

Lemma groupMessages_loop pre post groups current p :
  last pre = Some p -> current <> [] ->
  (let '(groups, currentGroup) :=
     fold_left
       (fun s '(index, item) =>
          (fun '(groups, currentGroup) message index =>
             if starts_new_group (pre ++ post) message index
             then ((if bool_decide (0 < length currentGroup)%nat
                    then groups ++ [currentGroup] else groups),
                   [message])
             else (groups, currentGroup ++ [message])) s item index)
       (imap (fun i => pair (length pre + i)%nat) post) (groups, current) in
   if bool_decide (0 < length currentGroup)%nat then groups ++ [currentGroup] else groups)
  = groups ++ join p current post.
Proof.
  revert pre groups current p. induction post as [|m post IH]; intros pre groups current p Hp Hc.
  - cbn. rewrite bool_decide_true; [done|]. destruct current; [done|cbn; lia].
  - cbn [imap fold_left].
    assert (Hstart : starts_new_group (pre ++ m :: post) m (length pre + 0)%nat = breaks p m).
    { destruct pre as [|x pre _] using rev_ind; [done|].
      rewrite last_snoc in Hp. injection Hp as ->.
      rewrite length_app. cbn [length]. replace (length pre + 1 + 0)%nat with (S (length pre)) by lia.
      cbn [starts_new_group]. rewrite <- app_assoc. cbn [app].
      rewrite lookup_app_r by lia. rewrite Nat.sub_diag. reflexivity. }
    rewrite Hstart.
    assert (Himap : imap ((fun i => pair (length pre + i)%nat) ∘ S) post
                    = imap (fun i => pair (length (pre ++ [m]) + i)%nat) post).
    { apply imap_ext. intros i x _. cbn. rewrite length_app. cbn. f_equal. lia. }
    rewrite Himap.
    replace (pre ++ m :: post) with ((pre ++ [m]) ++ post) by (by rewrite <- app_assoc).
    rewrite join_cons.
    destruct (breaks p m) eqn:Hb.
    + rewrite bool_decide_true by (destruct current; [done|cbn; lia]).
      rewrite (IH (pre ++ [m]) (groups ++ [current]) [m] m) by (by rewrite ?last_snoc).
      by rewrite <- app_assoc.
    + rewrite (IH (pre ++ [m]) groups (current ++ [m]) m)
        by (rewrite ?last_snoc; try done; by destruct current).
      reflexivity.
Qed.

Lemma groupMessages_groups_of ms : groupMessages ms = groups_of ms.
Proof.
  destruct ms as [|m ms]; [reflexivity|].
  unfold groupMessages, forEach. cbn [imap fold_left starts_new_group length].
  rewrite bool_decide_false by (cbn; lia).
  assert (Himap : imap (pair ∘ S) ms = imap (fun i => pair (length [m] + i)%nat) ms)
    by (by apply imap_ext).
  rewrite Himap.
  pose proof (groupMessages_loop [m] ms [] [m] m eq_refl) as H.
  cbn [app] in H. rewrite H by done. reflexivity.
Qed.

(** A group is a run of neighbours, and neighbouring groups are apart. *)
Fixpoint is_run (g : list Message.t) : Prop :=
  match g with
  | a :: (b :: _) as rest => same_group a b /\ is_run rest
  | _ => True
  end.

Fixpoint apart (gs : list (list Message.t)) : Prop :=
  match gs with
  | g1 :: (g2 :: _) as rest =>
      (forall a b, last g1 = Some a -> head g2 = Some b -> ~ same_group a b) /\ apart rest
  | _ => True
  end.

Lemma groups_of_spec ms :
  concat (groups_of ms) = ms
  /\ Forall (fun g => g <> []) (groups_of ms)
  /\ Forall is_run (groups_of ms)
  /\ apart (groups_of ms).
Proof.
  induction ms as [|m rest (Hc & Hn & Hr & Ha)]; [by repeat split|].
  cbn [groups_of]. destruct (groups_of rest) as [|g gs] eqn:Hg.
  - cbn in Hc. subst rest. by repeat constructor.
  - apply Forall_cons in Hn as [Hg0 Hn]. apply Forall_cons in Hr as [Hrg Hr].
    destruct g as [|m0 g]; [done|]. cbn in Hc. subst rest. cbn [head].
    destruct (breaks m m0) eqn:Hb.
    + split; [done|]. split; [by repeat constructor|]. split; [by repeat constructor|].
      split; [|done]. intros a b [= <-] [= <-]. by apply breaks_true.
    + split; [done|]. split; [by repeat constructor|]. split.
      * constructor; [|done]. split; [by apply breaks_false|done].
      * destruct gs as [|g2 gs]; [done|]. destruct Ha as [Ha1 Ha2]. split; [|done].
        intros a b Hl Hh. by apply (Ha1 a b).
Qed.

Lemma is_run_lookup g i a b :
  is_run g -> g !! i = Some a -> g !! S i = Some b -> same_group a b.
Proof.
  revert i. induction g as [|x g IH]; intros i Hr Ha Hb; [done|].
  destruct g as [|y g]; [done|]. destruct Hr as [Hxy Hr].
  destruct i as [|i]; [by simplify_eq/=|]. by apply (IH i).
Qed.

Lemma apart_lookup gs j g1 g2 a b :
  apart gs -> gs !! j = Some g1 -> gs !! S j = Some g2 ->
  last g1 = Some a -> head g2 = Some b -> ~ same_group a b.
Proof.
  revert j. induction gs as [|x gs IH]; intros j Ha H1 H2 Hl Hh; [done|].
  destruct gs as [|y gs]; [done|]. destruct Ha as [Hxy Ha].
  destruct j as [|j]; [simplify_eq/=; by apply Hxy|]. by apply (IH j).
Qed.

(** ** Sending messages *)

Section SendingLemmas.
Context `{W : WebCrypto} `{P : @Platform W}.

(** The message that [sendMessage] builds. *)
Definition sent_message (u : User.t) (random content_b64 iv_b64 : jsstring)
    (timestamp : Z) (channelId : jsstring) (parentId : option jsstring) : Message.t :=
  {| Message.id := js "msg-" ++ random;
     Message.content := content_b64;
     Message.iv := Some iv_b64;
     Message.senderId := User.id u;
     Message.senderName := User.name u;
     Message.timestamp := timestamp;
     Message.channelId := channelId;
     Message.parentId := parentId;
     Message.edited := None;
     Message.reactions := Some [];
     Message.replyCount := None |}.

(** The last step of [sendMessage]: the last message of the channel. *)
Definition channel_updated (channels : list Channel.t) (channelId : jsstring)
    (newMessage : Message.t) (blobs : gmap (jsstring * jsstring) Json)
    : list Channel.t * gmap (jsstring * jsstring) Json :=
  match list_find (fun c => Channel.id c = channelId) channels with
  | Some (channelIndex, channel) =>
      (<[channelIndex := Channel.with_lastMessage channel newMessage]> channels,
       <[(StoragePaths.CHANNELS, Channel.id channel ++ js ".json") :=
           JsonText (JSON_stringify_Channel (Channel.with_lastMessage channel newMessage))]>
         blobs)
  | None => (channels, blobs)
  end.

(** The step of [sendMessage] for a reply: the count of the parent. *)
Definition parent_updated (parentId : option jsstring) (messages : list Message.t)
    (channelId : jsstring) (blobs : gmap (jsstring * jsstring) Json)
    : list Message.t * gmap (jsstring * jsstring) Json :=
  match truthy parentId with
  | Some parentId =>
      match list_find (fun m => Message.id m = parentId) messages with
      | Some (parentMessageIndex, parent) =>
          let parentMessage :=
            with_replyCount parent (default 0 (Message.replyCount parent) + 1) in
          (<[parentMessageIndex := parentMessage]> messages,
           <[(StoragePaths.MESSAGES ++ js "/" ++ channelId,
              Message.id parent ++ js ".json") := JsonMessage parentMessage]> blobs)
      | None => (messages, blobs)
      end
  | None => (messages, blobs)
  end.

Lemma sendMessage_run random channels content channelId parentId w u k blobs :
  user (authState w) = Some u ->
  channelKeysCache w !! channelId = Some (AesGcmKey k) ->
  storageAdapter w = Some blobs ->
  isInitialized w = true ->
  exists c,
    aes_gcm_encrypt k (rng_take 12 (rng w)) (TextEncoder_encode content) = Some c
    /\ let newMessage :=
         sent_message u random (Base64.encode (map byte_to_Z c))
           (Base64.encode (map byte_to_Z (rng_take 12 (rng w)))) (now w) channelId parentId in
       let blobs1 :=
         <[(StoragePaths.MESSAGES ++ js "/" ++ channelId,
            Message.id newMessage ++ js ".json") := JsonMessage newMessage]> blobs in
       let '(messages2, blobs2) := parent_updated parentId (messages w) channelId blobs1 in
       sendMessage random channels content channelId parentId w
       = (Ok (Some newMessage, (channel_updated channels channelId newMessage blobs2).1),
          set_storageAdapter
            (Some (channel_updated channels channelId newMessage blobs2).2)
            (set_messages
               (if bool_decide (Some channelId = currentChannelId w)
                then messages2
                       ++ [Message.with_content newMessage
                             (TextDecoder_decode (TextEncoder_encode content))]
                else messages2)
               (set_rng (rng_drop 12 (rng w)) w))).
Proof.
  intros Hu Hc Hst Hinit.
  destruct (encryptWithSymmetricKey_eq content k w) as (c & Hc' & He).
  exists c. split; [done|]. intros newMessage blobs1.
  assert (Hd : aes_gcm_decrypt k (rng_take 12 (rng w)) c = Some (TextEncoder_encode content)).
  { destruct (aes_gcm_correct k (rng_take 12 (rng w)) (TextEncoder_encode content))
      as (c' & Hc2 & Hd); [apply length_rng_take|]. congruence. }
  unfold sendMessage, try_catch.
  unfold bind at 1, gets at 1. rewrite Hu.
  unfold bind at 1. rewrite (encryptMessage_cached _ _ _ _ Hc), He.
  unfold bind at 1, gets at 1. cbn [now set_rng ciphertext iv].
  unfold bind at 1. rewrite storeData_run. cbn [storageAdapter isInitialized set_rng].
  rewrite Hst, Hinit. unfold parent_updated.
  unfold bind at 1.
  destruct (truthy parentId) as [parent_id|].
  - unfold bind at 1, gets at 1. cbn [messages set_storageAdapter set_rng].
    destruct (list_find _ (messages w)) as [[parentMessageIndex parent]|].
    + unfold bind at 1. rewrite storeData_run.
      cbn [storageAdapter isInitialized set_storageAdapter set_messages set_rng].
      rewrite Hinit. unfold modify at 1.
      unfold bind at 1, gets at 1. cbn [currentChannelId set_storageAdapter set_messages set_rng].
      unfold bind at 1.
      destruct (bool_decide (Some channelId = currentChannelId w)).
      * unfold bind at 1.
        rewrite (decryptMessage_cached _ _ _ _ (AesGcmKey k)) by exact Hc.
        rewrite decryptWithSymmetricKey_eq, Hd.
        unfold appendMessage, modify. unfold channel_updated.
        destruct (list_find _ channels) as [[channelIndex channel]|]; [|reflexivity].
        unfold bind at 1. rewrite storeData_run.
        cbn [storageAdapter isInitialized set_storageAdapter set_messages set_rng].
        rewrite Hinit. reflexivity.
      * unfold ret at 1. unfold channel_updated.
        destruct (list_find _ channels) as [[channelIndex channel]|]; [|reflexivity].
        unfold bind at 1. rewrite storeData_run.
        cbn [storageAdapter isInitialized set_storageAdapter set_messages set_rng].
        rewrite Hinit. reflexivity.
    + unfold ret at 1.
      unfold bind at 1, gets at 1. cbn [currentChannelId set_storageAdapter set_messages set_rng].
      unfold bind at 1.
      destruct (bool_decide (Some channelId = currentChannelId w)).
      * unfold bind at 1.
        rewrite (decryptMessage_cached _ _ _ _ (AesGcmKey k)) by exact Hc.
        rewrite decryptWithSymmetricKey_eq, Hd.
        unfold appendMessage, modify. unfold channel_updated.
        destruct (list_find _ channels) as [[channelIndex channel]|]; [|reflexivity].
        unfold bind at 1. rewrite storeData_run.
        cbn [storageAdapter isInitialized set_storageAdapter set_messages set_rng].
        rewrite Hinit. reflexivity.
      * unfold ret at 1. unfold channel_updated.
        destruct (list_find _ channels) as [[channelIndex channel]|]; [|reflexivity].
        unfold bind at 1. rewrite storeData_run.
        cbn [storageAdapter isInitialized set_storageAdapter set_messages set_rng].
        rewrite Hinit. reflexivity.
  - unfold ret at 1.
    unfold bind at 1, gets at 1. cbn [currentChannelId set_storageAdapter set_messages set_rng].
    unfold bind at 1.
    destruct (bool_decide (Some channelId = currentChannelId w)).
    + unfold bind at 1.
      rewrite (decryptMessage_cached _ _ _ _ (AesGcmKey k)) by exact Hc.
      rewrite decryptWithSymmetricKey_eq, Hd.
      unfold appendMessage, modify. unfold channel_updated.
      destruct (list_find _ channels) as [[channelIndex channel]|]; [|reflexivity].
      unfold bind at 1. rewrite storeData_run.
      cbn [storageAdapter isInitialized set_storageAdapter set_messages set_rng].
      rewrite Hinit. reflexivity.
    + unfold ret at 1. unfold channel_updated.
      destruct (list_find _ channels) as [[channelIndex channel]|]; [|reflexivity].
      unfold bind at 1. rewrite storeData_run.
      cbn [storageAdapter isInitialized set_storageAdapter set_messages set_rng].
      rewrite Hinit. reflexivity.
Qed.

Lemma channels_path_messages channelId :
  StoragePaths.CHANNELS <> StoragePaths.MESSAGES ++ js "/" ++ channelId.
Proof. by intros [=]. Qed.

Lemma channels_path_encryption channelId :
  StoragePaths.CHANNELS <> StoragePaths.ENCRYPTION ++ js "/" ++ channelId.
Proof. by intros [=]. Qed.

Lemma encryption_path_messages channelId channelId' :
  StoragePaths.ENCRYPTION ++ js "/" ++ channelId
  <> StoragePaths.MESSAGES ++ js "/" ++ channelId'.
Proof. by intros [=]. Qed.

(** The last step of [sendMessage] writes under [channels] only. *)
Lemma channel_updated_lookup channels channelId' newMessage blobs path key :
  path <> StoragePaths.CHANNELS ->
  (channel_updated channels channelId' newMessage blobs).2 !! (path, key)
  = blobs !! (path, key).
Proof.
  intros Hne. unfold channel_updated.
  destruct (list_find _ channels) as [[i c]|]; [|done].
  cbn [snd]. apply lookup_insert_ne. congruence.
Qed.

Lemma sent_message_loads channelId u random k nonce c content timestamp parentId w :
  channelKeysCache w !! channelId = Some (AesGcmKey k) ->
  length nonce = 12%nat ->
  aes_gcm_encrypt k nonce (TextEncoder_encode content) = Some c ->
  let newMessage :=
    sent_message u random (Base64.encode (map byte_to_Z c))
      (Base64.encode (map byte_to_Z nonce)) timestamp channelId parentId in
  decryptLoaded channelId newMessage w
  = (Ok (Message.with_content newMessage
           (TextDecoder_decode (TextEncoder_encode content))), w).
Proof.
  intros Hc Hn He newMessage.
  rewrite (decryptLoaded_encrypted _ _ (Base64.encode (map byte_to_Z nonce)))
    by (by apply truthy_nonce).
  cbn [newMessage sent_message Message.content].
  rewrite (decryptMessage_cached _ _ _ _ _ Hc), decryptWithSymmetricKey_eq.
  destruct (aes_gcm_correct k nonce (TextEncoder_encode content) Hn) as (c' & Hc' & Hd).
  assert (c' = c) as -> by congruence. by rewrite Hd.
Qed.

Lemma sendMessage_fails random channels content channelId parentId w :
  user (authState w) = None
  \/ (channelKeysCache w !! channelId = None
      /\ (no_key_record w channelId \/ identity_unavailable w \/ unwrap_fails w channelId)) ->
  sendMessage random channels content channelId parentId w = (Ok (None, channels), w).
Proof.
  intros H. unfold sendMessage, try_catch. unfold bind at 1, gets at 1.
  destruct (user (authState w)) as [u|] eqn:Hu; [|done].
  destruct H as [H|[Hc Hcause]]; [done|].
  destruct (errors_collapsed channelId w Hc Hcause) as (_ & He & _).
  unfold bind at 1. by rewrite He.
Qed.

End SendingLemmas.

Section ChannelLemmas.
Context `{W : WebCrypto} `{P : @Platform W}.

(** The channel that [createChannel] builds. *)
Definition new_channel (u : User.t) (random name description : jsstring)
    (isPrivate : bool) (createdAt : Z) : Channel.t :=
  {| Channel.id := js "channel-" ++ random;
     Channel.name := name;
     Channel.description := Some description;
     Channel.isPrivate := isPrivate;
     Channel.members := [User.id u];
     Channel.createdBy := User.id u;
     Channel.createdAt := createdAt;
     Channel.lastMessage := None;
     Channel.pinnedMessages := Some [] |}.

Lemma generateChannelKey_returns channelId w :
  exists b, generateChannelKey channelId w = (Ok b, (generateChannelKey channelId w).2).
Proof.
  unfold generateChannelKey, try_catch.
  match goal with |- context [match ?m w with _ => _ end] => destruct (m w) as [[b|e] w'] end.
  - by exists b.
  - by exists false.
Qed.

Lemma createChannel_run random channels name description isPrivate w u blobs :
  user (authState w) = Some u ->
  storageAdapter w = Some blobs ->
  isInitialized w = true ->
  let newChannel := new_channel u random name description isPrivate (now w) in
  createChannel random channels name description isPrivate w
  = (Ok (Channel.id newChannel, newChannel :: channels),
     set_currentChannelId (Some (Channel.id newChannel))
       (generateChannelKey (Channel.id newChannel)
          (set_storageAdapter
             (Some (<[(StoragePaths.CHANNELS, Channel.id newChannel ++ js ".json") :=
                      JsonText (JSON_stringify_Channel newChannel)]> blobs)) w)).2).
Proof.
  intros Hu Hst Hinit newChannel.
  unfold createChannel, try_catch.
  unfold bind at 1, gets at 1. rewrite Hu.
  unfold bind at 1, gets at 1.
  unfold bind at 1. rewrite storeData_run, Hst, Hinit.
  unfold bind at 1.
  match goal with |- context [generateChannelKey ?c ?w1] =>
    destruct (generateChannelKey_returns c w1) as [b ->] end.
  reflexivity.
Qed.

(** ** Retrieving the records of a channel *)

(** ** [createChannel] *)

Lemma createChannel_ready random channels name description isPrivate w u pk sk :
  ready w u pk sk ->
  let newChannel := new_channel u random name description isPrivate (now w) in
  let k := (aes_generateKey 256 (rng w)).1 in
  exists c g blobs,
    storageAdapter w = Some blobs
    /\ createChannel random channels name description isPrivate w
       = (Ok (Channel.id newChannel, newChannel :: channels),
          set_currentChannelId (Some (Channel.id newChannel))
            (set_channelKeysCache
               (<[Channel.id newChannel := AesGcmKey k]> (channelKeysCache w))
               (set_storageAdapter
                  (Some (<[(key_record_path (Channel.id newChannel),
                            key_record_key (User.id u)) :=
                           JsonKeyReference
                             (keyReference_for u (Channel.id newChannel)
                                (Base64.encode (map byte_to_Z c)) (now w))]>
                         (<[(StoragePaths.CHANNELS, Channel.id newChannel ++ js ".json") :=
                              JsonText (JSON_stringify_Channel newChannel)]> blobs)))
                  (set_rng g w)))).
Proof.
  intros (Hu & Hpk & Hsk & (g0 & g0' & Hgen) & (blobs & Hst) & Hinit) newChannel k.
  destruct (local_private_key_Some _ _ Hsk) as (jwk & Hjwk & _).
  destruct (exported_key_text (rng w)) as [Hlen _].
  destruct (rsa_oaep_correct _ _ _ _ _ (aes_generateKey 256 (rng w)).2 Hgen Hlen)
    as (c & Hc & _).
  eexists c, _, blobs. split; [done|].
  rewrite (createChannel_run random channels name description isPrivate w u blobs)
    by done.
  cbv zeta. fold newChannel.
  set (blobs1 := <[(StoragePaths.CHANNELS, Channel.id newChannel ++ js ".json") :=
                     JsonText (JSON_stringify_Channel newChannel)]> blobs).
  set (w1 := set_storageAdapter (Some blobs1) w).
  assert (Hjwk1 : (getPrivateKey w1).1 = Ok (Some jwk))
    by (by rewrite (getPrivateKey_frame w w1)).
  by rewrite (generateChannelKey_run (Channel.id newChannel) w1 u jwk pk blobs1
                Hu Hjwk1 Hpk eq_refl Hinit c Hc).
Qed.

Lemma generateChannelKey_no_public_key channelId w u :
  user (authState w) = Some u ->
  truthy (User.publicKey u) = None ->
  generateChannelKey channelId w
  = (Ok false, set_rng (aes_generateKey 256 (rng w)).2 w).
Proof.
  intros Hu Hpk. unfold generateChannelKey, try_catch.
  unfold bind at 1, gets at 1. rewrite Hu.
  unfold bind at 1, generateSymmetricKey at 1.
  destruct (aes_generateKey 256 (rng w)) as [k g] eqn:Hk. cbn [snd].
  unfold bind at 1, liftR at 1, exportKey at 1.
  unfold bind at 1. rewrite getPrivateKey_run.
  destruct (getPrivateKey (set_rng g w)).1 as [[jwk|]|e]; try done.
  by rewrite Hpk.
Qed.

End ChannelLemmas.

(** ** Files *)

(** A text of code units below 256 (the bytes of a file, as characters) is
    well formed, and each unit from 128 on takes two bytes of UTF-8. *)
Lemma latin1_well_formed s :
  Forall (fun c => 0 <= c < 256) s ->
  Utf8.well_formed s = true /\ Utf8.starts_with_bom s = false
  /\ length (Utf8.encode s)
     = (length s + length (List.filter (fun c : Z => (128 <=? c)%Z) s))%nat.
Proof.
  unfold Utf8.encode.
  induction 1 as [|c s Hc Hs (IH1 & IH2 & IH3)]; [done|].
  cbn [Utf8.well_formed Utf8.scalars Utf8.starts_with_bom flat_map List.filter].
  assert (Hl : Utf8.is_lead c = false).
  { unfold Utf8.is_lead. apply andb_false_iff. left. apply Z.leb_gt. lia. }
  assert (Ht : Utf8.is_trail c = false).
  { unfold Utf8.is_trail. apply andb_false_iff. left. apply Z.leb_gt. lia. }
  rewrite Hl, Ht. cbn [negb andb flat_map]. rewrite IH1. repeat split.
  - rewrite andb_true_r. apply andb_true_iff. split; [apply Z.leb_le | apply Z.ltb_lt]; lia.
  - apply Z.eqb_neq. unfold Utf8.bom. lia.
  - rewrite length_app, IH3. unfold Utf8.encode_scalar.
    destruct (Z.ltb_spec c 128) as [Hlt|Hge].
    + rewrite (proj2 (Z.leb_gt 128 c)) by lia. cbn [length]. lia.
    + rewrite (proj2 (Z.ltb_lt c 2048)) by lia.
      rewrite (proj2 (Z.leb_le 128 c)) by lia. cbn [length]. lia.
Qed.

Lemma fromCharCode_bytes (bs : list byte) :
  map String_fromCharCode (map byte_to_Z bs) = map byte_to_Z bs.
Proof.
  induction bs as [|b bs IH]; [done|]. cbn [map]. rewrite IH. f_equal.
  unfold String_fromCharCode. pose proof (byte_to_Z_range b). apply Z.mod_small. lia.
Qed.

Section FileLemmas.
Context `{W : WebCrypto} `{P : @Platform W}.

Lemma encryptFile_run file channelId w k :
  channelKeysCache w !! channelId = Some (AesGcmKey k) ->
  (length (File.bytes file) <= apply_arguments_limit)%nat ->
  exists c,
    aes_gcm_encrypt k (rng_take 12 (rng w))
      (TextEncoder_encode (map byte_to_Z (File.bytes file))) = Some c
    /\ encryptFile file channelId w
       = (Ok {| EncryptedFile.encryptedData := Base64.encode (map byte_to_Z c);
                EncryptedFile.iv := Base64.encode (map byte_to_Z (rng_take 12 (rng w)));
                EncryptedFile.metadata :=
                  JSON_stringify_metadata (File.name file) (File.type file)
                    (File.size file) |},
          set_rng (rng_drop 12 (rng w)) w).
Proof.
  intros Hc Hlen.
  destruct (encryptWithSymmetricKey_eq (map byte_to_Z (File.bytes file)) k w)
    as (c & Hc' & He).
  exists c. split; [done|].
  unfold encryptFile, try_catch. unfold bind at 1. rewrite (getChannelKey_hit _ _ _ Hc).
  unfold bind at 1, liftR at 1, String_fromCharCode_apply.
  rewrite decide_True by (by rewrite length_map).
  rewrite fromCharCode_bytes. unfold bind at 1. by rewrite He.
Qed.

Lemma decryptFile_run encryptedData iv metadata channelId w k :
  channelKeysCache w !! channelId = Some k ->
  decryptFile encryptedData iv metadata channelId w
  = (result_bind (decryptWithSymmetricKey encryptedData iv k) (fun decryptedData =>
     result_bind (JSON_parse_type metadata) (fun type =>
     Ok {| Blob.bytes := map byte_of_Z decryptedData; Blob.type := Blob_type type |})),
     w).
Proof.
  intros Hc. unfold decryptFile, try_catch. unfold bind at 1.
  rewrite (getChannelKey_hit _ _ _ Hc).
  unfold bind at 1, liftR at 1.
  destruct (decryptWithSymmetricKey encryptedData iv k) as [decryptedData|e]; [|done].
  unfold bind at 1, liftR at 1. cbn [result_bind].
  destruct (JSON_parse_type metadata) as [type|e]; [|done].
  cbn [result_bind]. unfold ret. do 3 f_equal. unfold charCodeAt.
  rewrite (for_upto_insert byte_of_Z) by (by rewrite ?length_replicate).
  by rewrite firstn_all, drop_ge, app_nil_r by (by rewrite length_replicate).
Qed.

End FileLemmas.

(** ** Signing in and out *)

Section AuthLemmas.

Context `{W : WebCrypto} `{P : @Platform W}.

Lemma truthy_nonempty (s : jsstring) : s <> [] -> truthy (Some s) = Some s.
Proof. by destruct s. Qed.

Lemma private_key_item (random : jsstring) :
  js "privateKey-" ++ js "user-" ++ random = js "privateKey-user-" ++ random.
Proof. reflexivity. Qed.

(** The user that [signUp] and, without a stored key, [login] create. *)
Definition new_user (random name email : jsstring) (pk : RsaPublic) : User.t :=
  {| User.id := js "user-" ++ random;
     User.name := name;
     User.email := email;
     User.publicKey := Some (JSON_stringify (export_rsa_public pk)) |}.

(** The process after [signUp]: the three items of [localStorage] and the
    authentication state. *)
Definition signed_up (random name email : jsstring) (w : World) : World :=
  let '((pk, sk), g) := rsa_generateKey 2048 (rng w) in
  let newUser := new_user random name email pk in
  let text := JSON_stringify (export_rsa_private sk) in
  set_authState {| user := Some newUser; privateKeyJwk := Some (export_rsa_private sk) |}
    (set_localStorage
       (<[js "privateKey-" ++ User.id newUser := text]>
          (<[js "privateKey" := text]>
             (<[js "user" := JSON_stringify_User newUser (now w)]> (localStorage w))))
       (set_rng g w)).

Lemma signUp_run random name email password w :
  signUp random name email password w = (Ok true, signed_up random name email w).
Proof.
  unfold signUp, signed_up, try_catch.
  unfold bind at 1, generateKeyPair at 1.
  destruct (rsa_generateKey 2048 (rng w)) as [[pk sk] g].
  reflexivity.
Qed.

(** The process after [login] without a stored key for the new id. *)
Definition logged_in (random email : jsstring) (w : World) : World :=
  let '((pk, sk), g) := rsa_generateKey 2048 (rng w) in
  let mockUser := new_user random (before_at email) email pk in
  let text := JSON_stringify (export_rsa_private sk) in
  set_authState {| user := Some mockUser; privateKeyJwk := Some (export_rsa_private sk) |}
    (set_localStorage
       (<[js "privateKey" := text]>
          (<[js "user" := JSON_stringify_User mockUser (now w)]>
             (<[js "privateKey-" ++ User.id mockUser := text]> (localStorage w))))
       (set_rng g w)).

Lemma login_run_fresh (random email password : jsstring) w :
  truthy (localStorage w !! (js "privateKey-user-" ++ random)) = None ->
  login random email password w = (Ok true, logged_in random email w).
Proof.
  intros Hnone. unfold login, logged_in, try_catch.
  unfold bind at 1, gets at 1. unfold bind at 1, localStorage_getItem at 1, gets at 1.
  change (truthy (@lookup jsstring jsstring _ _ (js "privateKey-user-" ++ random)
                    (localStorage w)) = None) in Hnone.
  cbv zeta. cbn [User.id]. rewrite (private_key_item random), Hnone.
  unfold bind at 1. unfold bind at 1, generateKeyPair at 1.
  destruct (rsa_generateKey 2048 (rng w)) as [[pk sk] g].
  cbn -[js]. rewrite JSON_parse_stringify. reflexivity.
Qed.

Lemma login_run_stored (random email password : jsstring) w (text : jsstring) jwk :
  localStorage w !! (js "privateKey-user-" ++ random) = Some text ->
  text <> [] ->
  JSON_parse text = Some jwk ->
  let mockUser :=
    {| User.id := js "user-" ++ random; User.name := before_at email;
       User.email := email; User.publicKey := None |} in
  login random email password w
  = (Ok true,
     set_authState {| user := Some mockUser; privateKeyJwk := Some jwk |}
       (set_localStorage
          (<[js "privateKey" := text]>
             (<[js "user" := JSON_stringify_User mockUser (now w)]> (localStorage w)))
          w)).
Proof.
  intros Hitem Htext Hjwk mockUser. unfold login, try_catch.
  unfold bind at 1, gets at 1. unfold bind at 1, localStorage_getItem at 1, gets at 1.
  change (@lookup jsstring jsstring _ _ (js "privateKey-user-" ++ random)
            (localStorage w) = Some text) in Hitem.
  cbv zeta. cbn [User.id]. rewrite (private_key_item random), Hitem, (truthy_nonempty _ Htext).
  cbn -[js]. rewrite Hjwk. reflexivity.
Qed.

Lemma login_channelKeysCache random email password w :
  channelKeysCache (login random email password w).2 = channelKeysCache w.
Proof.
  unfold login, try_catch.
  unfold bind at 1, gets at 1. unfold bind at 1, localStorage_getItem at 1, gets at 1.
  destruct (truthy _) as [text|].
  - cbn -[js]. destruct (JSON_parse text); reflexivity.
  - unfold bind at 1. unfold bind at 1, generateKeyPair at 1.
    destruct (rsa_generateKey 2048 (rng w)) as [[pk sk] g].
    cbn -[js]. rewrite JSON_parse_stringify. reflexivity.
Qed.

Lemma new_user_public_key random name email pk :
  user_public_key (new_user random name email pk) = Some pk.
Proof.
  unfold user_public_key, new_user. cbn [User.publicKey].
  rewrite (truthy_nonempty _ (JSON_stringify_nonempty _)).
  by rewrite JSON_parse_stringify, import_export_rsa_public.
Qed.

Lemma checkAuthState_run w (userText keyText : jsstring) u jwk :
  localStorage w !! js "user" = Some userText ->
  userText <> [] ->
  JSON_parse_User userText = Some u ->
  localStorage w !! js "privateKey" = Some keyText ->
  keyText <> [] ->
  JSON_parse keyText = Some jwk ->
  checkAuthState w
  = (Ok tt, set_authState {| user := Some u; privateKeyJwk := Some jwk |} w).
Proof.
  intros Hu Hut Hpu Hk Hkt Hpk. unfold checkAuthState, try_catch.
  unfold bind at 1, localStorage_getItem at 1, gets at 1.
  unfold bind at 1, localStorage_getItem at 1, gets at 1.
  rewrite Hu, Hk, (truthy_nonempty _ Hut), (truthy_nonempty _ Hkt).
  cbn -[js]. rewrite Hpu. cbn -[js]. rewrite Hpk. reflexivity.
Qed.

Lemma ready_generateChannelKey w u pk sk channelId :
  ready w u pk sk ->
  exists w',
    generateChannelKey channelId w = (Ok true, w')
    /\ channelKeysCache w' !! channelId = Some (AesGcmKey (aes_generateKey 256 (rng w)).1).
Proof.
  intros (Hu & Hpk & Hsk & (g & g' & Hgen) & (blobs & Hst) & Hinit).
  destruct (local_private_key_Some _ _ Hsk) as (jwk & Hjwk & _).
  destruct (exported_key_text (rng w)) as [Hlen _].
  destruct (rsa_oaep_correct _ _ _ _ _ (aes_generateKey 256 (rng w)).2 Hgen Hlen)
    as (c & Hc & _).
  eexists. split.
  { exact (generateChannelKey_run channelId w u jwk pk blobs Hu Hjwk Hpk Hst Hinit c Hc). }
  cbn. by rewrite lookup_insert_eq.
Qed.

Lemma logout_run w :
  logout w = (Ok tt, set_authState signedOut
                       (set_localStorage (delete (js "user") (localStorage w)) w)).
Proof. reflexivity. Qed.

(** [checkAuthState] on the items that [login] leaves, whatever it
    returned. *)
Lemma truthy_Some (o : option jsstring) (s : jsstring) :
  truthy o = Some s -> o = Some s /\ s <> [].
Proof. destruct o as [[|c t]|]; [done| |done]. by intros [= <-]. Qed.

Lemma login_run_damaged (random email password : jsstring) w (text : jsstring) :
  localStorage w !! (js "privateKey-user-" ++ random) = Some text ->
  text <> [] ->
  JSON_parse text = None ->
  let mockUser :=
    {| User.id := js "user-" ++ random; User.name := before_at email;
       User.email := email; User.publicKey := None |} in
  login random email password w
  = (Ok false,
     set_authState signedOut
       (set_localStorage
          (<[js "privateKey" := text]>
             (<[js "user" := JSON_stringify_User mockUser (now w)]> (localStorage w)))
          w)).
Proof.
  intros Hitem Htext Hjwk mockUser. unfold login, try_catch.
  unfold bind at 1, gets at 1. unfold bind at 1, localStorage_getItem at 1, gets at 1.
  change (@lookup jsstring jsstring _ _ (js "privateKey-user-" ++ random)
            (localStorage w) = Some text) in Hitem.
  cbv zeta. cbn [User.id]. rewrite (private_key_item random), Hitem, (truthy_nonempty _ Htext).
  cbn -[js]. rewrite Hjwk. reflexivity.
Qed.

(** [checkAuthState] on the items that [login] leaves, whatever it
    returned. *)
Lemma checkAuthState_login (random email password : jsstring) w w2 :
  localStorage w2 = localStorage (login random email password w).2 ->
  checkAuthState w2
  = (Ok tt, set_authState (authState (login random email password w).2) w2).
Proof.
  destruct (truthy (localStorage w !! (js "privateKey-user-" ++ random)))
    as [text|] eqn:Hitem.
  - apply truthy_Some in Hitem as [Hitem Htext].
    destruct (JSON_parse text) as [jwk|] eqn:Hjwk.
    + rewrite (login_run_stored random email password w text jwk Hitem Htext Hjwk).
      cbn -[js]. intros Hls.
      eapply (checkAuthState_run w2 _ text); rewrite ?Hls.
      * rewrite lookup_insert_ne by done. apply lookup_insert_eq.
      * apply JSON_stringify_User_nonempty.
      * apply JSON_parse_stringify_User.
      * apply lookup_insert_eq.
      * exact Htext.
      * exact Hjwk.
    + rewrite (login_run_damaged random email password w text Hitem Htext Hjwk).
      cbn -[js]. intros Hls.
      unfold checkAuthState, try_catch.
      unfold bind at 1, localStorage_getItem at 1, gets at 1.
      unfold bind at 1, localStorage_getItem at 1, gets at 1.
      rewrite Hls. rewrite lookup_insert_eq.
      rewrite lookup_insert_ne by done. rewrite lookup_insert_eq.
      rewrite (truthy_nonempty _ (JSON_stringify_User_nonempty _ _)),
        (truthy_nonempty _ Htext).
      cbn -[js]. rewrite JSON_parse_stringify_User. cbn -[js]. rewrite Hjwk. reflexivity.
  - rewrite (login_run_fresh random email password w Hitem). unfold logged_in.
    destruct (rsa_generateKey 2048 (rng w)) as [[pk sk] g].
    cbn -[js]. intros Hls.
    eapply (checkAuthState_run w2 _ (JSON_stringify (export_rsa_private sk)));
      rewrite ?Hls.
    + rewrite lookup_insert_ne by done. apply lookup_insert_eq.
    + apply JSON_stringify_User_nonempty.
    + apply JSON_parse_stringify_User.
    + apply lookup_insert_eq.
    + apply JSON_stringify_nonempty.
    + apply JSON_parse_stringify.
Qed.

Lemma checkAuthState_signUp (random name email password : jsstring) w w2 :
  localStorage w2 = localStorage (signUp random name email password w).2 ->
  checkAuthState w2
  = (Ok tt, set_authState (authState (signUp random name email password w).2) w2).
Proof.
  rewrite signUp_run. unfold signed_up. cbn [snd].
  destruct (rsa_generateKey 2048 (rng w)) as [[pk sk] g]. cbn -[js]. intros Hls.
  eapply (checkAuthState_run w2 _ (JSON_stringify (export_rsa_private sk)));
    rewrite ?Hls.
  - rewrite !lookup_insert_ne by done. apply lookup_insert_eq.
  - apply JSON_stringify_User_nonempty.
  - apply JSON_parse_stringify_User.
  - rewrite lookup_insert_ne by done. apply lookup_insert_eq.
  - apply JSON_stringify_nonempty.
  - apply JSON_parse_stringify.
Qed.

End AuthLemmas.

(** ** Pinned messages *)

Lemma list_find_insert {A} (P : A -> Prop) `{!forall x, Decision (P x)}
    (l : list A) (i : nat) (x y : A) :
  list_find P l = Some (i, x) -> P y ->
  list_find P (<[i := y]> l) = Some (i, y).
Proof.
  intros Hfind Hy. apply list_find_Some in Hfind as (Hi & Hx & Hbefore).
  apply list_find_Some. split.
  - apply list_lookup_insert_eq. by eapply lookup_lt_Some.
  - split; [exact Hy|]. intros j z Hj Hlt.
    rewrite list_lookup_insert_ne in Hj by lia. by eapply Hbefore.
Qed.

Lemma filter_other_absent (messageId : jsstring) (ids : list jsstring) :
  messageId ∉ ids ->
  List.filter (fun id => negb (bool_decide (id = messageId))) ids = ids.
Proof.
  induction ids as [|id ids IH]; [done|].
  rewrite not_elem_of_cons. intros [Hne Hnot]. cbn.
  rewrite bool_decide_false by done. cbn. by rewrite IH.
Qed.

Lemma filter_other_app (messageId : jsstring) (ids : list jsstring) :
  List.filter (fun id => negb (bool_decide (id = messageId))) (ids ++ [messageId])
  = List.filter (fun id => negb (bool_decide (id = messageId))) ids.
Proof.
  rewrite List.filter_app. cbn. rewrite bool_decide_true by done. cbn.
  apply app_nil_r.
Qed.

Section PinLemmas.

Context `{W : WebCrypto} `{P : @Platform W}.

Lemma pinMessage_run channels (messageId channelId : jsstring) w u blobs i c :
  user (authState w) = Some u ->
  storageAdapter w = Some blobs ->
  isInitialized w = true ->
  list_find (fun c => Channel.id c = channelId) channels = Some (i, c) ->
  messageId ∉ default [] (Channel.pinnedMessages c) ->
  let updatedChannel :=
    Channel.with_pinnedMessages c (default [] (Channel.pinnedMessages c) ++ [messageId]) in
  pinMessage channels messageId channelId w
  = (Ok (true, <[i := updatedChannel]> channels),
     set_storageAdapter
       (Some (<[(StoragePaths.CHANNELS, channelId ++ js ".json") :=
                JsonText (JSON_stringify_Channel updatedChannel)]> blobs)) w).
Proof.
  intros Hu Hst Hinit Hfind Hnot updatedChannel.
  unfold pinMessage, try_catch, bind at 1, gets at 1. rewrite Hu, Hfind.
  rewrite bool_decide_false by done.
  unfold bind at 1. rewrite storeData_run, Hst, Hinit. reflexivity.
Qed.

Lemma pinMessage_pinned channels (messageId channelId : jsstring) w u i c :
  user (authState w) = Some u ->
  list_find (fun c => Channel.id c = channelId) channels = Some (i, c) ->
  messageId ∈ default [] (Channel.pinnedMessages c) ->
  pinMessage channels messageId channelId w = (Ok (true, channels), w).
Proof.
  intros Hu Hfind Hin.
  unfold pinMessage, try_catch, bind at 1, gets at 1. rewrite Hu, Hfind.
  by rewrite bool_decide_true by done.
Qed.

Lemma unpinMessage_run channels (messageId channelId : jsstring) w u blobs i c :
  user (authState w) = Some u ->
  storageAdapter w = Some blobs ->
  isInitialized w = true ->
  list_find (fun c => Channel.id c = channelId) channels = Some (i, c) ->
  let updatedChannel :=
    Channel.with_pinnedMessages c
      (List.filter (fun id => negb (bool_decide (id = messageId)))
         (default [] (Channel.pinnedMessages c))) in
  unpinMessage channels messageId channelId w
  = (Ok (true, <[i := updatedChannel]> channels),
     set_storageAdapter
       (Some (<[(StoragePaths.CHANNELS, channelId ++ js ".json") :=
                JsonText (JSON_stringify_Channel updatedChannel)]> blobs)) w).
Proof.
  intros Hu Hst Hinit Hfind updatedChannel.
  unfold unpinMessage, try_catch, bind at 1, gets at 1. rewrite Hu, Hfind.
  unfold bind at 1. rewrite storeData_run, Hst, Hinit. reflexivity.
Qed.

End PinLemmas.

(** ** The order of the loaded messages *)

Lemma insert_by_timestamp_Permutation m l : insert_by_timestamp m l ≡ₚ m :: l.
Proof.
  induction l as [|x l IH]; [done|].
  cbn [insert_by_timestamp]. destruct (Message.timestamp m <=? Message.timestamp x); [done|].
  rewrite IH. apply Permutation_swap.
Qed.

Lemma sort_by_timestamp_Permutation l : sort_by_timestamp l ≡ₚ l.
Proof.
  induction l as [|m l IH]; [done|].
  cbn [sort_by_timestamp foldr]. fold (sort_by_timestamp l).
  by rewrite insert_by_timestamp_Permutation, IH.
Qed.

Definition by_timestamp (a b : Message.t) : Prop :=
  Message.timestamp a <= Message.timestamp b.

Lemma insert_by_timestamp_sorted m l :
  StronglySorted by_timestamp l -> StronglySorted by_timestamp (insert_by_timestamp m l).
Proof.
  induction 1 as [|x l Hl IH Hx]; [repeat constructor|].
  cbn [insert_by_timestamp].
  destruct (Message.timestamp m <=? Message.timestamp x) eqn:Hle.
  - apply Z.leb_le in Hle. constructor; [by constructor|].
    constructor; [done|]. eapply Forall_impl; [exact Hx|].
    unfold by_timestamp. intros; lia.
  - apply Z.leb_gt in Hle. constructor; [done|].
    rewrite insert_by_timestamp_Permutation. constructor; [|done].
    unfold by_timestamp. lia.
Qed.

Lemma sort_by_timestamp_sorted l : StronglySorted by_timestamp (sort_by_timestamp l).
Proof.
  induction l as [|m l IH]; [constructor|].
  cbn [sort_by_timestamp foldr]. by apply insert_by_timestamp_sorted.
Qed.

Section OrderLemmas.

Context `{W : WebCrypto}.

Lemma loaded_one_same channelId w m m' w' :
  loaded_one channelId w m m' w' ->
  Message.id m' = Message.id m /\ Message.timestamp m' = Message.timestamp m.
Proof.
  unfold loaded_one. destruct (truthy (Message.iv m)) as [iv|].
  - destruct (decryptMessage _ _ _ w) as [[text|e] w1]; by intros [-> ->].
  - by intros [-> ->].
Qed.

Lemma loaded_batch_same channelId w ms out w' :
  loaded_batch channelId w ms out w' ->
  map Message.id out = map Message.id ms
  /\ map Message.timestamp out = map Message.timestamp ms.
Proof.
  induction 1 as [|w0 m m' w1 ms ms' w2 Hone _ [IH1 IH2]]; [done|].
  apply loaded_one_same in Hone as [Hid Hts]. cbn. by rewrite Hid, Hts, IH1, IH2.
Qed.

Lemma Forall_timestamps (x x' : Message.t) (l l' : list Message.t) :
  Message.timestamp x' = Message.timestamp x ->
  map Message.timestamp l' = map Message.timestamp l ->
  Forall (by_timestamp x) l -> Forall (by_timestamp x') l'.
Proof.
  intros Hx Hmap Hl. revert l' Hmap.
  induction Hl as [|y l Hy _ IH]; intros [|y' l'] Hmap; try done.
  injection Hmap as Hy' Hmap. constructor; [|by apply IH].
  unfold by_timestamp in *. lia.
Qed.

Lemma StronglySorted_timestamps (l l' : list Message.t) :
  map Message.timestamp l' = map Message.timestamp l ->
  StronglySorted by_timestamp l -> StronglySorted by_timestamp l'.
Proof.
  intros Hmap Hl. revert l' Hmap.
  induction Hl as [|x l Hl IH Hx]; intros [|x' l'] Hmap; try done; [constructor|].
  injection Hmap as Hx' Hmap. constructor; [by apply IH|].
  by apply (Forall_timestamps x x' l l').
Qed.

End OrderLemmas.

(** ** Reactions in the list of messages *)

Lemma filter_reactions_absent (u : User.t) (emoji : jsstring) (rs : list Reaction.t) :
  find (is_reaction_of u emoji) rs = None ->
  List.filter (fun r => negb (is_reaction_of u emoji r)) rs = rs.
Proof.
  induction rs as [|r rs IH]; [done|]. cbn.
  destruct (is_reaction_of u emoji r); [done|]. cbn. intros H. by rewrite IH.
Qed.

Lemma find_reaction_added (u : User.t) (emoji : jsstring) (rs : list Reaction.t) r :
  is_reaction_of u emoji r = true ->
  is_Some (find (is_reaction_of u emoji) (rs ++ [r])).
Proof.
  intros Hr. induction rs as [|x rs IH]; cbn.
  - by rewrite Hr.
  - by destruct (is_reaction_of u emoji x).
Qed.

Section ReactionLemmas.

Context `{W : WebCrypto}.

Lemma addReaction_run messageId emoji w u channelId index m r0 k blobs :
  user (authState w) = Some u ->
  truthy (currentChannelId w) = Some channelId ->
  list_find (fun m => Message.id m = messageId) (messages w) = Some (index, m) ->
  Message.iv m = Some (Base64.encode (map byte_to_Z r0)) ->
  length r0 = 12%nat ->
  channelKeysCache w !! channelId = Some (AesGcmKey k) ->
  storageAdapter w = Some blobs ->
  isInitialized w = true ->
  find (is_reaction_of u emoji) (default [] (Message.reactions m)) = None ->
  let updatedMessage :=
    Message.with_reactions m
      (default [] (Message.reactions m)
       ++ [ {| Reaction.emoji := emoji; Reaction.userId := User.id u;
               Reaction.userName := User.name u |} ]) in
  exists c,
    addReaction messageId emoji w
    = (Ok true,
       set_messages (<[index := updatedMessage]> (messages w))
         (set_storageAdapter
            (Some (<[(StoragePaths.MESSAGES ++ js "/" ++ channelId,
                      messageId ++ js ".json") :=
                     JsonMessage
                       (Message.with_content updatedMessage
                          (Base64.encode (map byte_to_Z c)))]> blobs))
            (set_rng (rng_drop 12 (rng w)) w))).
Proof.
  intros Hu Hch Hfind Hiv Hr0 Hc Hst Hinit Hnone updatedMessage.
  destruct (storeUpdatedMessage_run messageId m updatedMessage channelId w k r0 blobs
              Hiv Hr0 Hc Hst Hinit) as (c & _ & Hs).
  exists c. unfold addReaction, try_catch.
  unfold bind at 1, gets at 1. unfold bind at 1, gets at 1. rewrite Hu, Hch.
  unfold bind at 1, gets at 1. rewrite Hfind, Hnone.
  unfold bind at 1. fold updatedMessage. rewrite Hs. reflexivity.
Qed.

Lemma addReaction_present messageId emoji w u channelId index m r :
  user (authState w) = Some u ->
  truthy (currentChannelId w) = Some channelId ->
  list_find (fun m => Message.id m = messageId) (messages w) = Some (index, m) ->
  find (is_reaction_of u emoji) (default [] (Message.reactions m)) = Some r ->
  addReaction messageId emoji w = (Ok true, w).
Proof.
  intros Hu Hch Hfind Hsome. unfold addReaction, try_catch.
  unfold bind at 1, gets at 1. unfold bind at 1, gets at 1. rewrite Hu, Hch.
  unfold bind at 1, gets at 1. by rewrite Hfind, Hsome.
Qed.

Lemma removeReaction_run messageId emoji w u channelId index m r0 k blobs :
  user (authState w) = Some u ->
  truthy (currentChannelId w) = Some channelId ->
  list_find (fun m => Message.id m = messageId) (messages w) = Some (index, m) ->
  Message.iv m = Some (Base64.encode (map byte_to_Z r0)) ->
  length r0 = 12%nat ->
  channelKeysCache w !! channelId = Some (AesGcmKey k) ->
  storageAdapter w = Some blobs ->
  isInitialized w = true ->
  let updatedMessage :=
    Message.with_reactions m
      (List.filter (fun r => negb (is_reaction_of u emoji r))
         (default [] (Message.reactions m))) in
  exists c,
    removeReaction messageId emoji w
    = (Ok true,
       set_messages (<[index := updatedMessage]> (messages w))
         (set_storageAdapter
            (Some (<[(StoragePaths.MESSAGES ++ js "/" ++ channelId,
                      messageId ++ js ".json") :=
                     JsonMessage
                       (Message.with_content updatedMessage
                          (Base64.encode (map byte_to_Z c)))]> blobs))
            (set_rng (rng_drop 12 (rng w)) w))).
Proof.
  intros Hu Hch Hfind Hiv Hr0 Hc Hst Hinit updatedMessage.
  destruct (storeUpdatedMessage_run messageId m updatedMessage channelId w k r0 blobs
              Hiv Hr0 Hc Hst Hinit) as (c & _ & Hs).
  exists c. unfold removeReaction, try_catch.
  unfold bind at 1, gets at 1. unfold bind at 1, gets at 1. rewrite Hu, Hch.
  unfold bind at 1, gets at 1. rewrite Hfind.
  unfold bind at 1. fold updatedMessage. rewrite Hs. reflexivity.
Qed.

End ReactionLemmas.

(** ** Loading the channels *)

Lemma insert_by_createdAt_Permutation c l : insert_by_createdAt c l ≡ₚ c :: l.
Proof.
  induction l as [|x l IH]; [done|].
  cbn [insert_by_createdAt]. destruct (Channel.createdAt x <=? Channel.createdAt c); [done|].
  rewrite IH. apply Permutation_swap.
Qed.

Lemma sort_by_createdAt_Permutation l : sort_by_createdAt l ≡ₚ l.
Proof.
  induction l as [|c l IH]; [done|].
  cbn [sort_by_createdAt foldr]. fold (sort_by_createdAt l).
  by rewrite insert_by_createdAt_Permutation, IH.
Qed.




Section ChannelListLemmas.

Context `{W : WebCrypto} `{P : @Platform W}.

(** The first phase of [loadChannels]: list, retrieve and parse. *)
Definition retrieveChannels : M (list Channel.t) :=
  channelKeys <- listData StoragePaths.CHANNELS ;;
  Promise_all_map retrieveChannel channelKeys.

(** The current channel after [loadChannels] has loaded some channels. *)
Definition selected (loaded : list Channel.t) (current : option jsstring)
    : option jsstring :=
  match loaded, truthy current with
  | first :: _, None => Some (Channel.id first)
  | _, _ => current
  end.

Lemma retrieveChannel_run key w :
  retrieveChannel key w
  = (result_bind (retrieveData key StoragePaths.CHANNELS w).1 JSON_parse_Channel_data, w).
Proof.
  unfold retrieveChannel, bind. rewrite retrieveData_run. cbn [fst].
  destruct (match storageAdapter w with Some _ => _ | None => _ end) as [d|e]; [|done].
  unfold liftR. cbn [result_bind]. by destruct (JSON_parse_Channel_data d).
Qed.

Lemma retrieve_channels_frame keys w :
  (Promise_all_map retrieveChannel keys w).2 = w.
Proof.
  induction keys as [|key keys IH]; [done|].
  cbn [Promise_all_map]. unfold bind at 1. rewrite retrieveChannel_run.
  destruct (result_bind _ _) as [c|e]; [|done].
  unfold bind at 1.
  destruct (Promise_all_map retrieveChannel keys w) as [[l|e] w1]; by cbn in *.
Qed.

Lemma retrieveChannels_frame w : (retrieveChannels w).2 = w.
Proof.
  unfold retrieveChannels, bind. rewrite listData_run.
  destruct (match storageAdapter w with Some _ => _ | None => _ end) as [keys|e]; [|done].
  pose proof (retrieve_channels_frame keys w) as H.
  by destruct (Promise_all_map _ keys w) as [[l|e] w1].
Qed.

Lemma loadChannels_run channels w :
  loadChannels channels w
  = match (retrieveChannels w).1 with
    | Ok loaded =>
        (Ok (sort_by_createdAt loaded),
         set_currentChannelId
           (selected (sort_by_createdAt loaded) (currentChannelId w)) w)
    | Throw _ => (Ok channels, w)
    end.
Proof.
  unfold loadChannels, retrieveChannels, try_catch, bind. rewrite listData_run.
  destruct (match storageAdapter w with Some _ => _ | None => _ end) as [keys|e];
    cbn [fst]; [|done].
  pose proof (retrieve_channels_frame keys w) as Hframe.
  destruct (Promise_all_map retrieveChannel keys w) as [[loaded|e] w1];
    cbn [fst snd] in *; subst w1; [|done].
  unfold gets, selected, modify, ret.
  destruct (sort_by_createdAt loaded) as [|first rest]; [by destruct w|].
  destruct (truthy (currentChannelId w)); [by destruct w|done].
Qed.

End ChannelListLemmas.

(** ** Object names *)

Lemma with_slash_last path : exists p, with_slash path = p ++ [47].
Proof.
  unfold with_slash, endsWith_slash.
  destruct (last path) as [c|] eqn:Hlast.
  - destruct (c =? 47) eqn:Hc; [|by exists path].
    apply Z.eqb_eq in Hc. subst c. apply last_Some in Hlast as [p ->]. by exists p.
  - by exists path.
Qed.

(** The text after the last slash determines the cut. *)
Lemma cut_at_last_slash (p1 p2 k1 k2 : jsstring) :
  47 ∉ k1 -> 47 ∉ k2 ->
  (p1 ++ [47]) ++ k1 = (p2 ++ [47]) ++ k2 ->
  p1 = p2 /\ k1 = k2.
Proof.
  intros H1 H2. revert p2. induction p1 as [|c p1 IH]; intros [|d p2] Heq.
  - cbn in Heq. by injection Heq as ->.
  - cbn in Heq. injection Heq as <- ->. exfalso. apply H1.
    rewrite <- app_assoc. apply elem_of_app. right. left.
  - cbn in Heq. injection Heq as -> <-. exfalso. apply H2.
    rewrite <- app_assoc. apply elem_of_app. right. left.
  - cbn in Heq. injection Heq as -> Heq. destruct (IH p2 Heq) as [-> ->]. done.
Qed.

(** * Properties *)

(** ** Concrete processes

    Two users of the application over the reference instance, as [signUp]
    leaves them: the public key in the user record, the private key in the
    authentication state, the storage configured and empty. *)

Module Scenario.

Definition entropy (seed : Z) : Rng := fun i => byte_of_Z (seed + 7 * Z.of_nat i).

Definition keys_of (seed : Z) : list byte * list byte :=
  (Reference.generate_rsa 2048 (entropy seed)).1.

Definition member (name : string) (seed : Z) : User.t :=
  {| User.id := js "user-" ++ js name;
     User.name := js name;
     User.email := js name ++ js "@example.org";
     User.publicKey := Some (Reference.stringify (Reference.JwkRsaPublic (keys_of seed).1)) |}.

Definition signed_in (name : string) (seed : Z) : AuthState :=
  {| user := Some (member name seed);
     privateKeyJwk := Some (Reference.JwkRsaPrivate (keys_of seed).2) |}.

Definition process (name : string) (seed : Z) : World :=
  {| rng := entropy (seed + 100);
     now := 1700000000000;
     authState := signed_in name seed;
     localStorage := ∅;
     storageAdapter := Some ∅;
     isInitialized := true;
     channelKeysCache := ∅;
     messages := [];
     currentChannelId := None |}.

Definition alice : World := process "alice" 11.
Definition bob : World := process "bob" 29.

Definition general : jsstring := js "channel-general".

(** The key [generateSymmetricKey] returns in the process of Bob. *)
Definition some_key : @AesKey reference := (Reference.generate_aes 256 (entropy 129)).1.

(** The pair [generateKeyPair] returns in the process of Alice. *)
Definition fresh_pair : @CryptoKeyPair reference :=
  {| publicKey := RsaPublicKey (keys_of 111).1;
     privateKey := RsaPrivateKey (keys_of 111).2 |}.

(** The public key of Bob, as Alice reads it from his user record. *)
Definition bob_public_jwk : @JsonWebKey reference := Reference.JwkRsaPublic (keys_of 29).1.

(** Alice creates a channel, looks its key up and wraps it for Bob. *)
Definition alice_calls : list (@KeyManagerCall reference) :=
  [CallGenerateChannelKey general;
   CallGetChannelKey general;
   CallShareChannelKey general bob_public_jwk].

(** Bob without his private key: neither the authentication state nor
    [localStorage] has it. *)
Definition bob_without_key : World :=
  set_authState {| user := Some (member "bob" 29); privateKeyJwk := None |} bob.

(** Bob with a Key Record that was not wrapped for him. *)
Definition bob_with_foreign_record : World :=
  set_storageAdapter
    (Some {[ (js "encryption/channel-general", js "key-user-bob.json") :=
               JsonKeyReference (keyReference_for (member "bob" 29) general (js "AAAA") 0) ]})
    bob.

(** Alice has created the channel; then Bob signs in in the same process
    (the key cache is a module-level object that neither [logout] nor [login]
    touches). *)
Definition alice_channel : World := (generateChannelKey general alice).2.

Definition bob_after_alice : World := set_authState (signed_in "bob" 29) alice_channel.

(** Three stored messages of the channel: one written before encryption was
    introduced, one that Alice encrypted, one whose content is not a
    ciphertext. *)
Definition legacy_message : Message.t :=
  {| Message.id := js "msg-1"; Message.content := js "hello";
     Message.iv := None; Message.senderId := js "user-alice";
     Message.senderName := js "alice"; Message.timestamp := 1;
     Message.channelId := general; Message.parentId := None;
     Message.edited := None; Message.reactions := None;
     Message.replyCount := None |}.

Definition sent : result Encrypted * World := encryptMessage (js "hi bob") general alice_channel.

Definition sent_nonce : list byte := rng_take 12 (rng alice_channel).

Definition encrypted_message : Message.t :=
  {| Message.id := js "msg-2";
     Message.content := match sent.1 with Ok e => ciphertext e | Throw _ => [] end;
     Message.iv := match sent.1 with Ok e => Some (iv e) | Throw _ => None end;
     Message.senderId := js "user-alice";
     Message.senderName := js "alice"; Message.timestamp := 2;
     Message.channelId := general; Message.parentId := None;
     Message.edited := None; Message.reactions := Some [];
     Message.replyCount := None |}.

Definition damaged_message : Message.t :=
  {| Message.id := js "msg-3"; Message.content := js "AAAA";
     Message.iv := Some (js "AAAAAAAAAAAAAAAA"); Message.senderId := js "user-alice";
     Message.senderName := js "alice"; Message.timestamp := 3;
     Message.channelId := general; Message.parentId := None;
     Message.edited := None; Message.reactions := None;
     Message.replyCount := None |}.

Definition stored_messages : gmap (jsstring * jsstring) Json :=
  <[(js "messages/channel-general", js "msg-3.json") := JsonMessage damaged_message]>
    (<[(js "messages/channel-general", js "msg-1.json") := JsonMessage legacy_message]>
       (<[(js "messages/channel-general", js "msg-2.json") := JsonMessage encrypted_message]>
          ∅)).

(** The process of Alice with the channel open and the three messages in
    the store. *)
Definition inbox : World :=
  {| rng := sent.2.(rng);
     now := 1700000000000;
     authState := signed_in "alice" 11;
     localStorage := ∅;
     storageAdapter := Some stored_messages;
     isInitialized := true;
     channelKeysCache := channelKeysCache alice_channel;
     messages := [];
     currentChannelId := Some general |}.

(** The same process after [fetchMessages]. *)
Definition chat : World := (fetchMessages general inbox).2.

End Scenario.

Example scenario_generate :
  (generateChannelKey Scenario.general Scenario.alice).1 = Ok true.
Proof. vm_compute. reflexivity. Qed.

Example scenario_stored :
  is_Some (stored (generateChannelKey Scenario.general Scenario.alice).2
    (js "encryption/channel-general") (js "key-user-alice.json")).
Proof. vm_compute. eexists. reflexivity. Qed.

(** ** C1: the channel key is never stored or handed out in the clear *)

(** C1. Whatever calls are made to the channel key manager
    ([generateChannelKey], [getChannelKey], [hasChannelKey],
    [shareChannelKey], [importSharedChannelKey]), in any order and with any
    arguments: the calls change only the random source, the stored data and
    the key cache; every datum the store holds afterwards was there before or
    is a Key Record of the current user, at [encryption/<channelId>] under
    [key-<userId>.json], whose [encryptedKey] is the base64 text of an
    RSA-OAEP ciphertext (made under the user's public key, or accepted by the
    user's private key) and is not the JSON text of any symmetric key; and a
    blob that [shareChannelKey] returns is such a ciphertext under the
    recipient's public key. The key itself is a value of the cache only: the
    store holds text. *)
Theorem C1_channel_key_never_stored_in_clear `{W : WebCrypto}
    (cs : list KeyManagerCall) (w : World) :
  same_session w (run_calls cs w)
  /\ (forall path key d,
        stored (run_calls cs w) path key = Some d ->
        stored w path key = Some d \/ wrapped_key_record w path key d)
  /\ (forall channelId jwk blob w',
        shareChannelKey channelId jwk (run_calls cs w) = (Ok blob, w') ->
        exists c,
          base64ToArrayBuffer blob = Ok c
          /\ (exists pk pt g,
                import_rsa_public jwk = Some pk /\ (rsa_oaep_encrypt pk pt g).1 = Some c)
          /\ forall k, blob <> JSON_stringify (export_aes k)).
Proof.
  destruct (run_calls_store_inv cs w) as [Hs Hst]. split; [exact Hs|]. split; [exact Hst|].
  intros channelId jwk blob w' Hshare.
  destruct (shareChannelKey_returns _ _ _ _ _ Hshare)
    as (k & pk & c & _ & Hpk & (text & _ & Hc) & _ & Hb).
  exists c. split; [exact Hb|]. split.
  - by eexists pk, _, _.
  - by eapply base64_not_key_text.
Qed.

(** Alice creates a channel, looks its key up and wraps it for Bob: the one
    datum in her store is her wrapped Key Record. *)
Lemma C1_channel_key_never_stored_in_clear_witness :
  exists d,
    stored
      (run_calls Scenario.alice_calls Scenario.alice)
      (js "encryption/channel-general") (js "key-user-alice.json") = Some d
    /\ wrapped_key_record Scenario.alice
         (js "encryption/channel-general") (js "key-user-alice.json") d.
Proof.
  eexists. split; [vm_compute; reflexivity|].
  destruct (C1_channel_key_never_stored_in_clear Scenario.alice_calls Scenario.alice)
    as (_ & Hstored & _).
  destruct (Hstored (js "encryption/channel-general") (js "key-user-alice.json") _
              ltac:(vm_compute; reflexivity)) as [Hold | Hnew].
  - vm_compute in Hold. discriminate Hold.
  - exact Hnew.
Defined.

(** ** C2: symmetric encryption and decryption *)

(** C2, as amended. For every string that is well formed (no surrogate
    outside a pair) and does not start with U+FEFF, and every AES-GCM key
    (such as [generateSymmetricKey] returns): [encryptWithSymmetricKey]
    returns a ciphertext and a nonce, and [decryptWithSymmetricKey] on them,
    with the same key, returns the string. *)
Theorem C2_symmetric_roundtrip `{W : WebCrypto} (m : jsstring) (k : AesKey) (w : World) :
  Utf8.well_formed m = true ->
  Utf8.starts_with_bom m = false ->
  exists e w',
    encryptWithSymmetricKey m (AesGcmKey k) w = (Ok e, w')
    /\ decryptWithSymmetricKey (ciphertext e) (iv e) (AesGcmKey k) = Ok m.
Proof. apply symmetric_roundtrip. Qed.

Lemma C2_symmetric_roundtrip_witness :
  exists e w',
    encryptWithSymmetricKey (js "hello") (AesGcmKey Scenario.some_key) Scenario.alice
    = (Ok e, w')
    /\ decryptWithSymmetricKey (ciphertext e) (iv e) (AesGcmKey Scenario.some_key)
       = Ok (js "hello").
Proof.
  apply (C2_symmetric_roundtrip (js "hello") Scenario.some_key Scenario.alice);
    reflexivity.
Defined.

(** C2 as stated fails on a string that starts with U+FEFF, which the
    decoder removes as a byte order mark, and on a lone surrogate, which the
    encoder replaces by U+FFFD. *)
Lemma C2_symmetric_roundtrip_counterexample :
  (exists e w',
     encryptWithSymmetricKey [0xFEFF; 104; 105] (AesGcmKey Scenario.some_key)
       Scenario.alice = (Ok e, w')
     /\ decryptWithSymmetricKey (ciphertext e) (iv e) (AesGcmKey Scenario.some_key)
        = Ok [104; 105])
  /\ (exists e w',
        encryptWithSymmetricKey [0xD800] (AesGcmKey Scenario.some_key)
          Scenario.alice = (Ok e, w')
        /\ decryptWithSymmetricKey (ciphertext e) (iv e) (AesGcmKey Scenario.some_key)
           = Ok [0xFFFD]).
Proof.
  split.
  - destruct (symmetric_roundtrip_decoded [0xFEFF; 104; 105] Scenario.some_key
                Scenario.alice) as (e & w' & He & Hd).
    exists e, w'. split; [exact He|]. rewrite Hd. reflexivity.
  - destruct (symmetric_roundtrip_decoded [0xD800] Scenario.some_key Scenario.alice)
      as (e & w' & He & Hd).
    exists e, w'. split; [exact He|]. rewrite Hd. reflexivity.
Qed.

(** ** C3: the nonce of an encryption *)

(** C3. [encryptWithSymmetricKey] takes no nonce: it draws the next twelve
    bytes (96 bits) of the random source and runs AES-GCM under them as the
    nonce. The [ciphertext] it returns is the base64 text of the output of
    the cipher for the key, that nonce and the encoded text, and the [iv] is
    the base64 text of the nonce: decoding them gives the two buffers back.
    Two calls with the same text and key whose draws differ return different
    nonces and different ciphertexts. *)
Theorem C3_fresh_nonce `{W : WebCrypto} (m : jsstring) (k : AesKey) (w1 w2 : World) :
  let r1 := rng_take 12 (rng w1) in
  let r2 := rng_take 12 (rng w2) in
  exists e1 e2 c1 c2,
    encryptWithSymmetricKey m (AesGcmKey k) w1 = (Ok e1, set_rng (rng_drop 12 (rng w1)) w1)
    /\ encryptWithSymmetricKey m (AesGcmKey k) w2 = (Ok e2, set_rng (rng_drop 12 (rng w2)) w2)
    /\ length r1 = 12%nat /\ length r2 = 12%nat
    /\ aes_gcm_encrypt k r1 (TextEncoder_encode m) = Some c1
    /\ aes_gcm_encrypt k r2 (TextEncoder_encode m) = Some c2
    /\ arrayBufferToBase64 r1 = Ok (iv e1)
    /\ arrayBufferToBase64 r2 = Ok (iv e2)
    /\ arrayBufferToBase64 c1 = Ok (ciphertext e1)
    /\ arrayBufferToBase64 c2 = Ok (ciphertext e2)
    /\ base64ToArrayBuffer (iv e1) = Ok r1
    /\ base64ToArrayBuffer (iv e2) = Ok r2
    /\ base64ToArrayBuffer (ciphertext e1) = Ok c1
    /\ base64ToArrayBuffer (ciphertext e2) = Ok c2
    /\ (r1 <> r2 -> iv e1 <> iv e2 /\ ciphertext e1 <> ciphertext e2 /\ c1 <> c2).
Proof.
  intros r1 r2.
  destruct (encryptWithSymmetricKey_eq m k w1) as (c1 & Hc1 & He1).
  destruct (encryptWithSymmetricKey_eq m k w2) as (c2 & Hc2 & He2).
  fold r1 in Hc1, He1. fold r2 in Hc2, He2.
  eexists _, _, c1, c2. split; [exact He1|]. split; [exact He2|].
  cbn [iv ciphertext]. rewrite !arrayBufferToBase64_eq, !base64ToArrayBuffer_encode.
  split; [apply length_rng_take|]. split; [apply length_rng_take|].
  do 10 (split; [done|]).
  intros Hne.
  assert (Hc : c1 <> c2).
  { intros ->.
    destruct (aes_gcm_correct k r2 (TextEncoder_encode m)) as (c & Hc & Hd);
      [apply length_rng_take|].
    assert (c = c2) as -> by congruence.
    pose proof (aes_gcm_nonce k r1 r2 _ _ (length_rng_take _ _) (length_rng_take _ _)
                  Hne Hc1) as Hnone.
    congruence. }
  split; [|split; [|exact Hc]].
  - intros Heq. apply Hne. apply arrayBufferToBase64_inj.
    rewrite !arrayBufferToBase64_eq. by f_equal.
  - intros Heq. apply Hc. apply arrayBufferToBase64_inj.
    rewrite !arrayBufferToBase64_eq. by f_equal.
Qed.

Lemma C3_fresh_nonce_witness :
  exists e1 e2 c1 c2,
    (encryptWithSymmetricKey (js "hello") (AesGcmKey Scenario.some_key) Scenario.alice).1
    = Ok e1
    /\ (encryptWithSymmetricKey (js "hello") (AesGcmKey Scenario.some_key) Scenario.bob).1
       = Ok e2
    /\ Reference.encrypt_aes Scenario.some_key (rng_take 12 (rng Scenario.alice))
         (TextEncoder_encode (js "hello")) = Some c1
    /\ Reference.encrypt_aes Scenario.some_key (rng_take 12 (rng Scenario.bob))
         (TextEncoder_encode (js "hello")) = Some c2
    /\ base64ToArrayBuffer (ciphertext e1) = Ok c1
    /\ base64ToArrayBuffer (ciphertext e2) = Ok c2
    /\ iv e1 <> iv e2 /\ ciphertext e1 <> ciphertext e2.
Proof.
  destruct (C3_fresh_nonce (js "hello") Scenario.some_key Scenario.alice Scenario.bob)
    as (e1 & e2 & c1 & c2 & H1 & H2 & _ & _ & Hc1 & Hc2 & _ & _ & _ & _ & _ & _
        & Hd1 & Hd2 & Hne).
  exists e1, e2, c1, c2. rewrite H1, H2. split; [reflexivity|]. split; [reflexivity|].
  split; [exact Hc1|]. split; [exact Hc2|]. split; [exact Hd1|]. split; [exact Hd2|].
  destruct Hne as (Hiv & Hct & _); [vm_compute; discriminate|]. by split.
Defined.

(** ** C4: wrapping a symmetric key *)

(** C4. For the key pair [generateKeyPair] returns and the JWK text of a key
    [generateSymmetricKey] returns: [encryptWithPublicKey] wraps the text
    under the public key, and [decryptWithPrivateKey] on the blob, with the
    private key, returns the text. *)
Theorem C4_key_wrap_roundtrip `{W : WebCrypto}
    (w0 w1 w2 w3 w : World) (kp : CryptoKeyPair) (key : CryptoKey) (jwk : JsonWebKey) :
  generateKeyPair w0 = (Ok kp, w1) ->
  generateSymmetricKey w2 = (Ok key, w3) ->
  exportKey key = Ok jwk ->
  exists blob w',
    encryptWithPublicKey (JSON_stringify jwk) (publicKey kp) w = (Ok blob, w')
    /\ decryptWithPrivateKey blob (privateKey kp) = Ok (JSON_stringify jwk).
Proof. apply key_wrap_roundtrip. Qed.

Lemma C4_key_wrap_roundtrip_witness :
  exists blob w',
    encryptWithPublicKey (JSON_stringify (export_aes Scenario.some_key))
      (publicKey Scenario.fresh_pair) Scenario.alice = (Ok blob, w')
    /\ decryptWithPrivateKey blob (privateKey Scenario.fresh_pair)
       = Ok (JSON_stringify (export_aes Scenario.some_key)).
Proof.
  apply (C4_key_wrap_roundtrip
           Scenario.alice (generateKeyPair Scenario.alice).2
           Scenario.bob (generateSymmetricKey Scenario.bob).2
           Scenario.alice Scenario.fresh_pair (AesGcmKey Scenario.some_key)
           (export_aes Scenario.some_key));
    reflexivity.
Defined.

(** ** C5: sharing a channel key *)

(** C5, as amended. Let A and B be signed in, each with the keys of a pair
    [generateKeyPair] made and with a configured storage. A's
    [generateChannelKey], then A's [shareChannelKey] with B's public key, then
    B's [importSharedChannelKey] with the returned blob all succeed;
    afterwards [getChannelKey] returns the same key to both, and a message
    that is well formed and does not start with U+FEFF, encrypted by either
    with [encryptMessage], is returned by [decryptMessage] of either. *)
Theorem C5_share_flow `{W : WebCrypto}
    (wA wB : World) (uA uB : User.t) (pkA pkB : RsaPublic) (skA skB : RsaPrivate)
    (jwkB : JsonWebKey) (channelId : jsstring) :
  ready wA uA pkA skA ->
  ready wB uB pkB skB ->
  import_rsa_public jwkB = Some pkB ->
  exists wA1 blob wA2 wB1 key,
    generateChannelKey channelId wA = (Ok true, wA1)
    /\ shareChannelKey channelId jwkB wA1 = (Ok blob, wA2)
    /\ importSharedChannelKey blob channelId wB = (Ok true, wB1)
    /\ getChannelKey channelId wA2 = (Ok (Some key), wA2)
    /\ getChannelKey channelId wB1 = (Ok (Some key), wB1)
    /\ forall m,
         Utf8.well_formed m = true -> Utf8.starts_with_bom m = false ->
         forall w1 w2,
           (w1 = wA2 \/ w1 = wB1) -> (w2 = wA2 \/ w2 = wB1) ->
           exists e w1',
             encryptMessage m channelId w1 = (Ok e, w1')
             /\ decryptMessage (ciphertext e) (iv e) channelId w2 = (Ok m, w2).
Proof. apply share_flow. Qed.

Lemma scenario_ready name seed :
  ready (Scenario.process name seed) (Scenario.member name seed)
    (Scenario.keys_of seed).1 (Scenario.keys_of seed).2.
Proof.
  split; [reflexivity|]. split.
  - unfold user_public_key. cbn [Scenario.member User.publicKey truthy Reference.stringify].
    change (@JSON_parse reference) with Reference.parse.
    change (Reference.parse (123 :: 80 :: ?x))
      with (Reference.parse (Reference.stringify (Reference.JwkRsaPublic (Scenario.keys_of seed).1))).
    by rewrite parse_stringify.
  - split; [reflexivity|]. split.
    + by exists (Scenario.entropy seed), (rng_drop 4 (Scenario.entropy seed)).
    + split; [by eexists|reflexivity].
Qed.

(** Alice and Bob of the scenario: Bob then reads what Alice writes. *)
Lemma C5_share_flow_witness :
  exists wA1 blob wA2 wB1 e wA3,
    generateChannelKey Scenario.general Scenario.alice = (Ok true, wA1)
    /\ shareChannelKey Scenario.general Scenario.bob_public_jwk wA1 = (Ok blob, wA2)
    /\ importSharedChannelKey blob Scenario.general Scenario.bob = (Ok true, wB1)
    /\ encryptMessage (js "hello") Scenario.general wA2 = (Ok e, wA3)
    /\ decryptMessage (ciphertext e) (iv e) Scenario.general wB1 = (Ok (js "hello"), wB1).
Proof.
  destruct (C5_share_flow Scenario.alice Scenario.bob
              (Scenario.member "alice" 11) (Scenario.member "bob" 29)
              (Scenario.keys_of 11).1 (Scenario.keys_of 29).1
              (Scenario.keys_of 11).2 (Scenario.keys_of 29).2
              Scenario.bob_public_jwk Scenario.general
              (scenario_ready "alice" 11) (scenario_ready "bob" 29) eq_refl)
    as (wA1 & blob & wA2 & wB1 & key & Hg & Hs & Hi & _ & _ & Hm).
  destruct (Hm (js "hello") eq_refl eq_refl wA2 wB1 (or_introl eq_refl) (or_intror eq_refl))
    as (e & wA3 & He & Hd).
  exists wA1, blob, wA2, wB1, e, wA3.
  exact (conj Hg (conj Hs (conj Hi (conj He Hd)))).
Defined.

(** C5 as stated fails for a message that starts with U+FEFF: Bob reads the
    message without it. *)
Lemma C5_share_flow_counterexample :
  exists wA1 blob wA2 wB1 e wA3,
    generateChannelKey Scenario.general Scenario.alice = (Ok true, wA1)
    /\ shareChannelKey Scenario.general Scenario.bob_public_jwk wA1 = (Ok blob, wA2)
    /\ importSharedChannelKey blob Scenario.general Scenario.bob = (Ok true, wB1)
    /\ encryptMessage [0xFEFF; 104; 105] Scenario.general wA2 = (Ok e, wA3)
    /\ decryptMessage (ciphertext e) (iv e) Scenario.general wB1 = (Ok [104; 105], wB1).
Proof.
  destruct (share_flow_keys Scenario.alice (Scenario.member "alice" 11)
              (Scenario.keys_of 11).1 (Scenario.keys_of 11).2
              Scenario.bob (Scenario.member "bob" 29)
              (Scenario.keys_of 29).1 (Scenario.keys_of 29).2
              Scenario.bob_public_jwk Scenario.general
              (scenario_ready "alice" 11) (scenario_ready "bob" 29) eq_refl)
    as (wA1 & blob & wA2 & wB1 & k & Hg & Hs & Hi & HcA & HcB).
  destruct (message_decoded Scenario.general k wA2 wB1 [0xFEFF; 104; 105] HcA HcB)
    as (e & wA3 & He & Hd).
  exists wA1, blob, wA2, wB1, e, wA3.
  exact (conj Hg (conj Hs (conj Hi (conj He Hd)))).
Qed.

(** ** C6: creating a channel key *)




(** ** C7: failures of key resolution *)

(** The id of the scenario names no inherited member. *)
Lemma plain_general : plain_id Scenario.general.
Proof. apply (bool_decide_unpack _). reflexivity. Qed.

(** C7, as amended. For a channel id that names no member the key cache
    inherits: when the cache has no key for the channel and the current user
    has no Key Record for it, or the local private key cannot be loaded, or
    unwrapping the record fails, [getChannelKey] returns [null] in each case,
    without telling the cases apart, and [encryptMessage] and
    [decryptMessage] throw the one error [Channel key not available]. The
    state is unchanged. *)
Theorem C7_key_errors_collapsed `{W : WebCrypto} (channelId : jsstring) (w : World) :
  plain_id channelId ->
  channelKeysCache w !! channelId = None ->
  no_key_record w channelId \/ identity_unavailable w \/ unwrap_fails w channelId ->
  getChannelKey channelId w = (Ok None, w)
  /\ (forall message,
        encryptMessage message channelId w
        = (Throw (JsError "Channel key not available"), w))
  /\ (forall ciphertext iv,
        decryptMessage ciphertext iv channelId w
        = (Throw (JsError "Channel key not available"), w)).
Proof. intros _. apply errors_collapsed. Qed.

(** Bob has no Key Record for the channel. *)
Lemma C7_key_errors_collapsed_witness :
  getChannelKey Scenario.general Scenario.bob = (Ok None, Scenario.bob)
  /\ encryptMessage (js "hello") Scenario.general Scenario.bob
     = (Throw (JsError "Channel key not available"), Scenario.bob).
Proof.
  destruct (C7_key_errors_collapsed Scenario.general Scenario.bob plain_general eq_refl
              (or_introl eq_refl)) as (Hg & He & _).
  exact (conj Hg (He (js "hello"))).
Defined.

(** The three causes give the same results: [null] from [getChannelKey], the
    same [Error] from [encryptMessage] and [decryptMessage]. *)
Lemma C7_key_errors_collapsed_counterexample :
  (no_key_record Scenario.bob Scenario.general
   /\ (getChannelKey Scenario.general Scenario.bob).1 = Ok None
   /\ (encryptMessage (js "hello") Scenario.general Scenario.bob).1
      = Throw (JsError "Channel key not available"))
  /\ (identity_unavailable Scenario.bob_without_key
      /\ (getChannelKey Scenario.general Scenario.bob_without_key).1 = Ok None
      /\ (encryptMessage (js "hello") Scenario.general Scenario.bob_without_key).1
         = Throw (JsError "Channel key not available"))
  /\ (unwrap_fails Scenario.bob_with_foreign_record Scenario.general
      /\ (getChannelKey Scenario.general Scenario.bob_with_foreign_record).1 = Ok None
      /\ (encryptMessage (js "hello") Scenario.general Scenario.bob_with_foreign_record).1
         = Throw (JsError "Channel key not available")).
Proof.
  split; [|split].
  - split; [reflexivity|]. split; reflexivity.
  - split; [reflexivity|]. split; reflexivity.
  - split.
    + eexists _, _. split; [reflexivity|]. split; [reflexivity|].
      reflexivity.
    + split; reflexivity.
Qed.

(** ** C8: the probe [hasChannelKey] *)

(** C8, as amended. For a channel id that names no member the key cache
    inherits: [hasChannelKey] never throws; it returns [true] exactly when
    [getChannelKey] returns a key, and leaves the state [getChannelKey]
    leaves. For a user with no Key Record for the channel, when the key cache
    of the process has no key for the channel either, [getChannelKey] returns
    [null], [hasChannelKey] returns [false], and the state is unchanged. *)
Theorem C8_hasChannelKey_probe `{W : WebCrypto} (channelId : jsstring) (w : World) :
  plain_id channelId ->
  exists b key w',
    getChannelKey channelId w = (Ok key, w')
    /\ hasChannelKey channelId w = (Ok b, w')
    /\ (b = true <-> is_Some key)
    /\ (channelKeysCache w !! channelId = None ->
        no_key_record w channelId ->
        key = None /\ b = false /\ w' = w).
Proof. intros _. apply hasChannelKey_probe. Qed.

Lemma C8_hasChannelKey_probe_witness :
  hasChannelKey Scenario.general Scenario.bob = (Ok false, Scenario.bob).
Proof.
  destruct (C8_hasChannelKey_probe Scenario.general Scenario.bob plain_general)
    as (b & key & w' & _ & Hh & _ & Hn).
  destruct (Hn eq_refl eq_refl) as (_ & -> & ->). exact Hh.
Defined.

(** C8 as stated fails when the cache of the process holds a key for the
    channel: Bob has no Key Record, and [hasChannelKey] returns [true]. *)
Lemma C8_hasChannelKey_probe_counterexample :
  no_key_record Scenario.bob_after_alice Scenario.general
  /\ (hasChannelKey Scenario.general Scenario.bob_after_alice).1 = Ok true
  /\ (getChannelKey Scenario.general Scenario.bob_after_alice).1
     = Ok (Some (AesGcmKey (Reference.generate_aes 256 (rng Scenario.alice)).1)).
Proof. split; [reflexivity|]. split; reflexivity. Qed.

(** ** C9: messages without nonce, and batches *)

(** C9. A stored record without nonce is returned unchanged: the loader of
    [fetchMessages], the one caller that decrypts stored records, returns a
    message whose [iv] is absent (or empty) as it is, in an unchanged state,
    and calls [decryptMessage] only for a record that has an [iv]. When the
    stored messages of a channel are retrieved, [fetchMessages] returns as
    many messages as were retrieved, each loaded in timestamp order: kept
    when it has no [iv], with the decrypted content when [decryptMessage]
    returns, with the placeholder when it throws. *)
Theorem C9_fetchMessages_pass_through `{W : WebCrypto} (channelId : jsstring) :
  (forall m w,
     truthy (Message.iv m) = None -> decryptLoaded channelId m w = (Ok m, w))
  /\ (forall w stored_messages w1,
        retrieveMessages channelId w = (Ok stored_messages, w1) ->
        exists out w2,
          fetchMessages channelId w = (Ok out, set_messages out w2)
          /\ loaded_batch channelId w1 (sort_by_timestamp stored_messages) out w2
          /\ length out = length stored_messages).
Proof.
  split; [intros m w; apply decryptLoaded_plain|].
  intros w stored_messages w1 Hretrieve.
  destruct (fetchMessages_batch channelId w stored_messages w1 Hretrieve)
    as (out & w2 & Hfetch & Hbatch).
  exists out, w2. split; [exact Hfetch|]. split; [exact Hbatch|].
  rewrite (loaded_batch_length _ _ _ _ _ Hbatch). apply length_sort_by_timestamp.
Qed.

Lemma C9_fetchMessages_pass_through_witness :
  decryptLoaded Scenario.general Scenario.legacy_message Scenario.inbox
  = (Ok Scenario.legacy_message, Scenario.inbox)
  /\ exists out w2,
       fetchMessages Scenario.general Scenario.inbox = (Ok out, set_messages out w2)
       /\ loaded_batch Scenario.general Scenario.inbox
            (sort_by_timestamp
               [Scenario.damaged_message; Scenario.encrypted_message;
                Scenario.legacy_message]) out w2
       /\ length out = 3%nat.
Proof.
  destruct (C9_fetchMessages_pass_through Scenario.general) as [Hplain Hbatch].
  split.
  - apply Hplain. reflexivity.
  - apply (Hbatch Scenario.inbox
             [Scenario.damaged_message; Scenario.encrypted_message;
              Scenario.legacy_message] Scenario.inbox).
    reflexivity.
Defined.

(** The three stored messages, as [fetchMessages] returns them. *)
Example scenario_fetchMessages :
  (fetchMessages Scenario.general Scenario.inbox).1
  = Ok [Scenario.legacy_message;
        Message.with_content Scenario.encrypted_message (js "hi bob");
        Message.with_content Scenario.damaged_message cannot_decrypt].
Proof. reflexivity. Qed.

(** ** C10: reactions on an encrypted message *)

(** C10. Let [m] be a message of the current channel in the local state,
    with the nonce [r0] of its encryption in [iv]; the key of the channel is
    in the cache and the storage is ready. [addReaction] (for a reaction the
    user has not given yet) and [removeReaction] encrypt the content of [m]
    again, with the next twelve random bytes [r1] as nonce, and store the
    ciphertext next to the old [iv]. When [r1] differs from [r0],
    [decryptMessage] on the stored record throws and [fetchMessages] loads
    the placeholder for it. *)
Theorem C10_reaction_keeps_stale_nonce `{W : WebCrypto} (w : World) (u : User.t)
    (channelId messageId emoji : jsstring) (index : nat) (m : Message.t)
    (r0 : list byte) (k : AesKey) (blobs : gmap (jsstring * jsstring) Json) :
  user (authState w) = Some u ->
  truthy (currentChannelId w) = Some channelId ->
  list_find (fun m => Message.id m = messageId) (messages w) = Some (index, m) ->
  Message.iv m = Some (Base64.encode (map byte_to_Z r0)) ->
  length r0 = 12%nat ->
  channelKeysCache w !! channelId = Some (AesGcmKey k) ->
  storageAdapter w = Some blobs ->
  isInitialized w = true ->
  let r1 := rng_take 12 (rng w) in
  exists c,
    aes_gcm_encrypt k r1 (TextEncoder_encode (Message.content m)) = Some c
    /\ (find (is_reaction_of u emoji) (default [] (Message.reactions m)) = None ->
        exists w',
          addReaction messageId emoji w = (Ok true, w')
          /\ stale_record w' channelId messageId c r0 r1)
    /\ (exists w',
          removeReaction messageId emoji w = (Ok true, w')
          /\ stale_record w' channelId messageId c r0 r1).
Proof. apply reaction_reencrypts. Qed.

Lemma C10_reaction_keeps_stale_nonce_witness :
  exists w' record iv,
    addReaction (js "msg-2") (js "+1") Scenario.chat = (Ok true, w')
    /\ stored w' (js "messages/channel-general") (js "msg-2.json")
       = Some (JsonMessage record)
    /\ arrayBufferToBase64 Scenario.sent_nonce = Ok iv
    /\ Message.iv record = Some iv
    /\ decryptLoaded Scenario.general record w'
       = (Ok (Message.with_content record cannot_decrypt), w').
Proof.
  destruct (C10_reaction_keeps_stale_nonce Scenario.chat (Scenario.member "alice" 11)
              Scenario.general (js "msg-2") (js "+1") 1
              (Message.with_content Scenario.encrypted_message (js "hi bob"))
              Scenario.sent_nonce
              (Reference.generate_aes 256 (rng Scenario.alice)).1
              Scenario.stored_messages
              eq_refl eq_refl eq_refl eq_refl eq_refl eq_refl eq_refl eq_refl)
    as (c & _ & Hadd & _).
  destruct (Hadd eq_refl)
    as (w' & Hrun & record & Hstored & _ & iv & Hnonce & Hiv & Hstale).
  exists w', record, iv. split; [exact Hrun|]. split; [exact Hstored|].
  split; [exact Hnonce|]. split; [exact Hiv|].
  apply Hstale. vm_compute. discriminate.
Defined.

(** ** Further properties *)

(** The base64 helpers of [crypto.ts] are inverse on every buffer:
    [arrayBufferToBase64] returns a text, and [base64ToArrayBuffer] on it
    returns the buffer. *)
Theorem base64_helpers_roundtrip (buffer : list byte) :
  exists text,
    arrayBufferToBase64 buffer = Ok text /\ base64ToArrayBuffer text = Ok buffer.
Proof.
  exists (Base64.encode (map byte_to_Z buffer)).
  split; [apply arrayBufferToBase64_eq|apply base64ToArrayBuffer_encode].
Qed.

(** [getChannelKey] never throws, in any state and for any channel id, and
    changes at most the key cache. *)
Theorem getChannelKey_never_throws `{W : WebCrypto} (channelId : jsstring) (w : World) :
  is_ok (getChannelKey channelId w).1 = true
  /\ same_store w (getChannelKey channelId w).2
  /\ rng (getChannelKey channelId w).2 = rng w.
Proof.
  destruct (getChannelKey_returns channelId w) as (key & w' & Hrun & Hsame & Hrng & _).
  rewrite Hrun. cbn [fst snd is_ok]. split; [reflexivity|]. split; [exact Hsame|exact Hrng].
Qed.

(** [decryptMessage] has no pass-through: with the absent [iv] of a record
    ([undefined]) it throws, for every content, channel and state. *)
Theorem decryptMessage_absent_iv_throws `{W : WebCrypto}
    (content channelId : jsstring) (w : World) :
  exists e w', decryptMessage content (js "undefined") channelId w = (Throw e, w').
Proof. apply decryptMessage_undefined. Qed.

(** ** More concrete processes *)

Module Sessions.

(** A process in which nobody is signed in. *)
Definition visitor : World :=
  set_authState {| user := None; privateKeyJwk := None |} Scenario.alice.

Definition carol_id : jsstring := js "k3x9q2a".

(** Carol signs up, logs out, and logs in again; the id that [login] draws
    is taken to be hers. *)
Definition registered : World :=
  (signUp carol_id (js "carol") (js "carol@example.org") (js "secret") visitor).2.

Definition returning : World := (logout registered).2.

Definition relogged : World :=
  (login carol_id (js "carol@example.org") (js "secret") returning).2.

(** A process whose stored key for the id of Carol is not JSON. *)
Definition tampered : World :=
  set_localStorage {[ js "privateKey-user-k3x9q2a" := js "not json" ]} visitor.

(** Bob signs in in the process in which Alice loaded the messages. *)
Definition reader : World := set_authState (Scenario.signed_in "bob" 29) Scenario.chat.

(** The message of Alice as [fetchMessages] shows it. *)
Definition shown_message : Message.t :=
  Message.with_content Scenario.encrypted_message (js "hi bob").

Definition alice_key : @AesKey reference := (Reference.generate_aes 256 (rng Scenario.alice)).1.

Definition note : File.t :=
  {| File.name := js "note.txt";
     File.type := js "text/plain";
     File.bytes := [x68; xe9; x00; xff] |}.

Definition lobby : Channel.t :=
  {| Channel.id := Scenario.general;
     Channel.name := js "general";
     Channel.description := None;
     Channel.isPrivate := false;
     Channel.members := [js "user-alice"];
     Channel.createdBy := js "user-alice";
     Channel.createdAt := 1700000000000;
     Channel.lastMessage := None;
     Channel.pinnedMessages := None |}.

End Sessions.

(** An edit is stored the way it is shown. For a message of the local list
    that the current user sent, with the key of the current channel in the
    cache and the storage ready, [editMessage] returns [true]; it stores,
    under the key of the message, the record with the new ciphertext, the
    fresh nonce of that encryption as [iv], and [edited]; the local message
    has the new content. The loader of [fetchMessages] reads the new content
    from the stored record, and [fetchMessages] returns the message with it
    whenever the record is among the records it retrieved (the content being
    well formed and not starting with U+FEFF). *)
Theorem editMessage_stores_what_it_shows `{W : WebCrypto} (w : World) (u : User.t)
    (channelId messageId newContent : jsstring) (index : nat) (m : Message.t)
    (k : AesKey) (blobs : gmap (jsstring * jsstring) Json) :
  user (authState w) = Some u ->
  truthy (currentChannelId w) = Some channelId ->
  list_find (fun m => Message.id m = messageId) (messages w) = Some (index, m) ->
  Message.senderId m = User.id u ->
  channelKeysCache w !! channelId = Some (AesGcmKey k) ->
  storageAdapter w = Some blobs ->
  isInitialized w = true ->
  Utf8.well_formed newContent = true ->
  Utf8.starts_with_bom newContent = false ->
  exists c w' record,
    editMessage messageId newContent w = (Ok true, w')
    /\ aes_gcm_encrypt k (rng_take 12 (rng w)) (TextEncoder_encode newContent) = Some c
    /\ record = edited_message m (Base64.encode (map byte_to_Z c))
                  (Base64.encode (map byte_to_Z (rng_take 12 (rng w))))
    /\ stored w' (StoragePaths.MESSAGES ++ js "/" ++ channelId) (messageId ++ js ".json")
       = Some (JsonMessage record)
    /\ messages w' = <[index := Message.with_content record newContent]> (messages w)
    /\ decryptLoaded channelId record w' = (Ok (Message.with_content record newContent), w')
    /\ (forall l w1,
          retrieveMessages channelId w' = (Ok l, w1) ->
          record ∈ l ->
          exists out,
            fetchMessages channelId w' = (Ok out, set_messages out w')
            /\ Message.with_content record newContent ∈ out).
Proof.
  intros Hu Hch Hfind Hsender Hc Hst Hinit Hwf Hbom.
  destruct (editMessage_run messageId newContent w u channelId index m k blobs
              Hu Hch Hfind Hsender Hc Hst Hinit) as (c & Hc' & Hrun).
  cbv zeta in Hrun. eexists c, _, _. split; [exact Hrun|]. split; [exact Hc'|].
  split; [reflexivity|].
  assert (Hload := edited_record_loads channelId m k (rng_take 12 (rng w)) c newContent).
  cbv zeta in Hload.
  split; [unfold stored; cbn; by rewrite lookup_insert_eq|]. split; [reflexivity|].
  split; [by apply Hload; try done; apply length_rng_take|].
  intros l w1 Hr Hin.
  eapply (fetchMessages_member_hit channelId (AesGcmKey k)); [done|exact Hr|exact Hin|].
  by apply Hload; try done; apply length_rng_take.
Qed.

(** Only the sender edits or deletes. When no user is signed in, no channel
    is selected, the message is not in the local list, or its sender is not
    the current user, [editMessage] and [deleteMessage] return [false] and
    change nothing: not the store, not the local list, not the random
    source. *)
Theorem edit_and_delete_only_by_sender `{W : WebCrypto} (w : World)
    (messageId newContent : jsstring) :
  (user (authState w) = None
   \/ truthy (currentChannelId w) = None
   \/ Forall (fun m => Message.id m <> messageId) (messages w)
   \/ (exists u index m,
         user (authState w) = Some u
         /\ list_find (fun m => Message.id m = messageId) (messages w) = Some (index, m)
         /\ Message.senderId m <> User.id u)) ->
  editMessage messageId newContent w = (Ok false, w)
  /\ deleteMessage messageId w = (Ok false, w).
Proof.
  intros H. split.
  - apply editMessage_refused_run.
    destruct (user (authState w)) as [u|] eqn:Hu; [|done].
    destruct (truthy (currentChannelId w)) as [channelId|] eqn:Hch; [|done].
    destruct (list_find _ (messages w)) as [[index m]|] eqn:Hfind; [|done].
    destruct H as [H|[H|[H|(u' & index' & m' & Hu' & Hf' & Hs)]]]; try done.
    + apply list_find_Some in Hfind as (Hi & Hid & _).
      rewrite Forall_forall in H. exfalso. eapply H; [|exact Hid].
      by eapply list_elem_of_lookup_2.
    + by simplify_eq.
  - apply deleteMessage_refused_run.
    destruct (user (authState w)) as [u|] eqn:Hu; [|done].
    destruct (truthy (currentChannelId w)) as [channelId|] eqn:Hch; [|done].
    destruct (find _ (messages w)) as [m|] eqn:Hfind; [|done].
    pose proof (find_some _ _ Hfind) as [Hin Hid]. apply bool_decide_eq_true in Hid.
    destruct H as [H|[H|[H|(u' & index' & m' & Hu' & Hf' & Hs)]]]; try done.
    + rewrite Forall_forall in H. exfalso. eapply H; [|exact Hid].
      by apply list_elem_of_In.
    + rewrite find_list_find, Hf' in Hfind. by simplify_eq/=.
Qed.

(** A deleted message stays in the store. For a message of the local list
    that the current user sent, with the storage ready, [deleteMessage]
    returns [true] and takes the message off the local list; under the key
    of the message it stores the record with the content replaced by a
    fixed text, and removes nothing. Whenever that record is among the
    records the next [fetchMessages] retrieved, [fetchMessages] returns the
    message again: with the placeholder for undecryptable content when it
    had an [iv], with the fixed text otherwise. *)
Theorem deleteMessage_keeps_record `{W : WebCrypto} (w : World) (u : User.t)
    (channelId messageId : jsstring) (m : Message.t)
    (blobs : gmap (jsstring * jsstring) Json) :
  user (authState w) = Some u ->
  truthy (currentChannelId w) = Some channelId ->
  find (fun m => bool_decide (Message.id m = messageId)) (messages w) = Some m ->
  Message.senderId m = User.id u ->
  storageAdapter w = Some blobs ->
  isInitialized w = true ->
  exists w',
    deleteMessage messageId w = (Ok true, w')
    /\ Forall (fun x => Message.id x <> messageId) (messages w')
    /\ storageAdapter w'
       = Some (<[(StoragePaths.MESSAGES ++ js "/" ++ channelId, messageId ++ js ".json") :=
                 JsonMessage (Message.with_content m message_deleted)]> blobs)
    /\ (forall l w1,
          retrieveMessages channelId w' = (Ok l, w1) ->
          Message.with_content m message_deleted ∈ l ->
          exists out w2,
            fetchMessages channelId w' = (Ok out, set_messages out w2)
            /\ Message.with_content m
                 match truthy (Message.iv m) with
                 | Some _ => cannot_decrypt
                 | None => message_deleted
                 end ∈ out).
Proof.
  intros Hu Hch Hfind Hsender Hst Hinit.
  eexists. split; [by apply (deleteMessage_run messageId w u channelId m blobs)|].
  split.
  { cbn [messages set_messages]. apply Forall_forall. intros x Hx.
    apply list_elem_of_In, filter_In in Hx as [_ Hx].
    by apply negb_true_iff, bool_decide_eq_false in Hx. }
  split; [reflexivity|].
  intros l w1 Hr Hl.
  destruct (fetchMessages_member channelId _ l w1
              (Message.with_content m message_deleted) Hr Hl)
    as (out & w2 & m' & wa & wb & Hf & Hin & Hone).
  exists out, w2. split; [exact Hf|].
  by rewrite <- (loaded_one_deleted _ _ _ _ _ Hone).
Qed.




(** [groupMessages] cuts the list into groups: the groups, one after the
    other, are the list, and no group is empty. *)
Theorem groupMessages_partition (messages : list Message.t) :
  concat (groupMessages messages) = messages
  /\ Forall (fun group => group <> []) (groupMessages messages).
Proof.
  rewrite groupMessages_groups_of.
  destruct (groups_of_spec messages) as (Hc & Hn & _). by split.
Qed.

(** Two neighbours in a group have the same sender and are at most five
    minutes apart; the last message of a group and the first of the next
    group have different senders or are more than five minutes apart. *)
Theorem groupMessages_groups (messages : list Message.t) :
  (forall group i a b,
     group ∈ groupMessages messages ->
     group !! i = Some a -> group !! S i = Some b -> same_group a b)
  /\ (forall j group1 group2 a b,
        groupMessages messages !! j = Some group1 ->
        groupMessages messages !! S j = Some group2 ->
        last group1 = Some a -> head group2 = Some b -> ~ same_group a b).
Proof.
  rewrite groupMessages_groups_of.
  destruct (groups_of_spec messages) as (_ & _ & Hr & Ha). split.
  - intros group i a b Hin. rewrite Forall_forall in Hr. apply is_run_lookup. by apply Hr.
  - intros j group1 group2 a b. by apply apart_lookup.
Qed.

(** The run of [sendMessage] that sends, and the record it stores. *)
Lemma sendMessage_sent `{W : WebCrypto} `{P : @Platform W} (w : World) (u : User.t)
    (random : jsstring) (channels : list Channel.t) (content channelId : jsstring)
    (parentId : option jsstring) (k : AesKey) (blobs : gmap (jsstring * jsstring) Json) :
  user (authState w) = Some u ->
  channelKeysCache w !! channelId = Some (AesGcmKey k) ->
  storageAdapter w = Some blobs ->
  isInitialized w = true ->
  truthy parentId = None ->
  Utf8.well_formed content = true ->
  Utf8.starts_with_bom content = false ->
  exists newMessage channels' w',
    sendMessage random channels content channelId parentId w
    = (Ok (Some newMessage, channels'), w')
    /\ Message.id newMessage = js "msg-" ++ random
    /\ Message.senderId newMessage = User.id u
    /\ (exists iv, arrayBufferToBase64 (rng_take 12 (rng w)) = Ok iv
                   /\ Message.iv newMessage = Some iv)
    /\ stored w' (StoragePaths.MESSAGES ++ js "/" ++ channelId)
         (Message.id newMessage ++ js ".json") = Some (JsonMessage newMessage)
    /\ decryptLoaded channelId newMessage w'
       = (Ok (Message.with_content newMessage content), w')
    /\ messages w'
       = (if bool_decide (Some channelId = currentChannelId w)
          then messages w ++ [Message.with_content newMessage content]
          else messages w)
    /\ (forall l w1,
          retrieveMessages channelId w' = (Ok l, w1) ->
          newMessage ∈ l ->
          exists out,
            fetchMessages channelId w' = (Ok out, set_messages out w')
            /\ Message.with_content newMessage content ∈ out).
Proof.
  intros Hu Hc Hst Hinit Hparent Hwf Hbom.
  destruct (sendMessage_run random channels content channelId parentId w u k blobs
              Hu Hc Hst Hinit) as (c & Hc' & Hrun).
  cbv zeta in Hrun. unfold parent_updated in Hrun. rewrite Hparent in Hrun.
  rewrite TextDecoder_TextEncoder in Hrun by done.
  eexists _, _, _. split; [exact Hrun|].
  split; [reflexivity|]. split; [reflexivity|].
  split; [eexists; split; [apply arrayBufferToBase64_eq|reflexivity]|].
  assert (Hstored :
    forall w0, storageAdapter w0 = storageAdapter
      (set_storageAdapter (Some (channel_updated channels channelId
         (sent_message u random (Base64.encode (map byte_to_Z c))
            (Base64.encode (map byte_to_Z (rng_take 12 (rng w)))) (now w) channelId parentId)
         (<[(StoragePaths.MESSAGES ++ js "/" ++ channelId,
             (js "msg-" ++ random) ++ js ".json") :=
              JsonMessage (sent_message u random (Base64.encode (map byte_to_Z c))
                (Base64.encode (map byte_to_Z (rng_take 12 (rng w)))) (now w) channelId
                parentId)]> blobs)).2) w) ->
    stored w0 (StoragePaths.MESSAGES ++ js "/" ++ channelId)
      ((js "msg-" ++ random) ++ js ".json")
    = Some (JsonMessage (sent_message u random (Base64.encode (map byte_to_Z c))
              (Base64.encode (map byte_to_Z (rng_take 12 (rng w)))) (now w) channelId
              parentId))).
  { intros w0 Hw0. unfold stored. rewrite Hw0. cbn [storageAdapter set_storageAdapter].
    rewrite channel_updated_lookup
      by (intros H; by apply (channels_path_messages channelId)).
    apply lookup_insert_eq. }
  assert (Hload := fun w0 Hw0 =>
    sent_message_loads channelId u random k (rng_take 12 (rng w)) c content (now w)
      parentId w0 Hw0 (length_rng_take _ _) Hc').
  cbv zeta in Hload. setoid_rewrite TextDecoder_TextEncoder in Hload; [|done..].
  split; [by apply Hstored|]. split; [by apply Hload|]. split; [reflexivity|].
  intros l w1 Hr Hin.
  eapply (fetchMessages_member_hit channelId (AesGcmKey k)); [done|exact Hr|exact Hin|].
  by apply Hload.
Qed.

(** What [sendMessage] stores is what it shows. For a signed-in user, with
    the key of the channel in the cache and the storage ready, [sendMessage]
    (not a reply) returns the new message: its id is [msg-] and the random
    text, its content the ciphertext, its [iv] the fresh nonce; the record
    is stored under [messages/<channelId>]; the message is added to the
    local list, with the plain content, exactly when the channel is the
    current one. The loader of [fetchMessages] reads the content back from
    the stored record, and [fetchMessages] returns the message with it
    whenever the record is among the records it retrieved (the content being
    well formed and not starting with U+FEFF). *)
Theorem sendMessage_roundtrip `{W : WebCrypto} `{P : @Platform W} (w : World) (u : User.t)
    (random : jsstring) (channels : list Channel.t) (content channelId : jsstring)
    (parentId : option jsstring) (k : AesKey) (blobs : gmap (jsstring * jsstring) Json) :
  user (authState w) = Some u ->
  channelKeysCache w !! channelId = Some (AesGcmKey k) ->
  storageAdapter w = Some blobs ->
  isInitialized w = true ->
  truthy parentId = None ->
  Utf8.well_formed content = true ->
  Utf8.starts_with_bom content = false ->
  exists newMessage channels' w',
    sendMessage random channels content channelId parentId w
    = (Ok (Some newMessage, channels'), w')
    /\ Message.id newMessage = js "msg-" ++ random
    /\ Message.senderId newMessage = User.id u
    /\ (exists iv, arrayBufferToBase64 (rng_take 12 (rng w)) = Ok iv
                   /\ Message.iv newMessage = Some iv)
    /\ stored w' (StoragePaths.MESSAGES ++ js "/" ++ channelId)
         (Message.id newMessage ++ js ".json") = Some (JsonMessage newMessage)
    /\ decryptLoaded channelId newMessage w'
       = (Ok (Message.with_content newMessage content), w')
    /\ messages w'
       = (if bool_decide (Some channelId = currentChannelId w)
          then messages w ++ [Message.with_content newMessage content]
          else messages w)
    /\ (forall l w1,
          retrieveMessages channelId w' = (Ok l, w1) ->
          newMessage ∈ l ->
          exists out,
            fetchMessages channelId w' = (Ok out, set_messages out w')
            /\ Message.with_content newMessage content ∈ out).
Proof. apply sendMessage_sent. Qed.


(** A reply writes the parent to the store as it is shown. When
    [sendMessage] is given the id of a message of the local list as
    [parentId] (with a signed-in user, the key of the channel in the cache
    and the storage ready), it stores, under the key of the parent in
    [messages/<channelId>], the local message with [replyCount] one higher:
    the content of the stored record is the content of the local message,
    which for a message that [fetchMessages] decrypted is the plain text,
    next to its [iv]. *)
Theorem sendMessage_reply_stores_local_parent `{W : WebCrypto} `{P : @Platform W}
    (w : World) (u : User.t) (random : jsstring) (channels : list Channel.t)
    (content channelId parentId : jsstring) (index : nat) (parent : Message.t)
    (k : AesKey) (blobs : gmap (jsstring * jsstring) Json) :
  user (authState w) = Some u ->
  channelKeysCache w !! channelId = Some (AesGcmKey k) ->
  storageAdapter w = Some blobs ->
  isInitialized w = true ->
  parentId <> [] ->
  list_find (fun m => Message.id m = parentId) (messages w) = Some (index, parent) ->
  exists newMessage channels' w' record,
    sendMessage random channels content channelId (Some parentId) w
    = (Ok (Some newMessage, channels'), w')
    /\ record = with_replyCount parent (default 0 (Message.replyCount parent) + 1)
    /\ Message.content record = Message.content parent
    /\ Message.iv record = Message.iv parent
    /\ stored w' (StoragePaths.MESSAGES ++ js "/" ++ channelId) (parentId ++ js ".json")
       = Some (JsonMessage record)
    /\ messages w' !! index = Some record.
Proof.
  intros Hu Hc Hst Hinit Hne Hfind.
  destruct (sendMessage_run random channels content channelId (Some parentId) w u k blobs
              Hu Hc Hst Hinit) as (c & Hc' & Hrun).
  cbv zeta in Hrun. unfold parent_updated in Hrun.
  assert (Ht : truthy (Some parentId) = Some parentId) by (by destruct parentId).
  rewrite Ht, Hfind in Hrun.
  pose proof (proj1 (list_find_Some _ _ _ _) Hfind) as (Hindex & Hid & _).
  eexists _, _, _, _. split; [exact Hrun|]. split; [reflexivity|].
  split; [reflexivity|]. split; [reflexivity|]. split.
  - unfold stored. cbn [storageAdapter set_storageAdapter].
    rewrite channel_updated_lookup
      by (intros H; by apply (channels_path_messages channelId)).
    rewrite <- Hid. apply lookup_insert_eq.
  - assert (Hlt : (index < length (messages w))%nat) by (by eapply lookup_lt_Some).
    destruct (bool_decide (Some channelId = currentChannelId w));
      cbn [messages set_messages set_storageAdapter].
    + rewrite lookup_app_l by (by rewrite length_insert).
      by apply list_lookup_insert_eq.
    + by apply list_lookup_insert_eq.
Qed.

(** Without a key nothing is sent. When no user is signed in, or the cache
    has no key for the channel and the key cannot be resolved, [sendMessage]
    returns [null]; it stores nothing and changes nothing. *)
Theorem sendMessage_needs_key `{W : WebCrypto} `{P : @Platform W} (w : World)
    (random : jsstring) (channels : list Channel.t) (content channelId : jsstring)
    (parentId : option jsstring) :
  user (authState w) = None
  \/ (channelKeysCache w !! channelId = None
      /\ (no_key_record w channelId \/ identity_unavailable w \/ unwrap_fails w channelId)) ->
  sendMessage random channels content channelId parentId w = (Ok (None, channels), w).
Proof. apply sendMessage_fails. Qed.

(** The effect on [currentChannelId] with the key of the current channel in
    the cache: it never throws and changes the list of messages only; what
    was retrieved is loaded into the list. *)
Lemma currentChannelEffect_hit `{W : WebCrypto} (channelId : jsstring) (k : CryptoKey)
    (w : World) :
  truthy (currentChannelId w) = Some channelId ->
  channelKeysCache w !! channelId = Some k ->
  exists loaded,
    currentChannelEffect w = (Ok tt, set_messages loaded w)
    /\ (forall l w1,
          retrieveMessages channelId w = (Ok l, w1) ->
          Forall2 (fun m m' => decryptLoaded channelId m w = (Ok m', w))
            (sort_by_timestamp l) loaded).
Proof.
  intros Hch Hc. unfold currentChannelEffect, bind at 1, gets at 1. rewrite Hch.
  unfold bind, ret.
  destruct (retrieveMessages channelId w) as [[l|e] w1] eqn:Hr.
  - destruct (fetchMessages_loaded_hit channelId k w l w1 Hc Hr) as (out & Hf & Hall).
    exists out. rewrite Hf. split; [done|]. by intros l' w1' [= <- <-].
  - exists (messages w). rewrite (fetchMessages_throw _ _ _ _ Hr).
    split; [by destruct w|done].
Qed.

(** Create a channel, send a message, read it back. A user who is signed in
    with the keys of a generated pair, with the storage ready:
    [createChannel] returns the id [channel-] and the random text, makes the
    channel the current one and puts its key into the cache. The effect on
    [currentChannelId], which runs after the call when the current channel
    has changed, loads the messages of the channel: it changes the local
    list only, to what was retrieved for the channel as the loader reads
    it. [sendMessage] to the channel after it returns the new message,
    stores its record and adds the message with the plain content to the end
    of that list. The loader reads the content back from the stored record,
    and [fetchMessages] returns the message with it whenever the record is
    among the records it retrieved (the content being well formed and not
    starting with U+FEFF). *)
Theorem create_send_fetch `{W : WebCrypto} `{P : @Platform W} (w : World) (u : User.t)
    (pk : RsaPublic) (sk : RsaPrivate) (random random' : jsstring)
    (channels : list Channel.t) (name description content : jsstring) (isPrivate : bool) :
  ready w u pk sk ->
  Utf8.well_formed content = true ->
  Utf8.starts_with_bom content = false ->
  exists channelId channels1 w1 loaded newMessage channels2 w2,
    createChannel random channels name description isPrivate w
    = (Ok (channelId, channels1), w1)
    /\ channelId = js "channel-" ++ random
    /\ currentChannelId w1 = Some channelId
    /\ hasChannelKey channelId w1 = (Ok true, w1)
    /\ currentChannelEffect w1 = (Ok tt, set_messages loaded w1)
    /\ (forall l wl,
          retrieveMessages channelId w1 = (Ok l, wl) ->
          Forall2 (fun m m' => decryptLoaded channelId m w1 = (Ok m', w1))
            (sort_by_timestamp l) loaded)
    /\ sendMessage random' channels1 content channelId None (set_messages loaded w1)
       = (Ok (Some newMessage, channels2), w2)
    /\ Message.id newMessage = js "msg-" ++ random'
    /\ messages w2 = loaded ++ [Message.with_content newMessage content]
    /\ stored w2 (StoragePaths.MESSAGES ++ js "/" ++ channelId)
         (Message.id newMessage ++ js ".json") = Some (JsonMessage newMessage)
    /\ decryptLoaded channelId newMessage w2
       = (Ok (Message.with_content newMessage content), w2)
    /\ (forall l wl,
          retrieveMessages channelId w2 = (Ok l, wl) ->
          newMessage ∈ l ->
          exists out,
            fetchMessages channelId w2 = (Ok out, set_messages out w2)
            /\ Message.with_content newMessage content ∈ out).
Proof.
  intros Hready Hwf Hbom.
  pose proof Hready as (Hu & _ & _ & _ & _ & Hinit).
  destruct (createChannel_ready random channels name description isPrivate w u pk sk
              Hready) as (c & g & blobs & Hst & Hcreate).
  cbv zeta in Hcreate.
  set (newChannel := new_channel u random name description isPrivate (now w)) in *.
  set (k := (aes_generateKey 256 (rng w)).1) in *.
  set (blobs2 := <[(key_record_path (Channel.id newChannel), key_record_key (User.id u)) := _]> _)
    in Hcreate.
  set (w1 := set_currentChannelId _ _) in Hcreate.
  assert (Hcache1 : channelKeysCache w1 !! Channel.id newChannel = Some (AesGcmKey k))
    by (subst w1; cbn; by rewrite lookup_insert_eq).
  destruct (currentChannelEffect_hit (Channel.id newChannel) (AesGcmKey k) w1 eq_refl Hcache1)
    as (loaded & Heffect & Hloaded).
  destruct (sendMessage_sent (set_messages loaded w1) u random' (newChannel :: channels)
              content (Channel.id newChannel) None k blobs2 Hu Hcache1 eq_refl Hinit eq_refl
              Hwf Hbom)
    as (newMessage & channels2 & w2 & Hsend & Hid & _ & _ & Hstored & Hload & Hmessages
        & Hfetch).
  rewrite bool_decide_true in Hmessages by done.
  exists (Channel.id newChannel), (newChannel :: channels), w1, loaded, newMessage,
    channels2, w2.
  split; [exact Hcreate|]. split; [reflexivity|]. split; [reflexivity|].
  split.
  { rewrite hasChannelKey_run, (getChannelKey_hit _ _ _ Hcache1). reflexivity. }
  split; [exact Heffect|]. split; [exact Hloaded|]. split; [exact Hsend|].
  split; [exact Hid|]. split; [exact Hmessages|]. split; [exact Hstored|].
  split; [exact Hload|exact Hfetch].
Qed.


(** A channel without a key. For a signed-in user whose record has no
    public key (as [login] leaves a user whose private key was in
    [localStorage]), with the storage ready: [createChannel] returns the id
    of the new channel and makes it the current one, although
    [generateChannelKey] failed; the key of the channel cannot be resolved:
    [hasChannelKey] returns [false], and every [sendMessage] to the channel
    returns [null]. *)
Theorem createChannel_without_key `{W : WebCrypto} `{P : @Platform W} (w : World)
    (u : User.t) (random : jsstring) (channels : list Channel.t)
    (name description : jsstring) (isPrivate : bool)
    (blobs : gmap (jsstring * jsstring) Json) :
  user (authState w) = Some u ->
  truthy (User.publicKey u) = None ->
  storageAdapter w = Some blobs ->
  isInitialized w = true ->
  channelKeysCache w !! (js "channel-" ++ random) = None ->
  no_key_record w (js "channel-" ++ random) ->
  exists channels' w',
    createChannel random channels name description isPrivate w
    = (Ok (js "channel-" ++ random, channels'), w')
    /\ currentChannelId w' = Some (js "channel-" ++ random)
    /\ hasChannelKey (js "channel-" ++ random) w' = (Ok false, w')
    /\ forall random' channels'' content parentId,
         sendMessage random' channels'' content (js "channel-" ++ random) parentId w'
         = (Ok (None, channels''), w').
Proof.
  intros Hu Hpk Hst Hinit Hcache Hnone.
  pose proof (createChannel_run random channels name description isPrivate w u blobs
                Hu Hst Hinit) as Hcreate.
  cbv zeta in Hcreate.
  rewrite (generateChannelKey_no_public_key _ _ u) in Hcreate by done.
  cbn [snd new_channel Channel.id] in Hcreate.
  eexists _, _. split; [exact Hcreate|]. split; [reflexivity|].
  match type of Hcreate with _ = (_, ?w1) => set (w' := w1) in * end.
  assert (Hnone' : no_key_record w' (js "channel-" ++ random)).
  { unfold no_key_record, current_key_record, stored in *. cbn. rewrite Hst in Hnone.
    rewrite lookup_insert_ne; [done|].
    intros [= H]. }
  destruct (errors_collapsed (js "channel-" ++ random) w' Hcache (or_introl Hnone'))
    as (Hget & _).
  split; [by rewrite hasChannelKey_run, Hget|].
  intros random' channels'' content parentId.
  apply sendMessage_fails. right. split; [exact Hcache|by left].
Qed.

(** A file comes back byte for byte. With the key of the channel in the
    cache, for a file of at most as many bytes as the engine passes as
    arguments: [encryptFile] returns the encrypted data, the nonce and the
    metadata, and [decryptFile] on them (in any process that has the key)
    returns a [Blob] with the bytes of the file and, the type of a file
    being printable ASCII in lower case, its type. *)
Theorem file_roundtrip `{W : WebCrypto} `{P : @Platform W} (file : File.t)
    (channelId : jsstring) (k : AesKey) (w w2 : World) :
  channelKeysCache w !! channelId = Some (AesGcmKey k) ->
  channelKeysCache w2 !! channelId = Some (AesGcmKey k) ->
  (length (File.bytes file) <= apply_arguments_limit)%nat ->
  Blob_type (Some (File.type file)) = File.type file ->
  exists e w',
    encryptFile file channelId w = (Ok e, w')
    /\ decryptFile (EncryptedFile.encryptedData e) (EncryptedFile.iv e)
         (EncryptedFile.metadata e) channelId w2
       = (Ok {| Blob.bytes := File.bytes file; Blob.type := File.type file |}, w2).
Proof.
  intros Hc Hc2 Hlen Htype.
  destruct (encryptFile_run file channelId w k Hc Hlen) as (c & Hc' & He).
  eexists _, _. split; [exact He|].
  rewrite (decryptFile_run _ _ _ _ _ _ Hc2). cbn [EncryptedFile.encryptedData
    EncryptedFile.iv EncryptedFile.metadata].
  rewrite decryptWithSymmetricKey_eq.
  destruct (aes_gcm_correct k (rng_take 12 (rng w))
              (TextEncoder_encode (map byte_to_Z (File.bytes file))))
    as (c' & Hc2' & Hd); [apply length_rng_take|].
  assert (c' = c) as -> by congruence. rewrite Hd.
  destruct (latin1_well_formed (map byte_to_Z (File.bytes file))
              (map_byte_to_Z_range _)) as (Hwf & Hbom & _).
  rewrite TextDecoder_TextEncoder by done. cbn [result_bind].
  rewrite JSON_parse_type_metadata. cbn [result_bind].
  by rewrite map_byte_of_to, Htype.
Qed.

(** A file is encrypted as text. [encryptFile] turns each byte of the file
    into the character of that code and encrypts the UTF-8 bytes of the text,
    under the next twelve bytes of the random source as nonce; the encrypted
    data it returns is the base64 text of that ciphertext. The encrypted
    plaintext has one byte more for every byte of the file from 0x80 on. *)
Theorem encryptFile_plaintext `{W : WebCrypto} `{P : @Platform W} (file : File.t)
    (channelId : jsstring) (k : AesKey) (w : World) :
  channelKeysCache w !! channelId = Some (AesGcmKey k) ->
  (length (File.bytes file) <= apply_arguments_limit)%nat ->
  let plaintext := TextEncoder_encode (map byte_to_Z (File.bytes file)) in
  exists e w' c,
    encryptFile file channelId w = (Ok e, w')
    /\ aes_gcm_encrypt k (rng_take 12 (rng w)) plaintext = Some c
    /\ arrayBufferToBase64 c = Ok (EncryptedFile.encryptedData e)
    /\ base64ToArrayBuffer (EncryptedFile.encryptedData e) = Ok c
    /\ arrayBufferToBase64 (rng_take 12 (rng w)) = Ok (EncryptedFile.iv e)
    /\ length plaintext
       = (length (File.bytes file)
          + length (List.filter (fun b => (128 <=? byte_to_Z b)%Z) (File.bytes file)))%nat.
Proof.
  intros Hc Hlen plaintext.
  destruct (encryptFile_run file channelId w k Hc Hlen) as (c & Hc' & He).
  eexists _, _, c. split; [exact He|]. split; [exact Hc'|].
  cbn [EncryptedFile.encryptedData EncryptedFile.iv].
  split; [apply arrayBufferToBase64_eq|]. split; [apply base64ToArrayBuffer_encode|].
  split; [apply arrayBufferToBase64_eq|].
  destruct (latin1_well_formed (map byte_to_Z (File.bytes file))
              (map_byte_to_Z_range _)) as (_ & _ & Hl).
  unfold plaintext, TextEncoder_encode. rewrite length_map, Hl, length_map. f_equal.
  clear. induction (File.bytes file) as [|b bs IH]; [done|].
  cbn [map List.filter]. destruct (128 <=? byte_to_Z b); cbn [length]; by rewrite IH.
Qed.

(** A file too large for [String.fromCharCode.apply] is not encrypted. With
    the key of the channel in the cache, for a file of more bytes than the
    engine passes as arguments, [encryptFile] throws the error of the call;
    no nonce is drawn and nothing else changes. *)
Theorem encryptFile_over_limit `{W : WebCrypto} `{P : @Platform W} (file : File.t)
    (channelId : jsstring) (k : CryptoKey) (w : World) :
  channelKeysCache w !! channelId = Some k ->
  (apply_arguments_limit < length (File.bytes file))%nat ->
  exists error, encryptFile file channelId w = (Throw error, w).
Proof.
  intros Hc Hlen. eexists. unfold encryptFile, try_catch.
  unfold bind at 1. rewrite (getChannelKey_hit _ _ _ Hc).
  unfold bind at 1, liftR at 1, String_fromCharCode_apply.
  rewrite decide_False by (rewrite length_map; lia). reflexivity.
Qed.

(** After [signUp] with the storage configured, the new user is ready: the
    user record carries the public key of a generated pair, the private key
    of the pair is the local one, and a channel key can be generated. *)
Theorem signUp_ready `{W : WebCrypto} `{P : @Platform W} (w : World)
    (random name email password : jsstring) (blobs : gmap (jsstring * jsstring) Json) :
  storageAdapter w = Some blobs ->
  isInitialized w = true ->
  exists w' u pk sk,
    signUp random name email password w = (Ok true, w')
    /\ User.id u = js "user-" ++ random
    /\ User.name u = name
    /\ User.email u = email
    /\ ready w' u pk sk
    /\ localStorage w' !! (js "privateKey-user-" ++ random)
       = Some (JSON_stringify (export_rsa_private sk))
    /\ channelKeysCache w' = channelKeysCache w
    /\ forall channelId, exists w'',
         generateChannelKey channelId w' = (Ok true, w'')
         /\ channelKeysCache w'' !! channelId
            = Some (AesGcmKey (aes_generateKey 256 (rng w')).1).
Proof.
  intros Hst Hinit.
  pose proof (signUp_run random name email password w) as Hrun.
  unfold signed_up in Hrun.
  destruct (rsa_generateKey 2048 (rng w)) as [[pk sk] g] eqn:Hgen.
  cbv zeta in Hrun.
  set (u := new_user random name email pk) in *.
  match type of Hrun with _ = (_, ?x) => set (w' := x) in * end.
  assert (Hready : ready w' u pk sk).
  { split; [reflexivity|]. split; [apply new_user_public_key|].
    split.
    { unfold local_private_key, getPrivateKey, bind, gets, ret. cbn.
      apply import_export_rsa_private. }
    split; [by exists (rng w), g|]. split; [by exists blobs|exact Hinit]. }
  exists w', u, pk, sk. split; [exact Hrun|]. do 3 (split; [reflexivity|]).
  split; [exact Hready|]. split.
  { subst w'. cbn -[js]. apply lookup_insert_eq. }
  split; [reflexivity|].
  intros channelId.
  destruct Hready as (Hu & Hpk & Hsk & _ & (blobs' & Hst') & Hinit').
  destruct (local_private_key_Some _ _ Hsk) as (jwk & Hjwk & _).
  destruct (exported_key_text (rng w')) as [Hlen _].
  destruct (rsa_oaep_correct _ _ _ _ _ (aes_generateKey 256 (rng w')).2 Hgen Hlen)
    as (c & Hc & _).
  eexists. split.
  { exact (generateChannelKey_run channelId w' u jwk pk blobs' Hu Hjwk Hpk Hst' Hinit' c Hc). }
  cbn. by rewrite lookup_insert_eq.
Qed.

(** [login] with no stored key for the id it draws creates a new identity:
    the name is the part of the address before the at sign, a key pair is
    generated, and with the storage configured the user is ready. *)
Theorem login_new_identity `{W : WebCrypto} `{P : @Platform W} (w : World)
    (random email password : jsstring) (blobs : gmap (jsstring * jsstring) Json) :
  truthy (localStorage w !! (js "privateKey-user-" ++ random)) = None ->
  storageAdapter w = Some blobs ->
  isInitialized w = true ->
  exists w' u pk sk,
    login random email password w = (Ok true, w')
    /\ User.id u = js "user-" ++ random
    /\ User.name u = before_at email
    /\ User.email u = email
    /\ rsa_generateKey 2048 (rng w) = ((pk, sk), rng w')
    /\ ready w' u pk sk
    /\ localStorage w' !! (js "privateKey-user-" ++ random)
       = Some (JSON_stringify (export_rsa_private sk))
    /\ forall channelId, exists w'',
         generateChannelKey channelId w' = (Ok true, w'').
Proof.
  intros Hnone Hst Hinit.
  pose proof (login_run_fresh random email password w Hnone) as Hrun.
  unfold logged_in in Hrun.
  destruct (rsa_generateKey 2048 (rng w)) as [[pk sk] g] eqn:Hgen.
  cbv zeta in Hrun.
  set (u := new_user random (before_at email) email pk) in *.
  match type of Hrun with _ = (_, ?x) => set (w' := x) in * end.
  assert (Hready : ready w' u pk sk).
  { split; [reflexivity|]. split; [apply new_user_public_key|].
    split.
    { unfold local_private_key, getPrivateKey, bind, gets, ret. cbn.
      apply import_export_rsa_private. }
    split; [by exists (rng w), g|]. split; [by exists blobs|exact Hinit]. }
  exists w', u, pk, sk. split; [exact Hrun|]. do 3 (split; [reflexivity|]).
  split; [reflexivity|]. split; [exact Hready|]. split.
  { subst w'. cbn -[js]. rewrite !lookup_insert_ne by done. apply lookup_insert_eq. }
  intros channelId.
  destruct (ready_generateChannelKey w' u pk sk channelId Hready) as (w'' & Hg & _).
  by exists w''.
Qed.

(** [login] that finds a stored key for the id it draws signs the user in
    with that key and without a public key: no channel key can be generated
    then. *)
Theorem login_stored_key_no_public_key `{W : WebCrypto} `{P : @Platform W} (w : World)
    (random email password text : jsstring) (jwk : JsonWebKey) :
  localStorage w !! (js "privateKey-user-" ++ random) = Some text ->
  text <> [] ->
  JSON_parse text = Some jwk ->
  exists w' u,
    login random email password w = (Ok true, w')
    /\ user (authState w') = Some u
    /\ User.id u = js "user-" ++ random
    /\ User.publicKey u = None
    /\ privateKeyJwk (authState w') = Some jwk
    /\ localStorage w' !! js "privateKey" = Some text
    /\ rng w' = rng w
    /\ forall channelId,
         (generateChannelKey channelId w').1 = Ok false
         /\ channelKeysCache (generateChannelKey channelId w').2 = channelKeysCache w
         /\ storageAdapter (generateChannelKey channelId w').2 = storageAdapter w.
Proof.
  intros Hitem Htext Hjwk.
  pose proof (login_run_stored random email password w text jwk Hitem Htext Hjwk) as Hrun.
  cbv zeta in Hrun.
  eexists _, _. split; [exact Hrun|]. split; [reflexivity|]. do 2 (split; [reflexivity|]).
  split; [reflexivity|]. split; [cbn -[js]; apply lookup_insert_eq|].
  split; [reflexivity|].
  intros channelId.
  erewrite generateChannelKey_no_public_key; [|reflexivity|reflexivity].
  by repeat split.
Qed.

(** The session that [checkAuthState] restores from [localStorage] is the
    authentication state that [signUp] or [login] left, whatever they
    returned. *)
Theorem session_restored `{W : WebCrypto} `{P : @Platform W} (w w1 w2 : World)
    (random name email password : jsstring) :
  w1 = (signUp random name email password w).2
  \/ w1 = (login random email password w).2 ->
  localStorage w2 = localStorage w1 ->
  checkAuthState w2 = (Ok tt, set_authState (authState w1) w2).
Proof.
  intros [-> | ->] Hls.
  - by apply checkAuthState_signUp.
  - by apply checkAuthState_login.
Qed.

(** [logout] removes the user item only: the cached channel keys stay, and
    whoever logs in next in the same process finds them and decrypts with
    them. *)
Theorem logout_keeps_channel_keys `{W : WebCrypto} `{P : @Platform W} (w : World)
    (channelId : jsstring) (k : CryptoKey) (random email password : jsstring) :
  channelKeysCache w !! channelId = Some k ->
  exists w1 b w2,
    logout w = (Ok tt, w1)
    /\ user (authState w1) = None
    /\ localStorage w1 = delete (js "user") (localStorage w)
    /\ (getPrivateKey w1).1 = Ok None
    /\ getChannelKey channelId w1 = (Ok (Some k), w1)
    /\ login random email password w1 = (Ok b, w2)
    /\ getChannelKey channelId w2 = (Ok (Some k), w2)
    /\ forall encryptedContent iv,
         (decryptMessage encryptedContent iv channelId w2).1
         = (decryptMessage encryptedContent iv channelId w).1.
Proof.
  intros Hc. rewrite logout_run.
  set (w1 := set_authState _ _).
  assert (Hc1 : channelKeysCache w1 !! channelId = Some k) by exact Hc.
  pose proof (login_channelKeysCache random email password w1) as Hcache.
  assert (Hret : exists b, login random email password w1
                           = (Ok b, (login random email password w1).2)).
  { unfold login, try_catch.
    match goal with |- context [match ?m w1 with _ => _ end] =>
      destruct (m w1) as [[b|e] w'] end; [by exists b|by exists false]. }
  destruct Hret as [b Hret].
  set (w2 := (login random email password w1).2) in *.
  assert (Hc2 : channelKeysCache w2 !! channelId = Some k) by (by rewrite Hcache).
  exists w1, b, w2. split; [reflexivity|]. split; [reflexivity|]. split; [reflexivity|].
  split; [reflexivity|]. split; [by apply getChannelKey_hit|]. split; [exact Hret|].
  split; [by apply getChannelKey_hit|].
  intros encryptedContent iv.
  by rewrite (decryptMessage_cached _ _ _ _ _ Hc2), (decryptMessage_cached _ _ _ _ _ Hc).
Qed.

(** The protected routes follow the user item of [localStorage], not the
    authentication state: they are open after [signUp] and after [login],
    whatever [login] returned, and closed after [logout]. *)
Theorem ProtectedRoute_follows_user_item `{W : WebCrypto} `{P : @Platform W} (w : World)
    (random name email password : jsstring) :
  ProtectedRoute (signUp random name email password w).2 = true
  /\ ProtectedRoute (login random email password w).2 = true
  /\ ProtectedRoute (logout w).2 = false.
Proof.
  split; [|split].
  - rewrite signUp_run. unfold signed_up, ProtectedRoute.
    destruct (rsa_generateKey 2048 (rng w)) as [[pk sk] g]. cbn -[js].
    rewrite !lookup_insert_ne by done. by rewrite lookup_insert_eq.
  - unfold ProtectedRoute.
    destruct (truthy (localStorage w !! (js "privateKey-user-" ++ random)))
      as [text|] eqn:Hitem.
    + apply truthy_Some in Hitem as [Hitem Htext].
      destruct (JSON_parse text) as [jwk|] eqn:Hjwk.
      * rewrite (login_run_stored random email password w text jwk Hitem Htext Hjwk).
        cbn -[js]. rewrite lookup_insert_ne by done. by rewrite lookup_insert_eq.
      * rewrite (login_run_damaged random email password w text Hitem Htext Hjwk).
        cbn -[js]. rewrite lookup_insert_ne by done. by rewrite lookup_insert_eq.
    + rewrite (login_run_fresh random email password w Hitem). unfold logged_in.
      destruct (rsa_generateKey 2048 (rng w)) as [[pk sk] g]. cbn -[js].
      rewrite lookup_insert_ne by done. by rewrite lookup_insert_eq.
  - rewrite logout_run. unfold ProtectedRoute. cbn -[js]. by rewrite lookup_delete_eq.
Qed.

(** A [login] that finds a stored key that is not JSON fails after it has
    written the user item: it returns [false] and nobody is signed in, but
    the protected routes are open; [checkAuthState] then leaves the user
    signed out. *)
Theorem failed_login_opens_route `{W : WebCrypto} `{P : @Platform W} (w : World)
    (random email password text : jsstring) :
  localStorage w !! (js "privateKey-user-" ++ random) = Some text ->
  text <> [] ->
  JSON_parse text = None ->
  exists w',
    login random email password w = (Ok false, w')
    /\ user (authState w') = None
    /\ privateKeyJwk (authState w') = None
    /\ ProtectedRoute w' = true
    /\ localStorage w' !! js "privateKey" = Some text
    /\ checkAuthState w' = (Ok tt, w').
Proof.
  intros Hitem Htext Hjwk.
  pose proof (login_run_damaged random email password w text Hitem Htext Hjwk) as Hrun.
  cbv zeta in Hrun.
  match type of Hrun with _ = (_, ?x) => set (w' := x) in * end.
  exists w'. split; [exact Hrun|]. split; [reflexivity|]. split; [reflexivity|].
  split.
  { unfold ProtectedRoute. subst w'. cbn -[js].
    rewrite lookup_insert_ne by done. by rewrite lookup_insert_eq. }
  split; [subst w'; cbn -[js]; apply lookup_insert_eq|].
  pose proof (checkAuthState_login random email password w w') as Hcheck.
  rewrite Hrun in Hcheck. cbn [snd] in Hcheck. by rewrite Hcheck.
Qed.

(** Pinning a message that is not pinned appends its id to the pinned
    messages of the channel and stores the channel; pinning it again changes
    nothing; unpinning it then gives the pinned messages from before, in the
    list of channels and in the stored channel. *)
Theorem pin_then_unpin `{W : WebCrypto} `{P : @Platform W} (w : World) (u : User.t)
    (blobs : gmap (jsstring * jsstring) Json) (channels : list Channel.t)
    (messageId channelId : jsstring) (i : nat) (c : Channel.t) :
  user (authState w) = Some u ->
  storageAdapter w = Some blobs ->
  isInitialized w = true ->
  list_find (fun c => Channel.id c = channelId) channels = Some (i, c) ->
  messageId ∉ default [] (Channel.pinnedMessages c) ->
  let pinned :=
    Channel.with_pinnedMessages c (default [] (Channel.pinnedMessages c) ++ [messageId]) in
  let unpinned :=
    Channel.with_pinnedMessages c (default [] (Channel.pinnedMessages c)) in
  exists w1 w2,
    pinMessage channels messageId channelId w = (Ok (true, <[i := pinned]> channels), w1)
    /\ stored w1 StoragePaths.CHANNELS (channelId ++ js ".json")
       = Some (JsonText (JSON_stringify_Channel pinned))
    /\ pinMessage (<[i := pinned]> channels) messageId channelId w1
       = (Ok (true, <[i := pinned]> channels), w1)
    /\ unpinMessage (<[i := pinned]> channels) messageId channelId w1
       = (Ok (true, <[i := unpinned]> channels), w2)
    /\ stored w2 StoragePaths.CHANNELS (channelId ++ js ".json")
       = Some (JsonText (JSON_stringify_Channel unpinned)).
Proof.
  intros Hu Hst Hinit Hfind Hnot pinned unpinned.
  pose proof (pinMessage_run channels messageId channelId w u blobs i c
                Hu Hst Hinit Hfind Hnot) as Hpin.
  cbv zeta in Hpin. fold pinned in Hpin.
  match type of Hpin with _ = (_, ?x) => set (w1 := x) in * end.
  assert (Hid : Channel.id pinned = channelId).
  { apply list_find_Some in Hfind as (_ & Hid & _). exact Hid. }
  pose proof (list_find_insert (fun c => Channel.id c = channelId) channels i c pinned
                Hfind Hid) as Hfind1.
  pose proof (unpinMessage_run (<[i := pinned]> channels) messageId channelId w1 u _ i pinned
                Hu eq_refl Hinit Hfind1) as Hunpin.
  cbv zeta in Hunpin.
  assert (Hch : Channel.with_pinnedMessages pinned
                  (List.filter (fun id => negb (bool_decide (id = messageId)))
                     (default [] (Channel.pinnedMessages pinned))) = unpinned).
  { unfold pinned, unpinned, Channel.with_pinnedMessages. cbn.
    by rewrite filter_other_app, filter_other_absent. }
  rewrite Hch, list_insert_insert_eq in Hunpin.
  eexists w1, _. split; [exact Hpin|]. split.
  { unfold stored. cbn. apply lookup_insert_eq. }
  split.
  { apply (pinMessage_pinned _ _ _ w1 u i pinned Hu Hfind1). cbn.
    apply elem_of_app. right. by apply list_elem_of_singleton. }
  split; [exact Hunpin|].
  unfold stored. cbn. apply lookup_insert_eq.
Qed.

(** [fetchMessages] never throws. When the records of the channel were
    retrieved, it gives their messages in the order of their timestamps: the
    result has the ids of the retrieved messages, each as often, and becomes
    the [messages] of the provider. When the storage is not configured or
    not initialised, the result is empty and nothing changes. *)
Theorem fetchMessages_sorted `{W : WebCrypto} (channelId : jsstring) (w : World) :
  is_ok (fetchMessages channelId w).1 = true
  /\ (forall stored_messages w1,
        retrieveMessages channelId w = (Ok stored_messages, w1) ->
        exists out w',
          fetchMessages channelId w = (Ok out, w')
          /\ StronglySorted (fun a b => Message.timestamp a <= Message.timestamp b) out
          /\ map Message.id out ≡ₚ map Message.id stored_messages
          /\ messages w' = out)
  /\ (storageAdapter w = None \/ isInitialized w = false ->
      fetchMessages channelId w = (Ok [], w)).
Proof.
  split; [|split].
  - destruct (retrieveMessages channelId w) as [[l|e] w1] eqn:Hr.
    + destruct (fetchMessages_batch channelId w l w1 Hr) as (out & w2 & -> & _). done.
    + by rewrite (fetchMessages_throw _ _ _ _ Hr).
  - intros stored_messages w1 Hr.
    destruct (fetchMessages_batch channelId w stored_messages w1 Hr)
      as (out & w2 & Hfetch & Hbatch).
    apply loaded_batch_same in Hbatch as [Hid Hts].
    exists out, (set_messages out w2). split; [exact Hfetch|]. split.
    { apply (StronglySorted_timestamps (sort_by_timestamp stored_messages)); [done|].
      apply sort_by_timestamp_sorted. }
    split; [|reflexivity].
    by rewrite Hid, sort_by_timestamp_Permutation.
  - intros Hst. apply (fetchMessages_throw _ _ (JsError "Storage adapter not initialized") w).
    unfold retrieveMessages, bind. rewrite listData_run.
    destruct Hst as [-> | ->]; [done|]. by destruct (storageAdapter w).
Qed.

(** A user's reaction to a message is in the list of messages once: adding
    it appends it to the reactions of the message, adding it again changes
    nothing, and removing it gives the reactions from before. *)
Theorem reaction_added_once `{W : WebCrypto} (w : World) (u : User.t)
    (channelId messageId emoji : jsstring) (index : nat) (m : Message.t)
    (r0 : list byte) (k : AesKey) (blobs : gmap (jsstring * jsstring) Json) :
  user (authState w) = Some u ->
  truthy (currentChannelId w) = Some channelId ->
  list_find (fun m => Message.id m = messageId) (messages w) = Some (index, m) ->
  Message.iv m = Some (Base64.encode (map byte_to_Z r0)) ->
  length r0 = 12%nat ->
  channelKeysCache w !! channelId = Some (AesGcmKey k) ->
  storageAdapter w = Some blobs ->
  isInitialized w = true ->
  find (is_reaction_of u emoji) (default [] (Message.reactions m)) = None ->
  let reaction :=
    {| Reaction.emoji := emoji; Reaction.userId := User.id u;
       Reaction.userName := User.name u |} in
  exists w1 w2,
    addReaction messageId emoji w = (Ok true, w1)
    /\ messages w1
       = <[index := Message.with_reactions m
                      (default [] (Message.reactions m) ++ [reaction])]> (messages w)
    /\ addReaction messageId emoji w1 = (Ok true, w1)
    /\ removeReaction messageId emoji w1 = (Ok true, w2)
    /\ messages w2
       = <[index := Message.with_reactions m (default [] (Message.reactions m))]>
           (messages w).
Proof.
  intros Hu Hch Hfind Hiv Hr0 Hc Hst Hinit Hnone reaction.
  destruct (addReaction_run messageId emoji w u channelId index m r0 k blobs
              Hu Hch Hfind Hiv Hr0 Hc Hst Hinit Hnone) as (c & Hadd).
  cbv zeta in Hadd. fold reaction in Hadd.
  set (added := Message.with_reactions m (default [] (Message.reactions m) ++ [reaction]))
    in *.
  match type of Hadd with _ = (_, ?x) => set (w1 := x) in * end.
  assert (Hid : Message.id added = messageId).
  { apply list_find_Some in Hfind as (_ & Hid & _). exact Hid. }
  pose proof (list_find_insert (fun m => Message.id m = messageId) (messages w) index m
                added Hfind Hid) as Hfind1.
  assert (His : is_reaction_of u emoji reaction = true).
  { unfold is_reaction_of, reaction. cbn. by rewrite !bool_decide_true. }
  destruct (find_reaction_added u emoji (default [] (Message.reactions m)) reaction His)
    as [r Hr].
  destruct (removeReaction_run messageId emoji w1 u channelId index added r0 k _
              Hu Hch Hfind1 Hiv Hr0 Hc eq_refl Hinit) as (c' & Hremove).
  cbv zeta in Hremove.
  assert (Hback : Message.with_reactions added
                    (List.filter (fun r => negb (is_reaction_of u emoji r))
                       (default [] (Message.reactions added)))
                  = Message.with_reactions m (default [] (Message.reactions m))).
  { unfold added, Message.with_reactions. cbn.
    rewrite List.filter_app. cbn. rewrite His. cbn.
    by rewrite app_nil_r, filter_reactions_absent. }
  rewrite Hback in Hremove.
  eexists w1, _. split; [exact Hadd|]. split; [reflexivity|]. split.
  { apply (addReaction_present messageId emoji w1 u channelId index added r Hu Hch Hfind1).
    exact Hr. }
  split; [exact Hremove|].
  cbn. apply list_insert_insert_eq.
Qed.


(** A created channel is stored as it is loaded. For a user who is signed
    in with the keys of a generated pair, with the storage ready:
    [createChannel] puts the new channel in front of the list and stores its
    JSON text under [channels], with the id of the channel and [.json] as
    key; [JSON.parse] of that text gives the channel. [loadChannels], in any
    process, returns the channel whenever it is among the channels
    retrieved, and makes the first channel of its result the current one
    when none is selected. *)
Theorem createChannel_then_loadChannels `{W : WebCrypto} `{P : @Platform W}
    (w : World) (u : User.t) (pk : RsaPublic) (sk : RsaPrivate) (random : jsstring)
    (channels : list Channel.t) (name description : jsstring) (isPrivate : bool) :
  ready w u pk sk ->
  exists newChannel w1,
    createChannel random channels name description isPrivate w
    = (Ok (js "channel-" ++ random, newChannel :: channels), w1)
    /\ Channel.id newChannel = js "channel-" ++ random
    /\ Channel.name newChannel = name
    /\ Channel.createdBy newChannel = User.id u
    /\ Channel.members newChannel = [User.id u]
    /\ stored w1 StoragePaths.CHANNELS ((js "channel-" ++ random) ++ js ".json")
       = Some (JsonText (JSON_stringify_Channel newChannel))
    /\ JSON_parse_Channel_data (JsonText (JSON_stringify_Channel newChannel))
       = Ok newChannel
    /\ forall w2 channels2 loaded w3,
         retrieveChannels w2 = (Ok loaded, w3) ->
         newChannel ∈ loaded ->
         exists out w4,
           loadChannels channels2 w2 = (Ok out, w4)
           /\ newChannel ∈ out
           /\ (truthy (currentChannelId w2) = None ->
               exists first,
                 out !! 0%nat = Some first
                 /\ currentChannelId w4 = Some (Channel.id first)).
Proof.
  intros Hready.
  destruct (createChannel_ready random channels name description isPrivate w u pk sk
              Hready) as (c & g & blobs & Hst & Hcreate).
  cbv zeta in Hcreate.
  set (newChannel := new_channel u random name description isPrivate (now w)) in *.
  match type of Hcreate with _ = (_, ?x) => set (w1 := x) in * end.
  exists newChannel, w1. split; [exact Hcreate|]. do 4 (split; [reflexivity|]).
  split.
  { unfold stored. cbn [w1 storageAdapter set_currentChannelId set_channelKeysCache
                        set_storageAdapter].
    rewrite lookup_insert_ne
      by (intros [= H]; by apply (channels_path_encryption (Channel.id newChannel))).
    apply lookup_insert_eq. }
  split.
  { cbn [JSON_parse_Channel_data]. by rewrite JSON_parse_stringify_Channel. }
  intros w2 channels2 loaded w3 Hr Hin.
  rewrite loadChannels_run, Hr. cbn [fst]. eexists _, _. split; [reflexivity|].
  assert (Hout : newChannel ∈ sort_by_createdAt loaded)
    by (by rewrite sort_by_createdAt_Permutation).
  split; [exact Hout|].
  intros Hnone. cbn [currentChannelId set_currentChannelId]. unfold selected.
  rewrite Hnone. destruct (sort_by_createdAt loaded) as [|first rest].
  - by apply elem_of_nil in Hout.
  - by exists first.
Qed.

(** Under one root prefix, keys without a slash under paths that are not
    empty get different object names unless the keys are the same and the
    paths are the same up to a slash at the end. *)
Theorem getFullPath_injective (rootPrefix : option jsstring) (key1 key2 : jsstring)
    (path1 path2 : jsstring) :
  47 ∉ key1 -> 47 ∉ key2 ->
  path1 <> [] -> path2 <> [] ->
  getFullPath rootPrefix key1 (Some path1) = getFullPath rootPrefix key2 (Some path2) ->
  key1 = key2 /\ with_slash path1 = with_slash path2.
Proof.
  intros H1 H2 Hp1 Hp2. unfold getFullPath.
  destruct path1 as [|c1 path1]; [done|]. destruct path2 as [|c2 path2]; [done|].
  cbn [truthy]. rewrite <- !app_assoc. intros Heq. apply app_inv_head in Heq.
  destruct (with_slash_last (c1 :: path1)) as [p1 Hs1].
  destruct (with_slash_last (c2 :: path2)) as [p2 Hs2].
  rewrite Hs1, Hs2 in *.
  by destruct (cut_at_last_slash p1 p2 key1 key2 H1 H2 Heq) as [-> ->].
Qed.

Lemma getFullPath_injective_witness :
  js "msg-1.json" = js "msg-1.json"
  /\ with_slash (js "messages/channel-general") = with_slash (js "messages/channel-general/").
Proof.
  apply (getFullPath_injective (Some (js "secure-messaging-app"))
           (js "msg-1.json") (js "msg-1.json")
           (js "messages/channel-general") (js "messages/channel-general/")).
  - apply (bool_decide_unpack _). reflexivity.
  - apply (bool_decide_unpack _). reflexivity.
  - discriminate.
  - discriminate.
  - reflexivity.
Defined.

Lemma editMessage_stores_what_it_shows_witness :
  exists w' record,
    editMessage (js "msg-2") (js "edited") Scenario.chat = (Ok true, w')
    /\ stored w' (js "messages/channel-general") (js "msg-2.json")
       = Some (JsonMessage record)
    /\ decryptLoaded Scenario.general record w'
       = (Ok (Message.with_content record (js "edited")), w').
Proof.
  destruct (editMessage_stores_what_it_shows Scenario.chat (Scenario.member "alice" 11)
              Scenario.general (js "msg-2") (js "edited") 1 Sessions.shown_message
              Sessions.alice_key Scenario.stored_messages
              eq_refl eq_refl eq_refl eq_refl eq_refl eq_refl eq_refl eq_refl eq_refl)
    as (c & w' & record & Hrun & _ & _ & Hstored & _ & Hload & _).
  exists w', record. split; [exact Hrun|]. split; [exact Hstored|exact Hload].
Defined.

Lemma edit_and_delete_only_by_sender_witness :
  editMessage (js "msg-2") (js "edited") Sessions.reader = (Ok false, Sessions.reader)
  /\ deleteMessage (js "msg-2") Sessions.reader = (Ok false, Sessions.reader).
Proof.
  apply (edit_and_delete_only_by_sender Sessions.reader (js "msg-2") (js "edited")).
  right. right. right.
  exists (Scenario.member "bob" 29), 1%nat, Sessions.shown_message.
  split; [reflexivity|]. split; [reflexivity|]. vm_compute. discriminate.
Defined.

Lemma deleteMessage_keeps_record_witness :
  exists w',
    deleteMessage (js "msg-2") Scenario.chat = (Ok true, w')
    /\ Forall (fun x => Message.id x <> js "msg-2") (messages w')
    /\ stored w' (js "messages/channel-general") (js "msg-2.json")
       = Some (JsonMessage (Message.with_content Sessions.shown_message message_deleted)).
Proof.
  destruct (deleteMessage_keeps_record Scenario.chat (Scenario.member "alice" 11)
              Scenario.general (js "msg-2") Sessions.shown_message Scenario.stored_messages
              eq_refl eq_refl eq_refl eq_refl eq_refl eq_refl)
    as (w' & Hrun & Hgone & Hst & _).
  exists w'. split; [exact Hrun|]. split; [exact Hgone|].
  unfold stored. rewrite Hst. apply lookup_insert_eq.
Defined.

Lemma sendMessage_roundtrip_witness :
  exists newMessage channels' w',
    sendMessage (js "p0q1r2s") [Sessions.lobby] (js "see you") Scenario.general None
      Scenario.inbox
    = (Ok (Some newMessage, channels'), w')
    /\ Message.id newMessage = js "msg-p0q1r2s"
    /\ decryptLoaded Scenario.general newMessage w'
       = (Ok (Message.with_content newMessage (js "see you")), w').
Proof.
  destruct (sendMessage_roundtrip Scenario.inbox (Scenario.member "alice" 11)
              (js "p0q1r2s") [Sessions.lobby] (js "see you") Scenario.general None
              Sessions.alice_key Scenario.stored_messages
              eq_refl eq_refl eq_refl eq_refl eq_refl eq_refl eq_refl)
    as (newMessage & channels' & w' & Hrun & Hid & _ & _ & _ & Hload & _).
  exists newMessage, channels', w'. split; [exact Hrun|]. split; [exact Hid|exact Hload].
Defined.

Lemma sendMessage_reply_stores_local_parent_witness :
  exists newMessage channels' w' record,
    sendMessage (js "p0q1r2s") [Sessions.lobby] (js "yes") Scenario.general
      (Some (js "msg-2")) Scenario.chat
    = (Ok (Some newMessage, channels'), w')
    /\ stored w' (js "messages/channel-general") (js "msg-2.json")
       = Some (JsonMessage record)
    /\ Message.content record = js "hi bob"
    /\ Message.iv record = Message.iv Scenario.encrypted_message.
Proof.
  destruct (sendMessage_reply_stores_local_parent Scenario.chat
              (Scenario.member "alice" 11) (js "p0q1r2s") [Sessions.lobby] (js "yes")
              Scenario.general (js "msg-2") 1 Sessions.shown_message
              Sessions.alice_key Scenario.stored_messages
              eq_refl eq_refl eq_refl eq_refl)
    as (newMessage & channels' & w' & record & Hrun & _ & Hcontent & Hiv & Hstored & _).
  - discriminate.
  - reflexivity.
  - exists newMessage, channels', w', record.
    split; [exact Hrun|]. split; [exact Hstored|]. split; [exact Hcontent|exact Hiv].
Defined.

Lemma sendMessage_needs_key_witness :
  sendMessage (js "p0q1r2s") [Sessions.lobby] (js "hello") Scenario.general None Scenario.bob
  = (Ok (None, [Sessions.lobby]), Scenario.bob).
Proof.
  apply (sendMessage_needs_key Scenario.bob (js "p0q1r2s") [Sessions.lobby] (js "hello")
           Scenario.general None).
  right. split; [reflexivity|]. left. reflexivity.
Defined.

Lemma create_send_fetch_witness :
  exists channels1 w1 loaded newMessage channels2 w2,
    createChannel (js "a1b2c3d") [] (js "random") (js "anything goes") false Scenario.alice
    = (Ok (js "channel-a1b2c3d", channels1), w1)
    /\ currentChannelEffect w1 = (Ok tt, set_messages loaded w1)
    /\ sendMessage (js "p0q1r2s") channels1 (js "first") (js "channel-a1b2c3d") None
         (set_messages loaded w1)
       = (Ok (Some newMessage, channels2), w2)
    /\ messages w2 = loaded ++ [Message.with_content newMessage (js "first")]
    /\ decryptLoaded (js "channel-a1b2c3d") newMessage w2
       = (Ok (Message.with_content newMessage (js "first")), w2).
Proof.
  destruct (create_send_fetch Scenario.alice (Scenario.member "alice" 11)
              (Scenario.keys_of 11).1 (Scenario.keys_of 11).2
              (js "a1b2c3d") (js "p0q1r2s") [] (js "random") (js "anything goes")
              (js "first") false (scenario_ready "alice" 11) eq_refl eq_refl)
    as (channelId & channels1 & w1 & loaded & newMessage & channels2 & w2
        & Hcreate & -> & _ & _ & Heffect & _ & Hsend & _ & Hmessages & _ & Hload & _).
  exists channels1, w1, loaded, newMessage, channels2, w2.
  split; [exact Hcreate|]. split; [exact Heffect|]. split; [exact Hsend|].
  split; [exact Hmessages|exact Hload].
Defined.

Lemma createChannel_without_key_witness :
  exists channels' w',
    createChannel (js "a1b2c3d") [] (js "random") (js "anything goes") false
      Sessions.relogged
    = (Ok (js "channel-a1b2c3d", channels'), w')
    /\ hasChannelKey (js "channel-a1b2c3d") w' = (Ok false, w')
    /\ sendMessage (js "p0q1r2s") channels' (js "first") (js "channel-a1b2c3d") None w'
       = (Ok (None, channels'), w').
Proof.
  destruct (createChannel_without_key Sessions.relogged
              {| User.id := js "user-k3x9q2a"; User.name := js "carol";
                 User.email := js "carol@example.org"; User.publicKey := None |}
              (js "a1b2c3d") [] (js "random") (js "anything goes") false ∅
              eq_refl eq_refl eq_refl eq_refl eq_refl eq_refl)
    as (channels' & w' & Hcreate & _ & Hhas & Hsend).
  exists channels', w'. split; [exact Hcreate|]. split; [exact Hhas|apply Hsend].
Defined.

Lemma file_roundtrip_witness :
  exists e w',
    encryptFile Sessions.note Scenario.general Scenario.inbox = (Ok e, w')
    /\ decryptFile (EncryptedFile.encryptedData e) (EncryptedFile.iv e)
         (EncryptedFile.metadata e) Scenario.general Scenario.chat
       = (Ok {| Blob.bytes := [x68; xe9; x00; xff]; Blob.type := js "text/plain" |},
          Scenario.chat).
Proof.
  apply (file_roundtrip Sessions.note Scenario.general Sessions.alice_key
           Scenario.inbox Scenario.chat eq_refl eq_refl).
  - cbn. lia.
  - reflexivity.
Defined.

Lemma encryptFile_plaintext_witness :
  exists e w' c,
    encryptFile Sessions.note Scenario.general Scenario.inbox = (Ok e, w')
    /\ Reference.encrypt_aes Sessions.alice_key (rng_take 12 (rng Scenario.inbox))
         (TextEncoder_encode (map byte_to_Z (File.bytes Sessions.note)))
       = Some c
    /\ base64ToArrayBuffer (EncryptedFile.encryptedData e) = Ok c
    /\ length (TextEncoder_encode (map byte_to_Z (File.bytes Sessions.note))) = 6%nat.
Proof.
  destruct (encryptFile_plaintext Sessions.note Scenario.general Sessions.alice_key
              Scenario.inbox eq_refl)
    as (e & w' & c & Hrun & Hc & _ & Hd & _ & Hlen).
  - cbn. lia.
  - exists e, w', c. split; [exact Hrun|]. split; [exact Hc|]. split; [exact Hd|exact Hlen].
Defined.

Lemma encryptFile_over_limit_witness :
  exists error,
    encryptFile {| File.name := js "big.bin"; File.type := js "application/octet-stream";
                   File.bytes := replicate 1025 x00 |} Scenario.general Scenario.inbox
    = (Throw error, Scenario.inbox).
Proof.
  apply (encryptFile_over_limit _ Scenario.general (AesGcmKey Sessions.alice_key)
           Scenario.inbox eq_refl).
  cbn [File.bytes]. rewrite length_replicate. cbn. lia.
Defined.

Lemma signUp_ready_witness :
  exists w' u pk sk,
    signUp Sessions.carol_id (js "carol") (js "carol@example.org") (js "secret")
      Sessions.visitor = (Ok true, w')
    /\ User.id u = js "user-k3x9q2a"
    /\ ready w' u pk sk
    /\ exists w'', generateChannelKey Scenario.general w' = (Ok true, w'').
Proof.
  destruct (signUp_ready Sessions.visitor Sessions.carol_id (js "carol")
              (js "carol@example.org") (js "secret") ∅ eq_refl eq_refl)
    as (w' & u & pk & sk & Hrun & Hid & _ & _ & Hready & _ & _ & Hgen).
  exists w', u, pk, sk. split; [exact Hrun|]. split; [exact Hid|]. split; [exact Hready|].
  destruct (Hgen Scenario.general) as (w'' & Hg & _). by exists w''.
Defined.

Lemma login_new_identity_witness :
  exists w' u pk sk,
    login (js "z9y8x7w") (js "dave@example.org") (js "secret") Sessions.visitor
    = (Ok true, w')
    /\ User.id u = js "user-z9y8x7w"
    /\ User.name u = js "dave"
    /\ ready w' u pk sk.
Proof.
  destruct (login_new_identity Sessions.visitor (js "z9y8x7w") (js "dave@example.org")
              (js "secret") ∅ eq_refl eq_refl eq_refl)
    as (w' & u & pk & sk & Hrun & Hid & Hname & _ & _ & Hready & _).
  exists w', u, pk, sk. split; [exact Hrun|]. split; [exact Hid|].
  split; [exact Hname|exact Hready].
Defined.

Lemma login_stored_key_no_public_key_witness :
  exists w' u,
    login Sessions.carol_id (js "carol@example.org") (js "secret") Sessions.returning
    = (Ok true, w')
    /\ user (authState w') = Some u
    /\ User.publicKey u = None
    /\ (generateChannelKey Scenario.general w').1 = Ok false.
Proof.
  destruct (login_stored_key_no_public_key Sessions.returning Sessions.carol_id
              (js "carol@example.org") (js "secret")
              (Reference.stringify (Reference.JwkRsaPrivate (rng_take 4 (rng Sessions.visitor))))
              (Reference.JwkRsaPrivate (rng_take 4 (rng Sessions.visitor))) eq_refl)
    as (w' & u & Hrun & Hu & _ & Hpk & _ & _ & _ & Hgen).
  - discriminate.
  - apply parse_stringify.
  - exists w', u. split; [exact Hrun|]. split; [exact Hu|]. split; [exact Hpk|].
    apply Hgen.
Defined.

Lemma session_restored_witness :
  checkAuthState (set_localStorage (localStorage Sessions.registered) Scenario.bob)
  = (Ok tt, set_authState (authState Sessions.registered)
              (set_localStorage (localStorage Sessions.registered) Scenario.bob)).
Proof.
  apply (session_restored Sessions.visitor Sessions.registered
           (set_localStorage (localStorage Sessions.registered) Scenario.bob)
           Sessions.carol_id (js "carol") (js "carol@example.org") (js "secret")).
  - left. reflexivity.
  - reflexivity.
Defined.

Lemma logout_keeps_channel_keys_witness :
  exists w1 b w2,
    logout Scenario.chat = (Ok tt, w1)
    /\ user (authState w1) = None
    /\ login (js "z9y8x7w") (js "dave@example.org") (js "secret") w1 = (Ok b, w2)
    /\ getChannelKey Scenario.general w2 = (Ok (Some (AesGcmKey Sessions.alice_key)), w2).
Proof.
  destruct (logout_keeps_channel_keys Scenario.chat Scenario.general
              (AesGcmKey Sessions.alice_key) (js "z9y8x7w") (js "dave@example.org")
              (js "secret") eq_refl)
    as (w1 & b & w2 & Hout & Hu & _ & _ & _ & Hin & Hkey & _).
  exists w1, b, w2. split; [exact Hout|]. split; [exact Hu|]. split; [exact Hin|exact Hkey].
Defined.

Lemma pin_then_unpin_witness :
  exists w1 w2 pinned unpinned,
    pinMessage [Sessions.lobby] (js "msg-2") Scenario.general Scenario.alice
    = (Ok (true, [pinned]), w1)
    /\ Channel.pinnedMessages pinned = Some [js "msg-2"]
    /\ unpinMessage [pinned] (js "msg-2") Scenario.general w1 = (Ok (true, [unpinned]), w2)
    /\ Channel.pinnedMessages unpinned = Some [].
Proof.
  destruct (pin_then_unpin Scenario.alice (Scenario.member "alice" 11) ∅ [Sessions.lobby]
              (js "msg-2") Scenario.general 0 Sessions.lobby
              eq_refl eq_refl eq_refl eq_refl (not_elem_of_nil _))
    as (w1 & w2 & Hpin & _ & _ & Hunpin & _).
  eexists w1, w2, _, _. split; [exact Hpin|]. split; [reflexivity|].
  split; [exact Hunpin|reflexivity].
Defined.

Lemma reaction_added_once_witness :
  exists w1 w2,
    addReaction (js "msg-2") (js "+1") Scenario.chat = (Ok true, w1)
    /\ addReaction (js "msg-2") (js "+1") w1 = (Ok true, w1)
    /\ removeReaction (js "msg-2") (js "+1") w1 = (Ok true, w2)
    /\ (messages w2 !! 1%nat) ≫= Message.reactions = Some [].
Proof.
  destruct (reaction_added_once Scenario.chat (Scenario.member "alice" 11)
              Scenario.general (js "msg-2") (js "+1") 1 Sessions.shown_message
              Scenario.sent_nonce Sessions.alice_key Scenario.stored_messages
              eq_refl eq_refl eq_refl eq_refl eq_refl eq_refl eq_refl eq_refl eq_refl)
    as (w1 & w2 & Hadd & _ & Hagain & Hremove & Hmessages).
  exists w1, w2. split; [exact Hadd|]. split; [exact Hagain|]. split; [exact Hremove|].
  rewrite Hmessages. reflexivity.
Defined.

Lemma createChannel_then_loadChannels_witness :
  exists newChannel w1,
    createChannel (js "a1b2c3d") [] (js "random") (js "anything goes") false Scenario.alice
    = (Ok (js "channel-a1b2c3d", [newChannel]), w1)
    /\ stored w1 (js "channels") (js "channel-a1b2c3d.json")
       = Some (JsonText (JSON_stringify_Channel newChannel))
    /\ JSON_parse_Channel_data (JsonText (JSON_stringify_Channel newChannel))
       = Ok newChannel.
Proof.
  destruct (createChannel_then_loadChannels Scenario.alice (Scenario.member "alice" 11)
              (Scenario.keys_of 11).1 (Scenario.keys_of 11).2
              (js "a1b2c3d") [] (js "random") (js "anything goes") false
              (scenario_ready "alice" 11))
    as (newChannel & w1 & Hcreate & _ & _ & _ & _ & Hstored & Hparse & _).
  exists newChannel, w1. split; [exact Hcreate|]. split; [exact Hstored|exact Hparse].
Defined.

Lemma fetchMessages_sorted_witness :
  exists out w',
    fetchMessages Scenario.general Scenario.inbox = (Ok out, w')
    /\ map Message.id out
       ≡ₚ map Message.id
            [Scenario.damaged_message; Scenario.encrypted_message; Scenario.legacy_message]
    /\ messages w' = out.
Proof.
  destruct (fetchMessages_sorted Scenario.general Scenario.inbox) as (_ & Hretrieved & _).
  destruct (Hretrieved
              [Scenario.damaged_message; Scenario.encrypted_message; Scenario.legacy_message]
              Scenario.inbox eq_refl)
    as (out & w' & Hfetch & _ & Hids & Hmessages).
  exists out, w'. split; [exact Hfetch|]. split; [exact Hids|exact Hmessages].
Defined.


Lemma failed_login_opens_route_witness :
  exists w',
    login Sessions.carol_id (js "carol@example.org") (js "secret") Sessions.tampered
    = (Ok false, w')
    /\ user (authState w') = None
    /\ ProtectedRoute w' = true.
Proof.
  destruct (failed_login_opens_route Sessions.tampered Sessions.carol_id
              (js "carol@example.org") (js "secret") (js "not json") eq_refl)
    as (w' & Hrun & Huser & _ & Hroute & _).
  - discriminate.
  - reflexivity.
  - exists w'. split; [exact Hrun|]. split; [exact Huser|exact Hroute].
Defined.
